(** * Volcano: playback worker, gateway and dispatcher

    A shallow embedding of [dist/worker.js] (the per-room [Queue], the
    worker message loop and its heartbeat) and of [src/index.ts] (the
    client gateway: upgrade and resume, outbound relay, PLAY routing,
    [/decodetracks]), followed by the properties established about them.

    Conventions of the embedding.
    - A JavaScript number is an IEEE 754 binary64 value, a primitive
      [float]: sums, products and quotients round as they do in the
      language, [NaN], the infinities and the two zeros are values, and
      [=?], [<=?] are the comparisons of [===] and [<=].  A [bigint] is
      an integer ([Z]).  Payload fields carry the types the protocol
      gives them.
    - [undefined] / [null] is [None].  An ffmpeg argument is an
      [option string] because [Queue.filters] can read past the end of
      the chain and store the resulting [undefined].
    - A JavaScript [Map] keeps insertion order; it is an association list
      ([JS.Map]) where the source iterates over it, and a [gmap] where the
      source only looks keys up.
    - Asynchronous code is cut at its [await]s.  A function of the model
      is the synchronous stretch the source runs in one go; what is left
      suspended is recorded in the [building] and [settled] fields of the
      queue and resumed by [stream_ready], [probe_done] and [drain].
    - Calls of [parentPort.postMessage] and [socket.send] are recorded, in
      order, in [posted] / [outbox] and [wire].
    - The commands that act on one queue are handled by
      [Worker.on_message]; [Thread] adds the rest of the message
      listener (STATS, DESTROY, DELETE_ALL), [Queue.destroy] and the end
      of [play()] after the resource is handed to the player.
    - Left out, because no statement below depends on them: logging; the
      [error] listener of the player and the branches of the listener of
      the voice connection that wait for a reconnection (they only post
      events); the worker op VOICE_SERVER and the voice adapter; the
      expiry of the resume timer; the stats the gateway computes and the
      broadcasts that go with a voice update; [/loadtracks]. *)

From Stdlib Require Import List String Ascii Bool ZArith Lia.
From Stdlib Require Import DecimalString Floats.
From stdpp Require Import gmap strings.
Import ListNotations.
Open Scope string_scope.
Open Scope list_scope.

#[global] Set Warnings "-inexact-float,-register-all".

(** ** JavaScript built-ins used by the sources *)

Module JS.

(** Truthiness of a number: everything but [0], [-0] and [NaN]. *)
Definition truthy (x : float) : bool := negb ((x =? 0)%float || is_nan x).

(** [x || d] on numbers. *)
Definition or_num (x d : float) : float := if truthy x then x else d.

(** [x || d] where [x] may be absent. *)
Definition opt_or (x : option float) (d : float) : float :=
  match x with Some v => or_num v d | None => d end.

(** Truthiness of a string: everything but the empty string. *)
Definition str_truthy (s : string) : bool := negb (String.eqb s "").

(** Truthiness of a possibly absent string. *)
Definition opt_str_truthy (s : option string) : bool :=
  match s with Some v => str_truthy v | None => false end.

(** The number of an integer; exact below [2^53] in absolute value. *)
Definition of_Z (z : Z) : float :=
  match z with
  | Z0 => 0%float
  | Zpos _ => of_uint63 (Uint63.of_Z z)
  | Zneg p => (- of_uint63 (Uint63.of_Z (Zpos p)))%float
  end.

(** [Math.floor].  A finite number is [m * 2^e] up to its sign, with
    [m] below [2^53]; it is an integer already when [e] is not
    negative.  Zeros, infinities and [NaN] are returned as they are. *)
Definition floor (x : float) : float :=
  match Prim2SF x with
  | S754_finite s m e =>
      if (0 <=? e)%Z then x
      else
        let q := Z.shiftr (Zpos m) (- e) in
        let exact := Z.eqb (Z.shiftl q (- e)) (Zpos m) in
        if s then (- of_Z (if exact then q else q + 1))%float
        else of_Z q
  | _ => x
  end.

(** [Math.round]: the nearest integer, halves going up; a result of
    zero keeps the sign of the argument. *)
Definition round (x : float) : float :=
  match Prim2SF x with
  | S754_finite s m e =>
      if (0 <=? e)%Z then x
      else
        let half := Z.shiftl 1 (- e - 1) in
        if s then (- of_Z (- Z.shiftr (- (Zpos m - half)) (- e)))%float
        else of_Z (Z.shiftr (Zpos m + half) (- e))
  | _ => x
  end.

(** [x >= y]. *)
Definition geb (x y : float) : bool := (y <=? x)%float.

Section Arrays.
Context {A : Type} (eqb : A -> A -> bool).

(** [l.indexOf(x)]; [None] stands for [-1]. *)
Fixpoint indexOf (x : A) (l : list A) : option nat :=
  match l with
  | [] => None
  | y :: r => if eqb y x then Some O else option_map S (indexOf x r)
  end.

(** [l.includes(x)]. *)
Definition includes (x : A) (l : list A) : bool :=
  match indexOf x l with Some _ => true | None => false end.
End Arrays.

(** [l.splice(start, deleteCount)], the array that is left. *)
Definition splice {A} (start deleteCount : nat) (l : list A) : list A :=
  firstn start l ++ skipn (start + deleteCount) l.

(** [l.slice(start, stop)]. *)
Definition slice {A} (start stop : nat) (l : list A) : list A :=
  firstn (stop - start) (skipn start l).

(** [l[i]] on an array of possibly undefined values: out of range reads
    [undefined]. *)
Definition at_ {A} (l : list (option A)) (i : nat) : option A :=
  match nth_error l i with Some a => a | None => None end.

(** [l.join(sep)]: an undefined element or a hole prints as the empty
    string. *)
Definition join (sep : string) (l : list (option string)) : string :=
  String.concat sep
    (List.map (fun o => match o with Some s => s | None => "" end) l).

(** [Array(n)]: [n] holes. *)
Definition Array_ (A : Type) (n : nat) : list (option A) := repeat None n.

(** [l.map(f)] on an array with holes: holes are skipped and stay
    holes; [f] receives the element and its index. *)
Fixpoint map_from {A B} (f : A -> nat -> B) (i : nat) (l : list (option A))
  : list (option B) :=
  match l with
  | [] => []
  | None :: r => None :: map_from f (S i) r
  | Some a :: r => Some (f a i) :: map_from f (S i) r
  end.
Definition map {A B} (f : A -> nat -> B) (l : list (option A)) :=
  map_from f O l.

(** Result of a call that may throw. *)
Inductive Throws (A : Type) : Type :=
| Ok (a : A)
| Throw (e : string).
Arguments Ok {A} a.
Arguments Throw {A} e.

(** [l.find(i => p(i.field))] on an array with holes.  [find] visits
    holes as [undefined], and the callback reads a property of its
    argument, which throws a [TypeError] on [undefined].  The index of
    the element found is returned so that the caller can update it in
    place. *)
Fixpoint find_from {A} (p : A -> bool) (i : nat) (l : list (option A))
  : Throws (option nat) :=
  match l with
  | [] => Ok None
  | None :: _ => Throw "TypeError"
  | Some a :: r => if p a then Ok (Some i) else find_from p (S i) r
  end.
Definition find {A} (p : A -> bool) (l : list (option A)) := find_from p O l.

(** Update of the object stored at index [i]. *)
Fixpoint update_at {A} (f : A -> A) (i : nat) (l : list (option A))
  : list (option A) :=
  match l, i with
  | [], _ => []
  | x :: r, O => option_map f x :: r
  | x :: r, S j => x :: update_at f j r
  end.

(** *** [Map] with string keys, in insertion order *)

Definition Map (V : Type) : Type := list (string * V).

Fixpoint get {V} (k : string) (m : Map V) : option V :=
  match m with
  | [] => None
  | (k', v) :: r => if String.eqb k' k then Some v else get k r
  end.

Definition has {V} (k : string) (m : Map V) : bool :=
  match get k m with Some _ => true | None => false end.

(** [m.set(k, v)]: an existing key keeps its place. *)
Fixpoint set {V} (k : string) (v : V) (m : Map V) : Map V :=
  match m with
  | [] => [(k, v)]
  | (k', v') :: r =>
      if String.eqb k' k then (k, v) :: r else (k', v') :: set k v r
  end.

Fixpoint delete {V} (k : string) (m : Map V) : Map V :=
  match m with
  | [] => []
  | (k', v') :: r =>
      if String.eqb k' k then r else (k', v') :: delete k r
  end.

Definition values {V} (m : Map V) : list V := List.map snd m.
Definition size {V} (m : Map V) : nat := length m.

End JS.

(** ** Data of the worker *)

(** The queued track: the object built by the PLAY handler. *)
Module Track.
Record t := {
  track : string;   (* the encoded blob *)
  start : float;
  end_ : float;
  volume : float;
  pause : bool
}.
End Track.

(** What [encoding.decode] returns for a blob.  The type belongs to
    [@lavalink/encoding]; its fields are those the sources read.
    [length] and [position] are bigints: [index.ts] wraps both in
    [BigInt] wherever it hands a track to [encoding.encode]. *)
Module TrackInfo.
Record t := {
  source : string;
  identifier : string;
  uri : option string;
  title : string;
  author : string;
  length : Z;
  position : Z;
  isStream : bool
}.
End TrackInfo.

Module FilterSpec.
Record Band := { band : float; gain : float }.
Record Timescale := { rate : option float; pitch : option float; speed : option float }.
Record Wave := { frequency : option float; depth : option float }.
Record Rotation := { rotationHz : option float }.
Record LowPass := { smoothing : float }.
Record t := {
  volume : option float;
  equalizer : option (list Band);   (* [None]: absent or not an array *)
  timescale : option Timescale;
  tremolo : option Wave;
  vibrato : option Wave;
  rotation : option Rotation;
  lowPass : option LowPass
}.
End FilterSpec.

(** [config.lavalink.server.sources]. *)
Record Sources := {
  youtube : bool;
  soundcloud : bool;
  local : bool;
  http : bool
}.

(** What the worker takes from outside the repository: the merged
    configuration, [encoding.decode], the conversion of a number to a
    string used by template literals, and [Math.log2]. *)
Record Env := {
  sources : Sources;
  decode : string -> TrackInfo.t;
  toString : float -> string;
  log2 : float -> float
}.

Module Worker.

(** An ffmpeg argument; [None] is an [undefined] stored in the chain. *)
Definition Arg : Type := option string.

Definition Arg_eqb (a b : Arg) : bool :=
  match a, b with
  | Some x, Some y => String.eqb x y
  | None, None => true
  | _, _ => false
  end.

Definition indexOf := JS.indexOf Arg_eqb.
Definition includes := JS.includes Arg_eqb.

(** Statuses of [@discordjs/voice]. *)
Inductive AudioPlayerStatus := Idle | Buffering | Playing | Paused | AutoPaused.
Inductive VoiceConnectionStatus :=
  Signalling | Connecting | Ready | Disconnected | Destroyed.

Definition status_eqb (a b : AudioPlayerStatus) : bool :=
  match a, b with
  | Idle, Idle | Buffering, Buffering | Playing, Playing
  | Paused, Paused | AutoPaused, AutoPaused => true
  | _, _ => false
  end.

(** An audio resource.  [ffmpegArgs] is the argument vector of the
    transcoder it reads from, [None] when it was built by
    [demuxProbe] without a transcoder. *)
Record AudioResource := {
  ffmpegArgs : option (list Arg);
  playbackDuration : float;
  resourceVolume : float;
  metadata : TrackInfo.t
}.

(** The value of the [state] getter. *)
Record State := { time : Z; position : float; connected : bool }.

Inductive EndReason := FINISHED | REPLACED | STOPPED.

(** [data] of a MESSAGE posted to the parent. *)
Inductive Data :=
| PLAYER_UPDATE (guildId : string) (state : State)
| TrackStartEvent (guildId : string) (track : string)
| TrackEndEvent (guildId : string) (reason : EndReason).

(** [data.guildId]. *)
Definition guildId_of (d : Data) : string :=
  match d with
  | PLAYER_UPDATE g _ | TrackStartEvent g _ | TrackEndEvent g _ => g
  end.

(** A [play()] call suspended before its audio resource exists. *)
Inductive PlayTask :=
| AwaitStream (meta : Track.t) (decoded : TrackInfo.t)
    (* the executor waits for the source stream *)
| AwaitProbe (meta : Track.t) (decoded : TrackInfo.t).
    (* [demux] waits for [Discord.demuxProbe] *)

Record Queue := {
  track : option Track.t;
  player : AudioPlayerStatus;          (* [this.player.state.status] *)
  current : option AudioResource;
  stopping : bool;
  _filters : list Arg;
  _volume : float;
  applyingFilters : bool;
  shouldntCallFinish : bool;
  trackPausing : bool;
  initial : bool;
  seekTime : float;
  _destroyed : bool;
  paused : bool;
  rate : float;
  connection : VoiceConnectionStatus;  (* [this.connection.state.status] *)
  clientID : string;
  guildID : string;
  (* bookkeeping of the embedding *)
  posted : list Data;
    (* [data] of the MESSAGEs posted during the current call *)
  building : list PlayTask;
    (* [play()] calls whose resource is not built yet *)
  settled : list (Track.t * option AudioResource);
    (* [play()] calls whose promise is settled and whose continuation
       runs as soon as the current call returns *)
  destroyedStreams : list AudioResource
    (* resources whose [playStream] was destroyed by [play()] *)
}.

(** Field updates. *)
Definition set_track (v : option Track.t) (q : Queue) : Queue :=
  {| track := v; player := player q; current := current q; stopping := stopping q;
     _filters := _filters q; _volume := _volume q;
     applyingFilters := applyingFilters q; shouldntCallFinish := shouldntCallFinish q;
     trackPausing := trackPausing q; initial := initial q; seekTime := seekTime q;
     _destroyed := _destroyed q; paused := paused q; rate := rate q;
     connection := connection q; clientID := clientID q; guildID := guildID q;
     posted := posted q; building := building q; settled := settled q;
     destroyedStreams := destroyedStreams q |}.
Definition set_player (v : AudioPlayerStatus) (q : Queue) : Queue :=
  {| track := track q; player := v; current := current q; stopping := stopping q;
     _filters := _filters q; _volume := _volume q;
     applyingFilters := applyingFilters q; shouldntCallFinish := shouldntCallFinish q;
     trackPausing := trackPausing q; initial := initial q; seekTime := seekTime q;
     _destroyed := _destroyed q; paused := paused q; rate := rate q;
     connection := connection q; clientID := clientID q; guildID := guildID q;
     posted := posted q; building := building q; settled := settled q;
     destroyedStreams := destroyedStreams q |}.
Definition set_current (v : option AudioResource) (q : Queue) : Queue :=
  {| track := track q; player := player q; current := v; stopping := stopping q;
     _filters := _filters q; _volume := _volume q;
     applyingFilters := applyingFilters q; shouldntCallFinish := shouldntCallFinish q;
     trackPausing := trackPausing q; initial := initial q; seekTime := seekTime q;
     _destroyed := _destroyed q; paused := paused q; rate := rate q;
     connection := connection q; clientID := clientID q; guildID := guildID q;
     posted := posted q; building := building q; settled := settled q;
     destroyedStreams := destroyedStreams q |}.
Definition set_stopping (v : bool) (q : Queue) : Queue :=
  {| track := track q; player := player q; current := current q; stopping := v;
     _filters := _filters q; _volume := _volume q;
     applyingFilters := applyingFilters q; shouldntCallFinish := shouldntCallFinish q;
     trackPausing := trackPausing q; initial := initial q; seekTime := seekTime q;
     _destroyed := _destroyed q; paused := paused q; rate := rate q;
     connection := connection q; clientID := clientID q; guildID := guildID q;
     posted := posted q; building := building q; settled := settled q;
     destroyedStreams := destroyedStreams q |}.
Definition set_filters (v : list Arg) (q : Queue) : Queue :=
  {| track := track q; player := player q; current := current q;
     stopping := stopping q; _filters := v; _volume := _volume q;
     applyingFilters := applyingFilters q; shouldntCallFinish := shouldntCallFinish q;
     trackPausing := trackPausing q; initial := initial q; seekTime := seekTime q;
     _destroyed := _destroyed q; paused := paused q; rate := rate q;
     connection := connection q; clientID := clientID q; guildID := guildID q;
     posted := posted q; building := building q; settled := settled q;
     destroyedStreams := destroyedStreams q |}.
Definition set_volume (v : float) (q : Queue) : Queue :=
  {| track := track q; player := player q; current := current q;
     stopping := stopping q; _filters := _filters q; _volume := v;
     applyingFilters := applyingFilters q; shouldntCallFinish := shouldntCallFinish q;
     trackPausing := trackPausing q; initial := initial q; seekTime := seekTime q;
     _destroyed := _destroyed q; paused := paused q; rate := rate q;
     connection := connection q; clientID := clientID q; guildID := guildID q;
     posted := posted q; building := building q; settled := settled q;
     destroyedStreams := destroyedStreams q |}.
Definition set_applyingFilters (v : bool) (q : Queue) : Queue :=
  {| track := track q; player := player q; current := current q;
     stopping := stopping q; _filters := _filters q; _volume := _volume q;
     applyingFilters := v; shouldntCallFinish := shouldntCallFinish q;
     trackPausing := trackPausing q; initial := initial q; seekTime := seekTime q;
     _destroyed := _destroyed q; paused := paused q; rate := rate q;
     connection := connection q; clientID := clientID q; guildID := guildID q;
     posted := posted q; building := building q; settled := settled q;
     destroyedStreams := destroyedStreams q |}.
Definition set_shouldntCallFinish (v : bool) (q : Queue) : Queue :=
  {| track := track q; player := player q; current := current q;
     stopping := stopping q; _filters := _filters q; _volume := _volume q;
     applyingFilters := applyingFilters q; shouldntCallFinish := v;
     trackPausing := trackPausing q; initial := initial q; seekTime := seekTime q;
     _destroyed := _destroyed q; paused := paused q; rate := rate q;
     connection := connection q; clientID := clientID q; guildID := guildID q;
     posted := posted q; building := building q; settled := settled q;
     destroyedStreams := destroyedStreams q |}.
Definition set_trackPausing (v : bool) (q : Queue) : Queue :=
  {| track := track q; player := player q; current := current q;
     stopping := stopping q; _filters := _filters q; _volume := _volume q;
     applyingFilters := applyingFilters q; shouldntCallFinish := shouldntCallFinish q;
     trackPausing := v; initial := initial q; seekTime := seekTime q;
     _destroyed := _destroyed q; paused := paused q; rate := rate q;
     connection := connection q; clientID := clientID q; guildID := guildID q;
     posted := posted q; building := building q; settled := settled q;
     destroyedStreams := destroyedStreams q |}.
Definition set_initial (v : bool) (q : Queue) : Queue :=
  {| track := track q; player := player q; current := current q;
     stopping := stopping q; _filters := _filters q; _volume := _volume q;
     applyingFilters := applyingFilters q; shouldntCallFinish := shouldntCallFinish q;
     trackPausing := trackPausing q; initial := v; seekTime := seekTime q;
     _destroyed := _destroyed q; paused := paused q; rate := rate q;
     connection := connection q; clientID := clientID q; guildID := guildID q;
     posted := posted q; building := building q; settled := settled q;
     destroyedStreams := destroyedStreams q |}.
Definition set_seekTime (v : float) (q : Queue) : Queue :=
  {| track := track q; player := player q; current := current q;
     stopping := stopping q; _filters := _filters q; _volume := _volume q;
     applyingFilters := applyingFilters q; shouldntCallFinish := shouldntCallFinish q;
     trackPausing := trackPausing q; initial := initial q; seekTime := v;
     _destroyed := _destroyed q; paused := paused q; rate := rate q;
     connection := connection q; clientID := clientID q; guildID := guildID q;
     posted := posted q; building := building q; settled := settled q;
     destroyedStreams := destroyedStreams q |}.
Definition set_paused (v : bool) (q : Queue) : Queue :=
  {| track := track q; player := player q; current := current q;
     stopping := stopping q; _filters := _filters q; _volume := _volume q;
     applyingFilters := applyingFilters q; shouldntCallFinish := shouldntCallFinish q;
     trackPausing := trackPausing q; initial := initial q; seekTime := seekTime q;
     _destroyed := _destroyed q; paused := v; rate := rate q;
     connection := connection q; clientID := clientID q; guildID := guildID q;
     posted := posted q; building := building q; settled := settled q;
     destroyedStreams := destroyedStreams q |}.
Definition set_rate (v : float) (q : Queue) : Queue :=
  {| track := track q; player := player q; current := current q;
     stopping := stopping q; _filters := _filters q; _volume := _volume q;
     applyingFilters := applyingFilters q; shouldntCallFinish := shouldntCallFinish q;
     trackPausing := trackPausing q; initial := initial q; seekTime := seekTime q;
     _destroyed := _destroyed q; paused := paused q; rate := v;
     connection := connection q; clientID := clientID q; guildID := guildID q;
     posted := posted q; building := building q; settled := settled q;
     destroyedStreams := destroyedStreams q |}.
Definition set_posted (v : list Data) (q : Queue) : Queue :=
  {| track := track q; player := player q; current := current q;
     stopping := stopping q; _filters := _filters q; _volume := _volume q;
     applyingFilters := applyingFilters q; shouldntCallFinish := shouldntCallFinish q;
     trackPausing := trackPausing q; initial := initial q; seekTime := seekTime q;
     _destroyed := _destroyed q; paused := paused q; rate := rate q;
     connection := connection q; clientID := clientID q; guildID := guildID q;
     posted := v; building := building q; settled := settled q;
     destroyedStreams := destroyedStreams q |}.
Definition set_building (v : list PlayTask) (q : Queue) : Queue :=
  {| track := track q; player := player q; current := current q;
     stopping := stopping q; _filters := _filters q; _volume := _volume q;
     applyingFilters := applyingFilters q; shouldntCallFinish := shouldntCallFinish q;
     trackPausing := trackPausing q; initial := initial q; seekTime := seekTime q;
     _destroyed := _destroyed q; paused := paused q; rate := rate q;
     connection := connection q; clientID := clientID q; guildID := guildID q;
     posted := posted q; building := v; settled := settled q;
     destroyedStreams := destroyedStreams q |}.
Definition set_settled (v : list (Track.t * option AudioResource)) (q : Queue) : Queue :=
  {| track := track q; player := player q; current := current q;
     stopping := stopping q; _filters := _filters q; _volume := _volume q;
     applyingFilters := applyingFilters q; shouldntCallFinish := shouldntCallFinish q;
     trackPausing := trackPausing q; initial := initial q; seekTime := seekTime q;
     _destroyed := _destroyed q; paused := paused q; rate := rate q;
     connection := connection q; clientID := clientID q; guildID := guildID q;
     posted := posted q; building := building q; settled := v;
     destroyedStreams := destroyedStreams q |}.
Definition set_destroyedStreams (v : list AudioResource) (q : Queue) : Queue :=
  {| track := track q; player := player q; current := current q;
     stopping := stopping q; _filters := _filters q; _volume := _volume q;
     applyingFilters := applyingFilters q; shouldntCallFinish := shouldntCallFinish q;
     trackPausing := trackPausing q; initial := initial q; seekTime := seekTime q;
     _destroyed := _destroyed q; paused := paused q; rate := rate q;
     connection := connection q; clientID := clientID q; guildID := guildID q;
     posted := posted q; building := building q; settled := settled q;
     destroyedStreams := v |}.

(** [new Queue(clientID, guildID)].  The player is created idle; the
    voice connection, opened by [Discord.joinVoiceChannel] just before,
    is signalling. *)
Definition new_Queue (clientID guildID : string) : Queue :=
  {| track := None; player := Idle; current := None; stopping := false;
     _filters := []; _volume := 1; applyingFilters := false;
     shouldntCallFinish := false; trackPausing := false; initial := true;
     seekTime := 0; _destroyed := false; paused := false; rate := 1;
     connection := Signalling; clientID := clientID; guildID := guildID;
     posted := []; building := []; settled := []; destroyedStreams := [] |}.

(** [parentPort.postMessage({ op: MESSAGE, data, clientID })]. *)
Definition post (d : Data) (q : Queue) : Queue :=
  set_posted (posted q ++ [d]) q.

(** The promise of a [play()] call settles with [r]. *)
Definition settle (meta : Track.t) (r : option AudioResource) (q : Queue)
  : Queue :=
  set_settled (settled q ++ [(meta, r)]) q.

Definition add_building (t : PlayTask) (q : Queue) : Queue :=
  set_building (building q ++ [t]) q.

(** *** The audio player

    [@discordjs/voice] is not part of the repository.  Its player is
    represented by its status; assigning a new state emits
    [stateChange] synchronously, which runs the listener below. *)

(** [this.player.pause(true)]: only a playing player pauses; the result
    tells whether it did.  The listener ignores a change to [Paused]. *)
Definition player_pause (q : Queue) : bool * Queue :=
  if status_eqb (player q) Playing then (true, set_player Paused q)
  else (false, q).

Definition pause (q : Queue) : Queue :=
  let '(r, q1) := player_pause q in set_paused r q1.

(** The [stateChange] listener the constructor installs on the player. *)
Definition on_player_stateChange (oldState newState : AudioPlayerStatus)
    (q : Queue) : Queue :=
  if status_eqb newState Idle && negb (status_eqb oldState Idle) then
    let q1 := set_track None (set_current None q) in
    let q2 :=
      if negb (stopping q1) && negb (shouldntCallFinish q1)
      then post (TrackEndEvent (guildID q1) FINISHED) q1 else q1 in
    set_shouldntCallFinish false (set_stopping false q2)
  else if status_eqb newState Playing then
    let q1 := if trackPausing q then pause q else q in
    let q2 := set_trackPausing false q1 in
    let q3 :=
      match track q2 with
      | Some t =>
          if negb (shouldntCallFinish q2) || initial q2
          then post (TrackStartEvent (guildID q2) (Track.track t)) q2 else q2
      | None => q2
      end in
    set_initial false q3
  else q.

(** The player takes the status [s] (on its own, or through one of the
    calls below) and tells its listener. *)
Definition player_enters (s : AudioPlayerStatus) (q : Queue) : Queue :=
  on_player_stateChange (player q) s (set_player s q).

(** [this.player.stop(true)]: an idle player is left alone, any other
    becomes idle at once. *)
Definition player_stop (q : Queue) : Queue :=
  if status_eqb (player q) Idle then q else player_enters Idle q.

(** [this.player.unpause()]: only a paused player resumes. *)
Definition player_unpause (q : Queue) : bool * Queue :=
  if status_eqb (player q) Paused then (true, player_enters Playing q)
  else (false, q).

(** [this.player.play(resource)]: a resource that has not started puts
    the player in [Buffering], a status the listener ignores. *)
Definition player_play (q : Queue) : Queue := set_player Buffering q.

(** *** Methods of [Queue] *)

Definition resume (q : Queue) : Queue :=
  let '(r, q1) := player_unpause q in set_paused (negb r) q1.

Definition stop (shouldntPost : bool) (q : Queue) : Queue :=
  let q1 := player_stop (set_stopping true q) in
  if shouldntPost then q1 else post (TrackEndEvent (guildID q1) STOPPED) q1.

(** [Math.floor(((this.current?.playbackDuration || 0) + this.seekTime)
    * this.rate)]. *)
Definition position_of (q : Queue) : float :=
  JS.floor
    ((match current q with
      | Some r => JS.or_num (playbackDuration r) 0
      | None => 0
      end + seekTime q) * rate q).

(** The [state] getter, run for its position: [this.state.position]. *)
Definition state_position (q : Queue) : float * Queue :=
  let position := position_of q in
  (position,
   match track q with
   | Some t =>
       if JS.truthy (Track.end_ t) && JS.geb position (Track.end_ t)
       then stop true q else q
   | None => q
   end).

Definition connection_eqb (a b : VoiceConnectionStatus) : bool :=
  match a, b with
  | Signalling, Signalling | Connecting, Connecting | Ready, Ready
  | Disconnected, Disconnected | Destroyed, Destroyed => true
  | _, _ => false
  end.

(** The [state] getter; [now] is [Date.now()]. *)
Definition state (now : Z) (q : Queue) : State * Queue :=
  let '(position, q1) := state_position q in
  ({| time := now; position := position;
      connected := connection_eqb (connection q1) Ready |}, q1).

Definition volume (amount : float) (q : Queue) : Queue :=
  let q1 := set_volume amount q in
  match current q1 with
  | Some r =>
      set_current
        (Some {| ffmpegArgs := ffmpegArgs r;
                 playbackDuration := playbackDuration r;
                 resourceVolume := amount; metadata := metadata r |}) q1
  | None => q1
  end.

Definition is_nil {A} (l : list A) : bool :=
  match l with [] => true | _ => false end.

Definition ffmpeg_base : list Arg :=
  List.map Some
    ["-i"; "-"; "-analyzeduration"; "0"; "-loglevel"; "0"; "-f"; "s16le";
     "-acodec"; "libopus"; "-f"; "opus"; "-ar"; "48000"; "-ac"; "2"].

Section WithEnv.
Variable E : Env.

(** [`-ss`, `${x}ms`, `-accurate_seek`]. *)
Definition ss_tokens (x : float) : list Arg :=
  [Some "-ss"; Some (toString E x ++ "ms")%string; Some "-accurate_seek"].

(** The closure [demux] of [play()], called once the source stream
    exists.  With filters or a start offset it builds the transcoder
    and resolves at once; otherwise it waits for [demuxProbe].
    [includes(x)] is [indexOf(x) !== -1], hence the [match]. *)
Definition demux (meta : Track.t) (decoded : TrackInfo.t) (q : Queue)
  : Queue :=
  if negb (is_nil (_filters q)) || JS.truthy (Track.start meta) then
    let q0 := set_shouldntCallFinish true q in
    let '(p1, q1) := state_position q0 in
    let '(toApply, q2) :=
      match indexOf (Some "-ss") (_filters q1) with
      | None =>
          if JS.truthy p1 then
            let '(p2, q2) := state_position q1 in
            let '(p3, q3) := state_position q2 in
            (ss_tokens (p2 + 2000) ++ ffmpeg_base,
             set_seekTime (p3 + 2000) q3)
          else if JS.truthy (Track.start meta) then
            (ss_tokens (Track.start meta) ++ ffmpeg_base,
             set_seekTime (Track.start meta) q1)
          else (ffmpeg_base, q1)
      | Some index =>
          (JS.slice index (index + 2) (_filters q1) ++ ffmpeg_base,
           set_filters (JS.splice index 3 (_filters q1)) q1)
      end in
    let toApply' :=
      if is_nil (_filters q2) then toApply else toApply ++ [Some "-af"] in
    let argus := toApply' ++ _filters q2 in
    settle meta
      (Some {| ffmpegArgs := Some argus; playbackDuration := 0;
               resourceVolume := 1; metadata := decoded |})
      (set_applyingFilters false q2)
  else add_building (AwaitProbe meta decoded) q.

(** [play()] up to its first suspension.  A disabled source rejects
    the promise, which [.catch(logEr)] turns into an undefined
    resource; a local file is opened and demuxed in the same go; the
    other sources wait for their stream. *)
Definition play (q : Queue) : Queue :=
  match track q with
  | None => q
  | Some meta =>
      let decoded := decode E (Track.track meta) in
      if negb (JS.opt_str_truthy (TrackInfo.uri decoded)) then q
      else if String.eqb (TrackInfo.source decoded) "youtube" then
        if negb (youtube (sources E)) then settle meta None q
        else add_building (AwaitStream meta decoded) q
      else if String.eqb (TrackInfo.source decoded) "soundcloud" then
        if negb (soundcloud (sources E)) then settle meta None q
        else add_building (AwaitStream meta decoded) q
      else if String.eqb (TrackInfo.source decoded) "local" then
        if negb (local (sources E)) then settle meta None q
        else demux meta decoded q
      else
        if negb (http (sources E)) then settle meta None q
        else add_building (AwaitStream meta decoded) q
  end.

(** [play()] after [await new Promise(...)], up to the wait for the
    player to start playing. *)
Definition play_resume (meta : Track.t) (resource : option AudioResource)
    (q : Queue) : Queue :=
  match resource with
  | None => q
  | Some r =>
      if applyingFilters q
      then set_destroyedStreams (destroyedStreams q ++ [r]) q
      else
        let q1 := set_current (Some r) q in
        let q2 := if Track.pause meta then set_trackPausing true q1 else q1 in
        let q3 := player_play q2 in
        if JS.truthy (Track.volume meta)
           && negb (Track.volume meta =? 100)%float
        then volume (Track.volume meta / 100) q3
        else if negb (_volume q3 =? 1)%float then volume (_volume q3) q3
        else q3
  end.

(** The continuations queued by settled promises run, oldest first,
    when the current call has returned. *)
Definition drain (q : Queue) : Queue :=
  fold_left (fun a mr => play_resume (fst mr) (snd mr) a)
    (settled q) (set_settled [] q).

Definition nextSong (q : Queue) : Queue :=
  let q1 := set_initial true (set_seekTime 0 q) in
  match track q1 with
  | None => q1
  | Some _ => play q1
  end.

Definition replace (q : Queue) : Queue :=
  let q1 :=
    if status_eqb (player q) Playing
    then post (TrackEndEvent (guildID q) REPLACED) (stop true q)
    else q in
  nextSong q1.

Definition queue (t : Track.t) (q : Queue) : Queue :=
  replace (set_track (Some t) q).

Definition seek (amount : float) (q : Queue) : Queue :=
  let q1 :=
    match indexOf (Some "-ss") (_filters q) with
    | Some previousIndex =>
        set_filters (JS.splice previousIndex 2 (_filters q)) q
    | None => q
    end in
  let q2 :=
    set_filters (_filters q1 ++ ss_tokens (JS.or_num amount 0)) q1 in
  let q3 := if applyingFilters q2 then q2 else play q2 in
  set_seekTime amount (set_applyingFilters true q3).

Definition ffmpeg (args : list string) (q : Queue) : Queue :=
  let q1 := set_filters (List.map Some args) (set_filters [] q) in
  let q2 := if applyingFilters q1 then q1 else play q1 in
  set_applyingFilters true q2.

(** **** [filters] *)

(** [Array(15).map((_, index) => ({ band: index, gain: 0.2 }))]. *)
Definition bandSettings0 : list (option FilterSpec.Band) :=
  JS.map
    (fun (_ : unit) index =>
       {| FilterSpec.band := JS.of_Z (Z.of_nat index);
          FilterSpec.gain := 0.2 |})
    (JS.Array_ unit 15).

(** The loop [for (const eq of filters.equalizer)]. *)
Fixpoint apply_equalizer (equalizer : list FilterSpec.Band)
    (bandSettings : list (option FilterSpec.Band))
  : JS.Throws (list (option FilterSpec.Band)) :=
  match equalizer with
  | [] => JS.Ok bandSettings
  | eq :: rest =>
      match
        JS.find
          (fun i => (FilterSpec.band i =? FilterSpec.band eq)%float)
          bandSettings
      with
      | JS.Throw e => JS.Throw e
      | JS.Ok (Some cur) =>
          apply_equalizer rest
            (JS.update_at
               (fun c => {| FilterSpec.band := FilterSpec.band c;
                            FilterSpec.gain := FilterSpec.gain eq |})
               cur bandSettings)
      | JS.Ok None => apply_equalizer rest bandSettings
      end
  end.

Definition equalizer_expr (i : FilterSpec.Band) : string :=
  ("equalizer=width_type=h:gain="
   ++ toString E (JS.round (log2 E (FilterSpec.gain i) * 12)))%string.

(** What the equalizer branch pushes on [toApply]: nothing when the
    option is absent, not an array, or empty. *)
Definition equalizer_args (spec : FilterSpec.t) : JS.Throws (list Arg) :=
  match FilterSpec.equalizer spec with
  | None | Some [] => JS.Ok []
  | Some equalizer =>
      match apply_equalizer equalizer bandSettings0 with
      | JS.Throw e => JS.Throw e
      | JS.Ok bandSettings =>
          JS.Ok
            [Some (JS.join ","
                     (JS.map (fun i (_ : nat) => equalizer_expr i)
                        bandSettings))]
      end
  end.

Definition timescale_expr (ts : FilterSpec.Timescale) : string :=
  let rate := JS.opt_or (FilterSpec.rate ts) 1 in
  let pitch := JS.opt_or (FilterSpec.pitch ts) 1 in
  let speed := JS.opt_or (FilterSpec.speed ts) 1 in
  let speeddif := (1 - pitch)%float in
  let finalspeed := (speed + speeddif)%float in
  let ratedif := (1 - rate)%float in
  ("aresample=48000,asetrate=48000*" ++ toString E (pitch + ratedif)
   ++ ",atempo=" ++ toString E finalspeed ++ ",aresample=48000")%string.

Definition wave_expr (name : string) (w : FilterSpec.Wave) : string :=
  (name ++ "=f=" ++ toString E (JS.opt_or (FilterSpec.frequency w) 2)
   ++ ":d=" ++ toString E (JS.opt_or (FilterSpec.depth w) 0.5))%string.

Definition opt_arg {A} (o : option A) (f : A -> string) : list Arg :=
  match o with Some a => [Some (f a)] | None => [] end.

(** How a method call ends: it returns, or it throws and leaves the
    queue as it was at the throw. *)
Inductive Completion :=
| Returned (q : Queue)
| Threw (q : Queue) (e : string).

Definition filters (spec : FilterSpec.t) (q : Queue) : Completion :=
  let toApply0 : list Arg :=
    match indexOf (Some "-ss") (_filters q) with
    | Some i => [Some "-ss"; JS.at_ (_filters q) (i + 2)]
    | None => []
    end in
  let q1 := set_filters [] q in
  let toApply1 :=
    toApply0
    ++ match FilterSpec.volume spec with
       | Some v =>
           if JS.truthy v then [Some ("volume=" ++ toString E v)%string]
           else []
       | None => []
       end in
  match equalizer_args spec with
  | JS.Throw e => Threw q1 e
  | JS.Ok eq =>
      let toApply2 := toApply1 ++ eq in
      let q2 :=
        match FilterSpec.timescale spec with
        | Some ts => set_rate (JS.opt_or (FilterSpec.speed ts) 1) q1
        | None => q1
        end in
      let toApply3 :=
        toApply2
        ++ opt_arg (FilterSpec.timescale spec) timescale_expr
        ++ opt_arg (FilterSpec.tremolo spec) (wave_expr "tremolo")
        ++ opt_arg (FilterSpec.vibrato spec) (wave_expr "vibrato")
        ++ opt_arg (FilterSpec.rotation spec)
             (fun r =>
                "apulsator=hz="
                ++ toString E (JS.opt_or (FilterSpec.rotationHz r) 0))%string
        ++ opt_arg (FilterSpec.lowPass spec)
             (fun l =>
                "lowpass=f="
                ++ toString E (500 / FilterSpec.smoothing l))%string in
      let q3 := set_filters (_filters q2 ++ toApply3) q2 in
      let q4 := if applyingFilters q3 then q3 else play q3 in
      Returned (set_applyingFilters true q4)
  end.

(** **** Resumption of suspended [play()] calls *)

(** The source stream of the [i]-th suspended call arrives: [demux]
    runs, then the continuations it made ready. *)
Definition stream_ready (i : nat) (q : Queue) : Queue :=
  match nth_error (building q) i with
  | Some (AwaitStream meta decoded) =>
      drain (demux meta decoded (set_building (JS.splice i 1 (building q)) q))
  | _ => q
  end.

(** The source stream of the [i]-th suspended call fails.  Only the
    youtube branch fetches inside its [try]: there the promise is
    rejected and [play()] ends.  Elsewhere the promise never settles
    and the call stays suspended. *)
Definition stream_failed (i : nat) (q : Queue) : Queue :=
  match nth_error (building q) i with
  | Some (AwaitStream meta decoded) =>
      if String.eqb (TrackInfo.source decoded) "youtube"
      then drain (settle meta None
                    (set_building (JS.splice i 1 (building q)) q))
      else q
  | _ => q
  end.

(** [demuxProbe] answers for the [i]-th suspended call: the resource
    is created without a transcoder and the promise resolves.  (A
    failing probe is logged and the promise never settles.) *)
Definition probe_done (i : nat) (q : Queue) : Queue :=
  match nth_error (building q) i with
  | Some (AwaitProbe meta decoded) =>
      drain
        (settle meta
           (Some {| ffmpegArgs := None; playbackDuration := 0;
                    resourceVolume := 1; metadata := decoded |})
           (set_building (JS.splice i 1 (building q)) q))
  | _ => q
  end.

(** **** Re-arming commands and the turns of the event loop *)

(** The queue a call leaves behind, however it ended. *)
Definition completion_queue (c : Completion) : Queue :=
  match c with Returned q | Threw q _ => q end.

(** A command that re-arms the pipeline. *)
Inductive Rearm :=
| Seek (amount : float)
| Filters (spec : FilterSpec.t)
| Ffmpeg (args : list string).

Definition rearm (r : Rearm) (q : Queue) : Queue :=
  match r with
  | Seek amount => seek amount q
  | Filters spec => completion_queue (filters spec q)
  | Ffmpeg args => ffmpeg args q
  end.

(** What can happen to a queue during a cascade of re-arms: a
    re-arming command is handled; a suspended [play()] call gets its
    stream, loses it, or gets the answer of the probe; the player
    changes status; the heartbeat reads the state. *)
Inductive Turn :=
| Handle (r : Rearm)
| StreamReady (i : nat)
| StreamFailed (i : nat)
| ProbeDone (i : nat)
| PlayerEnters (s : AudioPlayerStatus)
| Heartbeat (now : Z).

Definition turn (t : Turn) (q : Queue) : Queue :=
  match t with
  | Handle r => drain (rearm r q)
  | StreamReady i => stream_ready i q
  | StreamFailed i => stream_failed i q
  | ProbeDone i => probe_done i q
  | PlayerEnters s => player_enters s q
  | Heartbeat now => snd (state now q)
  end.

Definition run (ts : list Turn) (q : Queue) : Queue :=
  fold_left (fun a t => turn t a) ts q.

End WithEnv.

(** *** The worker thread *)

(** A command of the MESSAGE op; [payload.op] selects the case and the
    arguments are the fields of [packet.data] the handler reads.
    DESTROY is a packet of [Thread]. *)
Inductive Command :=
| PLAY (track : string) (startTime endTime volume : option float)
       (pause noReplace : bool)
| PAUSE (pause : bool)
| STOP
| FILTERS (spec : FilterSpec.t)
| SEEK (position : float)
| FFMPEG (args : list string)
| VOLUME (volume : float).

(** A packet of op MESSAGE as the pool delivers it. *)
Module Packet.
Record t := {
  guildId : string;
  clientID : string;
  command : Command;
  broadcasted : bool;
  threadID : nat
}.
End Packet.

(** What the worker posts to its parent. *)
Inductive Out :=
| MESSAGE (data : Data) (clientID : string)
| REPLY (data : bool) (threadID : nat)
| VOICE_SERVER (clientID guildId : string).

(** The thread: its [queues] and what it has posted so far. *)
Record t := {
  queues : JS.Map Queue;
  outbox : list Out
}.

Definition key_of (userID guildID : string) : string :=
  (userID ++ "." ++ guildID)%string.

Definition postMessage (o : Out) (w : t) : t :=
  {| queues := queues w; outbox := outbox w ++ [o] |}.

(** The queue stored under [key] takes the state [q]; what it posted
    during the call goes to the parent. *)
Definition commit (key : string) (q : Queue) (w : t) : t :=
  {| queues := JS.set key (set_posted [] q) (queues w);
     outbox :=
       outbox w ++ List.map (fun d => MESSAGE d (clientID q)) (posted q) |}.

Section WithEnv.
Variable E : Env.

(** The object the PLAY handler hands to [Queue.queue]. *)
Definition track_of (track : string) (startTime endTime volume : option float)
    (pause : bool) : Track.t :=
  {| Track.track := track;
     Track.start := JS.opt_or startTime 0;
     Track.end_ := JS.opt_or endTime 0;
     Track.volume := JS.opt_or volume 100;
     Track.pause := pause |}.

(** [queues.get(key)?.method(...)], then the continuations the call
    made ready. *)
Definition call (key : string) (method : Queue -> Queue) (w : t) : t :=
  match JS.get key (queues w) with
  | Some q => commit key (drain (method q)) w
  | None => w
  end.

(** The [message] listener of [parentPort] for a packet of op
    MESSAGE. *)
Definition on_message (packet : Packet.t) (w : t) : t :=
  let guildID := Packet.guildId packet in
  let userID := Packet.clientID packet in
  let key := key_of userID guildID in
  match Packet.command packet with
  | PLAY track startTime endTime volume pause noReplace =>
      let t := track_of track startTime endTime volume pause in
      match JS.get key (queues w) with
      | None =>
          if Packet.broadcasted packet
          then postMessage (REPLY false (Packet.threadID packet)) w
          else
            let q := new_Queue userID guildID in
            let w1 :=
              postMessage (VOICE_SERVER userID guildID)
                {| queues := JS.set key q (queues w);
                   outbox := outbox w |} in
            commit key (drain (queue E t q)) w1
      | Some q =>
          let w1 :=
            if Packet.broadcasted packet
            then postMessage (REPLY true (Packet.threadID packet)) w
            else w in
          if noReplace && status_eqb (player q) Playing then w1
          else commit key (drain (queue E t q)) w1
      end
  | PAUSE p => call key (fun q => if p then pause q else resume q) w
  | STOP => call key (stop false) w
  | FILTERS spec =>
      match JS.get key (queues w) with
      | Some q =>
          match filters E spec q with
          | Returned q1 => commit key (drain q1) w
          | Threw q1 _ => commit key (drain q1) w
          end
      | None => w
      end
  | SEEK position => call key (seek E position) w
  | FFMPEG args => call key (ffmpeg E args) w
  | VOLUME v => call key (Worker.volume (v / 100)) w
  end.

End WithEnv.

(** The body of [reportInterval] over the entries of [queues], in
    order; [now] is [Date.now()]. *)
Fixpoint report_each (now : Z) (m : JS.Map Queue) : JS.Map Queue * list Out :=
  match m with
  | [] => ([], [])
  | (k, queue) :: rest =>
      let '(state, q1) := Worker.state now queue in
      let update :=
        if paused q1 then []
        else [MESSAGE (PLAYER_UPDATE (guildID q1) state) (clientID q1)] in
      let '(rest', outs) := report_each now rest in
      ((k, set_posted [] q1) :: rest',
       List.map (fun d => MESSAGE d (clientID q1)) (posted q1)
       ++ update ++ outs)
  end.

(** One firing of the five-second timer. *)
Definition reportInterval (now : Z) (w : t) : t :=
  if Nat.eqb (JS.size (queues w)) 0 then w
  else
    let '(m, outs) := report_each now (queues w) in
    {| queues := m; outbox := outbox w ++ outs |}.

End Worker.

(** ** The thread pool *)

Module Pool.

(** Modelled from the spec: [util/ThreadPool] is not among the sources.
    The pool owns its workers, here a list in index order. *)
Definition t : Type := list Worker.t.

(** Modelled from the spec: the load of a worker is the number of its
    live queues. *)
Definition load (w : Worker.t) : nat := JS.size (Worker.queues w).

(** Modelled from the spec: the index of the worker with the fewest
    live queues, the lowest index winning ties.  [i] is the index of
    the head of [ws], [best] the choice so far. *)
Fixpoint least_loaded_from (i : nat) (best : nat * nat) (ws : list Worker.t)
  : nat :=
  match ws with
  | [] => fst best
  | w :: r =>
      least_loaded_from (S i)
        (if Nat.ltb (load w) (snd best) then (i, load w) else best) r
  end.

(** Modelled from the spec: the worker [execute] chooses; there is none
    in an empty pool. *)
Definition least_loaded (p : t) : option nat :=
  match p with
  | [] => None
  | w :: r => Some (least_loaded_from 1 (O, load w) r)
  end.

(** Modelled from the spec: replies are correlated by the cookie.  The
    reply of a worker is the one it posted with the cookie [threadID]
    while it went from [w] to [w']. *)
Definition reply_of (threadID : nat) (w w' : Worker.t) : option bool :=
  match
    List.find
      (fun o =>
         match o with
         | Worker.REPLY _ id => Nat.eqb id threadID
         | _ => false
         end)
      (skipn (length (Worker.outbox w)) (Worker.outbox w'))
  with
  | Some (Worker.REPLY b _) => Some b
  | _ => None
  end.

Section WithEnv.
Variable E : Env.

(** Modelled from the spec: the packet a worker receives for the
    command [c] of the client [clientID] in the room [guildId]. *)
Definition packet (guildId clientID : string) (c : Worker.Command)
    (broadcasted : bool) (threadID : nat) : Worker.Packet.t :=
  {| Worker.Packet.guildId := guildId;
     Worker.Packet.clientID := clientID;
     Worker.Packet.command := c;
     Worker.Packet.broadcasted := broadcasted;
     Worker.Packet.threadID := threadID |}.

(** Modelled from the spec: [broadcast(msg)] sends the message,
    marked as broadcast and carrying the cookie [threadID], to every
    worker and collects the replies. *)
Definition broadcast (guildId clientID : string) (c : Worker.Command)
    (threadID : nat) (p : t) : t * list (option bool) :=
  let p' :=
    List.map
      (Worker.on_message E (packet guildId clientID c true threadID)) p in
  (p', List.map (fun ww => reply_of threadID (fst ww) (snd ww))
         (combine p p')).

(** Modelled from the spec: [execute(msg)] places the message,
    not marked as broadcast, on the least loaded worker. *)
Definition execute (guildId clientID : string) (c : Worker.Command)
    (threadID : nat) (p : t) : t :=
  match least_loaded p with
  | None => p
  | Some i =>
      firstn i p
      ++ match nth_error p i with
         | Some w =>
             [Worker.on_message E
                (packet guildId clientID c false threadID) w]
         | None => []
         end
      ++ skipn (S i) p
  end.

End WithEnv.

End Pool.

(** ** The client gateway *)

Module Gateway.

(** A WebSocket and a timer are known by their identity. *)
Definition Socket : Type := nat.
Definition Timer : Type := nat.

Record Connection := {
  socket : Socket;
  resumeKey : option string;
  resumeTimeout : float
}.

(** An entry of [socketDeleteTimeouts]. *)
Record ResumeBuffer := {
  timeout : Timer;
  events : list Worker.Data
}.

Record t := {
  connections : JS.Map (list Connection);
  socketDeleteTimeouts : gmap string ResumeBuffer;
  playerMap : gmap string Socket;
  (* bookkeeping of the embedding *)
  wire : list (Socket * Worker.Data);
    (* the calls [socket.send(JSON.stringify(data))], oldest first *)
  timers : list Timer;
    (* the timers set by [setTimeout] and not cleared *)
  closed : list Socket
    (* the sockets that are closing or closed *)
}.

Definition set_connections (v : JS.Map (list Connection)) (g : t) : t :=
  {| connections := v; socketDeleteTimeouts := socketDeleteTimeouts g;
     playerMap := playerMap g; wire := wire g; timers := timers g;
     closed := closed g |}.
Definition set_socketDeleteTimeouts (v : gmap string ResumeBuffer) (g : t)
  : t :=
  {| connections := connections g; socketDeleteTimeouts := v;
     playerMap := playerMap g; wire := wire g; timers := timers g;
     closed := closed g |}.
Definition set_playerMap (v : gmap string Socket) (g : t) : t :=
  {| connections := connections g;
     socketDeleteTimeouts := socketDeleteTimeouts g;
     playerMap := v; wire := wire g; timers := timers g;
     closed := closed g |}.
Definition set_wire (v : list (Socket * Worker.Data)) (g : t) : t :=
  {| connections := connections g;
     socketDeleteTimeouts := socketDeleteTimeouts g;
     playerMap := playerMap g; wire := v; timers := timers g;
     closed := closed g |}.
Definition set_timers (v : list Timer) (g : t) : t :=
  {| connections := connections g;
     socketDeleteTimeouts := socketDeleteTimeouts g;
     playerMap := playerMap g; wire := wire g; timers := v;
     closed := closed g |}.

Definition set_closed (v : list Socket) (g : t) : t :=
  {| connections := connections g;
     socketDeleteTimeouts := socketDeleteTimeouts g;
     playerMap := playerMap g; wire := wire g; timers := timers g;
     closed := v |}.

(** [socket.send(JSON.stringify(data))]: the call is recorded whatever
    the state of the socket ([ws] drops what is sent on a socket that is
    not open). *)
Definition send (s : Socket) (data : Worker.Data) (g : t) : t :=
  set_wire (wire g ++ [(s, data)]) g.

(** What was sent on [s], oldest first. *)
Definition sent_on (s : Socket) (g : t) : list Worker.Data :=
  List.map snd (List.filter (fun f => Nat.eqb (fst f) s) (wire g)).

Definition setTimeout (tm : Timer) (g : t) : t :=
  set_timers (timers g ++ [tm]) g.

Definition clearTimeout (tm : Timer) (g : t) : t :=
  set_timers (List.filter (fun x => negb (Nat.eqb x tm)) (timers g)) g.

(** [c.socket === socket], where [socket] may be undefined. *)
Definition socket_is (socket : option Socket) (c : Connection) : bool :=
  match socket with
  | Some s => Nat.eqb (Gateway.socket c) s
  | None => false
  end.

(** A WebSocket is an object, hence truthy. *)
Definition socket_truthy (s : Socket) : bool := true.

(** The [message] listener of the pool: an event of a worker leaves
    for its client. *)
Definition on_pool_message (clientID : string) (data : Worker.Data) (g : t)
  : t :=
  let socket :=
    playerMap g !! Worker.key_of clientID (Worker.guildId_of data) in
  let entry :=
    List.find (fun i => existsb (socket_is socket) i)
      (JS.values (connections g)) in
  let rKey :=
    match entry with
    | Some e => List.find (fun c => socket_truthy (Gateway.socket c)) e
    | None => None
    end in
  let g1 :=
    match rKey with
    | Some c =>
        match resumeKey c with
        | Some k =>
            if JS.str_truthy k then
              match socketDeleteTimeouts g !! k with
              | Some b =>
                  set_socketDeleteTimeouts
                    (<[k := {| timeout := timeout b;
                               events := events b ++ [data] |}]>
                       (socketDeleteTimeouts g)) g
              | None => g
              end
            else g
        | None => g
        end
    | None => g
    end in
  match socket with
  | Some s => send s data g1
  | None => g1
  end.

(** The headers of an upgrade request that the handlers read. *)
Record Request := {
  authorization : option string;
  user_id : option string;
  resume_key : option string
}.

Definition is_digit (c : ascii) : bool :=
  (Nat.leb 48 (nat_of_ascii c) && Nat.leb (nat_of_ascii c) 57)%bool.

Fixpoint all_digits (s : string) : bool :=
  match s with
  | EmptyString => true
  | String c r => is_digit c && all_digits r
  end.

(** [/^\d+$/.test(s)]. *)
Definition is_numeric (s : string) : bool := JS.str_truthy s && all_digits s.

(** [!!request.headers["resume-key"] &&
    socketDeleteTimeouts.has(request.headers["resume-key"])]. *)
Definition resumable (request : Request) (g : t) : bool :=
  match resume_key request with
  | Some k =>
      JS.str_truthy k
      && match socketDeleteTimeouts g !! k with
         | Some _ => true
         | None => false
         end
  | None => false
  end.

(** The [headers] listener of the WebSocket server: what it pushes on
    the headers of the upgrade response. *)
Definition on_headers (request : Request) (g : t) : list string :=
  [("Session-Resumed: " ++ (if resumable request g then "true" else "false"))
     %string;
   "Lavalink-Major-Version: 3"; "Is-Volcano: true"].

Definition fresh_connection (s : Socket) : Connection :=
  {| socket := s; resumeKey := None; resumeTimeout := 60 |}.

Definition key_is (key : string) (c : Connection) : bool :=
  match resumeKey c with
  | Some k => String.eqb k key
  | None => false
  end.

(** [pre.socket = s] for the first connection bound to [key], or a
    fresh connection pushed when there is none. *)
Fixpoint rebind (key : string) (s : Socket) (exist_ : list Connection)
  : list Connection :=
  match exist_ with
  | [] => [fresh_connection s]
  | c :: r =>
      if key_is key c
      then {| socket := s; resumeKey := resumeKey c;
              resumeTimeout := resumeTimeout c |} :: r
      else c :: rebind key s r
  end.

(** The callback of [ws.handleUpgrade] with the new socket [s].  (It
    ends by emitting [connection]; that listener, which sends the first
    stats frame once the pool has answered, is not modelled.) *)
Definition on_upgraded (userID : string) (request : Request) (s : Socket)
    (g : t) : t :=
  let plain :=
    set_connections
      (match JS.get userID (connections g) with
       | Some existing =>
           JS.set userID (existing ++ [fresh_connection s]) (connections g)
       | None => JS.set userID [fresh_connection s] (connections g)
       end) g in
  match resume_key request with
  | Some key =>
      if JS.str_truthy key then
        match socketDeleteTimeouts g !! key with
        | Some resume =>
            let g1 := clearTimeout (timeout resume) g in
            let g2 :=
              set_socketDeleteTimeouts
                (delete key (socketDeleteTimeouts g1)) g1 in
            let g3 :=
              set_connections
                (match JS.get userID (connections g2) with
                 | Some exist_ =>
                     JS.set userID (rebind key s exist_) (connections g2)
                 | None =>
                     JS.set userID [fresh_connection s] (connections g2)
                 end) g2 in
            fold_left (fun a event => send s event a) (events resume) g3
        | None => plain
        end
      else plain
  | None => plain
  end.

(** What the client gets back for its upgrade request. *)
Inductive Response :=
| Unauthorized                         (* [HTTP/1.1 401 Unauthorized] *)
| Upgraded (headers : list string).    (* the headers pushed on the 101 *)

(** The [upgrade] listener of the HTTP server.  [password] is
    [String(config.lavalink.server.password)] when one is configured;
    [s] is the socket [ws] creates.  [ws] emits [headers] while it
    completes the handshake, before it calls the callback. *)
Definition on_upgrade (password : option string) (request : Request)
    (s : Socket) (g : t) : t * Response :=
  let passwordIncorrect :=
    match password with
    | Some p =>
        match authorization request with
        | Some a => negb (String.eqb a p)
        | None => true
        end
    | None => false
    end in
  match user_id request with
  | Some userID =>
      if passwordIncorrect || negb (is_numeric userID) then (g, Unauthorized)
      else
        let headers := on_headers request g in
        (on_upgraded userID request s g, Upgraded headers)
  | None => (g, Unauthorized)
  end.

(** [onClientMessage], case CONFIGURE_RESUMING.  (Without an entry for
    the user the handler throws and nothing changes.) *)
Fixpoint configure (socket : Socket) (key : string) (tmo : float)
    (entry : list Connection) : list Connection :=
  match entry with
  | [] => []
  | c :: r =>
      if Nat.eqb (Gateway.socket c) socket
      then {| socket := Gateway.socket c; resumeKey := Some key;
              resumeTimeout := tmo |} :: r
      else c :: configure socket key tmo r
  end.

Definition on_configureResuming (socket : Socket) (userID : string)
    (key : option string) (tmo : option float) (g : t) : t :=
  if negb (JS.opt_str_truthy key) then g
  else
    match key, JS.get userID (connections g) with
    | Some k, Some entry =>
        set_connections
          (JS.set userID (configure socket k (JS.opt_or tmo 60) entry)
             (connections g)) g
    | _, _ => g
    end.

(** [onClientClose], as far as the gateway's own tables go: the socket
    is closed if it was not, then the connection is given its resume
    window or removed.  [tm] is the timer [setTimeout] returns.  (Without
    an entry for the user the handler throws after closing the socket.
    The DELETE_ALL broadcast of the branch without a resume key, the
    expiry of the timer and the clean-up of [voiceServerStates] are not
    modelled.) *)
Definition on_client_close (socket : Socket) (userID : string) (tm : Timer)
    (g : t) : t :=
  let g0 := set_closed (socket :: closed g) g in
  match JS.get userID (connections g0) with
  | None => g0
  | Some entry =>
      match List.find (fun i => Nat.eqb (Gateway.socket i) socket) entry with
      | None => g0
      | Some found =>
          if JS.opt_str_truthy (resumeKey found) then
            match resumeKey found with
            | Some k =>
                set_socketDeleteTimeouts
                  (<[k := {| timeout := tm; events := [] |}]>
                     (socketDeleteTimeouts g0)) (setTimeout tm g0)
            | None => g0
            end
          else
            let entry' :=
              match JS.indexOf
                      (fun a b => Nat.eqb (Gateway.socket a) (Gateway.socket b))
                      found entry with
              | Some index => JS.splice index 1 entry
              | None => entry
              end in
            set_connections
              (if Worker.is_nil entry' then JS.delete userID (connections g0)
               else JS.set userID entry' (connections g0)) g0
      end
  end.

End Gateway.

(** ** The server: gateway and pool together *)

Module Server.

Record t := {
  gateway : Gateway.t;
  pool : Pool.t
}.

(** The fields of an inbound [play] payload. *)
Record Play := {
  guildId : option string;
  track : option string;
  startTime : option float;
  endTime : option float;
  volume : option float;
  pause : bool;
  noReplace : bool
}.

Definition command_of (track : string) (msg : Play) : Worker.Command :=
  Worker.PLAY track (startTime msg) (endTime msg) (volume msg) (pause msg)
    (noReplace msg).

(** [responses.includes(true)]. *)
Definition includes_true (responses : list (option bool)) : bool :=
  existsb (fun r => match r with Some true => true | _ => false end)
    responses.

(** [onClientMessage], case PLAY, for the client [userID] on [socket];
    [threadID] is the cookie the pool gives the broadcast. *)
Definition on_play (E : Env) (socket : Gateway.Socket) (userID : string)
    (msg : Play) (threadID : nat) (sv : t) : t :=
  match guildId msg, track msg with
  | Some g, Some tr =>
      if negb (JS.str_truthy g) || negb (JS.str_truthy tr) then sv
      else
        let '(p1, responses) :=
          Pool.broadcast E g userID (command_of tr msg) threadID (pool sv) in
        let p2 :=
          if negb (includes_true responses)
          then Pool.execute E g userID (command_of tr msg) threadID p1
          else p1 in
        {| gateway :=
             Gateway.set_playerMap
               (<[Worker.key_of userID g := socket]>
                  (Gateway.playerMap (gateway sv))) (gateway sv);
           pool := p2 |}
  | _, _ => sv
  end.

End Server.

(** ** REST: [/decodetracks] *)

Module Rest.

(** The values the handler builds and serialises. *)
Inductive Value :=
| VUndefined
| VBool (b : bool)
| VString (s : string)
| VBigInt (z : Z)
| VArray (items : list Value)
| VObject (fields : list (string * Value)).

(** [JSON.stringify] throws a [TypeError] on a bigint, wherever it
    meets one. *)
Fixpoint has_bigint (v : Value) : bool :=
  match v with
  | VBigInt _ => true
  | VArray items =>
      (fix any (l : list Value) : bool :=
         match l with
         | [] => false
         | x :: r => has_bigint x || any r
         end) items
  | VObject fields =>
      (fix any (l : list (string * Value)) : bool :=
         match l with
         | [] => false
         | kv :: r => has_bigint (snd kv) || any r
         end) fields
  | _ => false
  end.

(** [JSON.stringify(v)]; the text it returns is stood for by the
    value it was made from. *)
Definition JSON_stringify (v : Value) : JS.Throws Value :=
  if has_bigint v then JS.Throw "TypeError" else JS.Ok v.

(** [o.name] on an object literal. *)
Definition field (name : string) (o : Value) : option Value :=
  match o with
  | VObject fields => JS.get name fields
  | _ => None
  end.

Definition opt_string (o : option string) : Value :=
  match o with Some x => VString x | None => VUndefined end.

Definition convertDecodedTrackToResponse (data : TrackInfo.t) : Value :=
  VObject
    [("identifier", VString (TrackInfo.identifier data));
     ("isSeekable", VBool (negb (TrackInfo.isStream data)));
     ("author", VString (TrackInfo.author data));
     ("length", VBigInt (TrackInfo.length data));
     ("isStream", VBool (TrackInfo.isStream data));
     ("position", VBigInt (TrackInfo.position data));
     ("title", VString (TrackInfo.title data));
     ("uri", opt_string (TrackInfo.uri data));
     ("sourceName", VString (TrackInfo.source data))].

(** [request.query.track]: one value or a repeated one. *)
Inductive TrackQuery :=
| One (track : string)
| Many (tracks : list string).

(** How the handler ends. *)
Inductive Answer :=
| Sent (body : Value)          (* status 200 with the serialised [data] *)
| Failed (message : string)    (* [Util.standardErrorHandler] *)
| Threw (e : string).          (* the handler throws; nothing was sent *)

(** [response.status(200).header(...).send(JSON.stringify(data))]. *)
Definition respond (data : Value) : Answer :=
  match JSON_stringify data with
  | JS.Ok body => Sent body
  | JS.Throw e => Threw e
  end.

(** The handler of [GET /decodetracks]. *)
Definition decodetracks (decode : string -> TrackInfo.t)
    (track : option TrackQuery) : Answer :=
  match track with
  | None => Failed "Invalid or no track query string provided."
  | Some (One i) =>
      if JS.str_truthy i
      then respond (convertDecodedTrackToResponse (decode i))
      else Failed "Invalid or no track query string provided."
  | Some (Many l) =>
      respond
        (VArray
           (List.map
              (fun i =>
                 VObject
                   [("track", VString i);
                    ("info", convertDecodedTrackToResponse (decode i))])
              l))
  end.

End Rest.

(** ** A concrete environment

    Used to run the model on examples.  [show] prints an integer, a
    zero, an infinity and [NaN] the way JavaScript does (an integer below
    [1e21]); any other number is printed as its mantissa and binary
    exponent, which is not what JavaScript prints, and no example prints
    one.  [decode_blob] knows two blobs; [log2] is a stand-in that no
    example evaluates. *)

Module Sample.

Definition show_Z (z : Z) : string := NilZero.string_of_int (Z.to_int z).

Definition show (x : float) : string :=
  match Prim2SF x with
  | S754_zero _ => "0"
  | S754_infinity s => if s then "-Infinity" else "Infinity"
  | S754_nan => "NaN"
  | S754_finite s m e =>
      let sign := if s then "-" else "" in
      if (0 <=? e)%Z then sign ++ show_Z (Z.shiftl (Zpos m) e)
      else if Z.eqb (Z.shiftl (Z.shiftr (Zpos m) (- e)) (- e)) (Zpos m)
      then sign ++ show_Z (Z.shiftr (Zpos m) (- e))
      else sign ++ show_Z (Zpos m) ++ "p" ++ show_Z e
  end.

Definition info (source uri : string) (length : Z) : TrackInfo.t :=
  {| TrackInfo.source := source; TrackInfo.identifier := uri;
     TrackInfo.uri := Some uri; TrackInfo.title := "title";
     TrackInfo.author := "author"; TrackInfo.length := length;
     TrackInfo.position := 0; TrackInfo.isStream := false |}.

(** The blob ["local"] is a local file, any other an HTTP stream; both
    last one second. *)
Definition decode_blob (blob : string) : TrackInfo.t :=
  if String.eqb blob "local" then info "local" "/tmp/a.ogg" 1000
  else info "http" "http://host/a.ogg" 1000.

Definition env : Env :=
  {| sources :=
       {| youtube := true; soundcloud := true; local := true; http := true |};
     decode := decode_blob;
     toString := show;
     log2 := fun x => x |}.

End Sample.

(** ** Notions used in the statements *)

Module WorkerSpec.
Import Worker.

(** The playback duration the getter reads:
    [this.current?.playbackDuration || 0]. *)
Definition duration (q : Queue) : float :=
  match current q with
  | Some r => JS.or_num (playbackDuration r) 0
  | None => 0
  end.

(** What one firing of the timer posts for the queue [q]. *)
Definition heartbeat (now : Z) (q : Queue) : list Out :=
  List.map (fun d => MESSAGE d (clientID q)) (posted q)
  ++ (if paused q then []
      else [MESSAGE
              (PLAYER_UPDATE (guildID q)
                 {| time := now;
                    position :=
                      JS.floor ((duration q + seekTime q) * rate q)%float;
                    connected := connection_eqb (connection q) Ready |})
              (clientID q)]).

(** The fields that launching and re-arming are about. *)
Definition keeps (q q' : Queue) : Prop :=
  building q' = building q /\ settled q' = settled q
  /\ applyingFilters q' = applyingFilters q /\ _filters q' = _filters q
  /\ seekTime q' = seekTime q /\ rate q' = rate q.


(** [play()] builds its pipeline in the same go: the track is a local
    file and the source is enabled. *)
Definition demuxes_now (E : Env) (q : Queue) : bool :=
  match track q with
  | Some meta =>
      let decoded := decode E (Track.track meta) in
      JS.opt_str_truthy (TrackInfo.uri decoded)
      && String.eqb (TrackInfo.source decoded) "local"
      && local (sources E)
  | None => false
  end.

(** A re-arm of [q] launches [play()] and that call builds its
    pipeline in the same go. *)
Definition builds_at_once (E : Env) (q : Queue) : bool :=
  negb (applyingFilters q) && demuxes_now E q.







(** The number of [-ss] tokens of a chain. *)
Fixpoint count_ss (l : list Arg) : nat :=
  match l with
  | [] => O
  | a :: r => (if Arg_eqb a (Some "-ss") then 1 else 0) + count_ss r
  end.

(** The chain without its [-ss] entry: the token, its value and
    [-accurate_seek]. *)
Definition without_ss_entry (l : list Arg) : list Arg :=
  match indexOf (Some "-ss") l with
  | Some i => JS.splice i 3 l
  | None => l
  end.

(** [kept] is the chain [old] without its [-ss] entry, as far as the
    token and its value go: the filters in front of the token and those
    behind the entry are there, in their order, and the token and its
    value are not.  The third token of the entry may have stayed. *)
Definition without_entry (old kept : list Arg) : Prop :=
  match indexOf (Some "-ss") old with
  | None => kept = old
  | Some i =>
      exists third,
        kept = firstn i old ++ third ++ skipn (i + 3) old
        /\ (third = [] \/ third = firstn 1 (skipn (i + 2) old))
  end.

(** The seek of the claim: the three tokens are put at the front of
    the chain in place of the entry that was there. *)
Definition seek_as_claimed (E : Env) (amount : float) (q : Queue) : Prop :=
  _filters (seek E amount q)
  = ss_tokens E amount ++ without_ss_entry (_filters q)
  /\ count_ss (_filters (seek E amount q)) = 1%nat
  /\ seekTime (seek E amount q) = amount.

(** The position of the claim: no further than the end of the track,
    whose length is a bigint. *)
Definition clamped (position : float) (length : Z) : float :=
  if (position <=? JS.of_Z length)%float then position else JS.of_Z length.

(** The SEEK of the claim: a position past the end of the track is
    recorded as the length of the track. *)
Definition seek_clamps_as_claimed (E : Env) (packet : Packet.t) (w : t)
  : Prop :=
  forall position q meta,
    Packet.command packet = SEEK position ->
    JS.get (key_of (Packet.clientID packet) (Packet.guildId packet))
      (queues w) = Some q ->
    track q = Some meta ->
    (JS.of_Z (TrackInfo.length (decode E (Track.track meta))) <? position)%float
    = true ->
    exists q',
      JS.get (key_of (Packet.clientID packet) (Packet.guildId packet))
        (queues (on_message E packet w)) = Some q'
      /\ seekTime q'
         = clamped position (TrackInfo.length (decode E (Track.track meta))).

End WorkerSpec.

Module GatewaySpec.
Import Gateway.

(** The buffer the resume key of a connection names, when there is
    one. *)
Definition active_buffer (c : Connection) (g : t)
  : option (string * ResumeBuffer) :=
  match resumeKey c with
  | Some k =>
      if JS.str_truthy k
      then option_map (pair k) (socketDeleteTimeouts g !! k)
      else None
  | None => None
  end.

(** The event [data] was appended to a buffer between [g] and [g']. *)
Definition buffered (data : Worker.Data) (g g' : t) : Prop :=
  exists k b,
    socketDeleteTimeouts g !! k = Some b
    /\ socketDeleteTimeouts g' !! k
       = Some {| timeout := timeout b; events := events b ++ [data] |}.

(** The event [data] was sent on [s], a socket that is open, between
    [g] and [g']. *)
Definition sent (s : Socket) (data : Worker.Data) (g g' : t) : Prop :=
  wire g' = wire g ++ [(s, data)] /\ ~ In s (closed g).

(** The relay of the claim: an event is never both appended to a buffer
    and sent. *)
Definition relay_as_claimed (clientID : string) (data : Worker.Data) (g : t)
  : Prop :=
  forall s,
    playerMap g !! Worker.key_of clientID (Worker.guildId_of data) = Some s ->
    let g' := on_pool_message clientID data g in
    ~ (buffered data g g' /\ sent s data g g').

End GatewaySpec.

Module ServerSpec.
Import Server.

(** The track [t] is enqueued on [q], giving [q']: it has become the
    track of the queue, the seek time is back to 0 and a [play()] call
    for it waits for its stream. *)
Definition enqueued (E : Env) (t : Track.t) (q q' : Worker.Queue) : Prop :=
  Worker.track q' = Some t
  /\ Worker.seekTime q' = 0%float
  /\ Worker.building q'
     = Worker.building q
       ++ [Worker.AwaitStream t (decode E (Track.track t))].

(** The routing of the claim: an owner ends up with the track of the
    command, whatever the command says. *)
Definition owner_enqueues_as_claimed (E : Env) (g userID tr : string)
    (msg : Play) (threadID : nat) (socket : Gateway.Socket) (sv : Server.t)
  : Prop :=
  forall i w q,
    nth_error (pool sv) i = Some w ->
    JS.get (Worker.key_of userID g) (Worker.queues w) = Some q ->
    exists w' q',
      nth_error (pool (on_play E socket userID msg threadID sv)) i = Some w'
      /\ JS.get (Worker.key_of userID g) (Worker.queues w') = Some q'
      /\ Worker.track q'
         = Some (Worker.track_of tr (startTime msg) (endTime msg)
                   (volume msg) (pause msg)).

End ServerSpec.


(** ** Scenarios

    Concrete states, all reached by running the model, on which the
    statements below are exercised. *)

Module Scenario.
Import Worker.

Definition env := Sample.env.

(** *** A worker *)

Definition fresh : Queue := new_Queue "42" "100".

Definition http_track : Track.t := track_of "http" None None None false.

(** The same track, asked to end after one second. *)
Definition short_track : Track.t :=
  track_of "http" None (Some 1000%float) None false.

(** A queue playing [t]: the PLAY was handled, the stream arrived, the
    probe answered and the player started. *)
Definition playing_track (t : Track.t) : Queue :=
  set_posted []
    (player_enters Playing
       (probe_done 0 (stream_ready env 0 (drain (queue env t fresh))))).

Definition playing : Queue := playing_track http_track.

(** A queue playing a local file. *)
Definition local_track : Track.t := track_of "local" None None None false.

Definition local_playing : Queue := playing_track local_track.

(** The queue of client 42 in room 100 while the stream of its track is
    being fetched. *)
Definition waiting : Queue := drain (queue env http_track fresh).

(** The current resource has played for [ms] milliseconds. *)
Definition played (ms : float) (q : Queue) : Queue :=
  match current q with
  | Some r =>
      set_current
        (Some {| ffmpegArgs := ffmpegArgs r; playbackDuration := ms;
                 resourceVolume := resourceVolume r;
                 metadata := metadata r |}) q
  | None => q
  end.

(** One and a half seconds into the track that ends after one. *)
Definition past_end : Queue := played 1500 (playing_track short_track).



(** An idle queue whose chain holds one filter, and one whose chain an
    FFMPEG command has filled with two [-ss] entries. *)
Definition filtered : Queue := set_filters [Some "volume=2"] fresh.

Definition doubled : Queue :=
  drain (ffmpeg env ["-ss"; "1ms"; "-ss"; "2ms"] waiting).

Definition thread (q : Queue) : Worker.t :=
  {| queues := [("42.100", q)]; outbox := [] |}.

Definition idle_thread : Worker.t := {| queues := []; outbox := [] |}.

Definition seek_packet (position : float) : Packet.t :=
  Pool.packet "100" "42" (SEEK position) true 0.

Definition equalizer_spec : FilterSpec.t :=
  {| FilterSpec.volume := None;
     FilterSpec.equalizer :=
       Some [{| FilterSpec.band := 0; FilterSpec.gain := 1 |}];
     FilterSpec.timescale := None; FilterSpec.tremolo := None;
     FilterSpec.vibrato := None; FilterSpec.rotation := None;
     FilterSpec.lowPass := None |}.

Definition double_speed : FilterSpec.Timescale :=
  {| FilterSpec.rate := None; FilterSpec.pitch := None;
     FilterSpec.speed := Some 2%float |}.

Definition timescale_spec : FilterSpec.t :=
  {| FilterSpec.volume := None; FilterSpec.equalizer := None;
     FilterSpec.timescale := Some double_speed; FilterSpec.tremolo := None;
     FilterSpec.vibrato := None; FilterSpec.rotation := None;
     FilterSpec.lowPass := None |}.

Definition equalizer_timescale_spec : FilterSpec.t :=
  {| FilterSpec.volume := None;
     FilterSpec.equalizer :=
       Some [{| FilterSpec.band := 0; FilterSpec.gain := 1 |}];
     FilterSpec.timescale := Some double_speed; FilterSpec.tremolo := None;
     FilterSpec.vibrato := None; FilterSpec.rotation := None;
     FilterSpec.lowPass := None |}.

(** *** A server *)

Definition nobody : Gateway.t :=
  {| Gateway.connections := []; Gateway.socketDeleteTimeouts := ∅;
     Gateway.playerMap := ∅; Gateway.wire := []; Gateway.timers := [];
     Gateway.closed := [] |}.

(** The upgrade request of client 42. *)
Definition hello (resume : option string) : Gateway.Request :=
  {| Gateway.authorization := None; Gateway.user_id := Some "42";
     Gateway.resume_key := resume |}.

Definition play_msg (noReplace : bool) : Server.Play :=
  {| Server.guildId := Some "100"; Server.track := Some "http";
     Server.startTime := None; Server.endTime := None;
     Server.volume := None; Server.pause := false;
     Server.noReplace := noReplace |}.

(** A PLAY of another track that asks not to replace. *)
Definition other_msg : Server.Play :=
  {| Server.guildId := Some "100"; Server.track := Some "local";
     Server.startTime := None; Server.endTime := None;
     Server.volume := None; Server.pause := false;
     Server.noReplace := true |}.

Definition started : Data := TrackStartEvent "100" "http".

(** Client 42 connects on socket 1, makes the session resumable under
    the key [k], plays in room 100 and loses its connection; timer 7
    guards the resume window. *)
Definition alone_closed : Gateway.t :=
  let g1 := fst (Gateway.on_upgrade None (hello None) 1 nobody) in
  let g2 := Gateway.on_configureResuming 1 "42" (Some "k") (Some 5%float) g1 in
  let sv :=
    Server.on_play env 1 "42" (play_msg false) 0
      {| Server.gateway := g2; Server.pool := [idle_thread] |} in
  Gateway.on_client_close 1 "42" 7 (Server.gateway sv).

(** The same, with one event relayed during the window. *)
Definition alone_waiting : Gateway.t :=
  Gateway.on_pool_message "42" started alone_closed.

(** Client 42 holds two connections.  The first, on socket 1, is
    resumable under [k] and has just closed; the second, on socket 2,
    is open and is the one that plays in room 100. *)
Definition two_connections : Gateway.t :=
  let g1 := fst (Gateway.on_upgrade None (hello None) 1 nobody) in
  let g2 := fst (Gateway.on_upgrade None (hello None) 2 g1) in
  let g3 := Gateway.on_configureResuming 1 "42" (Some "k") (Some 5%float) g2 in
  let sv :=
    Server.on_play env 2 "42" (play_msg false) 0
      {| Server.gateway := g3; Server.pool := [idle_thread] |} in
  Gateway.on_client_close 1 "42" 7 (Server.gateway sv).

(** A server with two idle workers, and one whose only worker plays
    in room 100 for client 42. *)
Definition idle_server : Server.t :=
  {| Server.gateway := nobody; Server.pool := [idle_thread; idle_thread] |}.

Definition busy_server : Server.t :=
  {| Server.gateway := nobody; Server.pool := [thread playing] |}.

End Scenario.

(** ** Notions used in the statements about playback *)

Module PlaybackSpec.
Import Worker.

(** [play()] has to wait for the stream of the track: the blob has a
    uri and names an enabled source other than a local file. *)
Definition fetches (E : Env) (meta : Track.t) : bool :=
  let decoded := decode E (Track.track meta) in
  JS.opt_str_truthy (TrackInfo.uri decoded)
  && (if String.eqb (TrackInfo.source decoded) "youtube"
      then youtube (sources E)
      else if String.eqb (TrackInfo.source decoded) "soundcloud"
      then soundcloud (sources E)
      else if String.eqb (TrackInfo.source decoded) "local" then false
      else http (sources E)).

(** The [state] getter finds the end of the track reached. *)
Definition at_end (q : Queue) : bool :=
  match track q with
  | Some t => JS.truthy (Track.end_ t) && JS.geb (position_of q) (Track.end_ t)
  | None => false
  end.

(** The argument vector of the transcoder of the current resource. *)
Definition transcoder (q : Queue) : option (list Arg) :=
  match current q with Some r => ffmpegArgs r | None => None end.

(** [-af] and the chain, when there is a chain. *)
Definition af (chain : list Arg) : list Arg :=
  if is_nil chain then [] else Some "-af" :: chain.

(** The TrackStartEvent a player that starts playing makes the queue
    post. *)
Definition start_event (q : Queue) : list Data :=
  match track q with
  | Some t =>
      if negb (shouldntCallFinish q) || initial q
      then [TrackStartEvent (guildID q) (Track.track t)] else []
  | None => []
  end.

(** A FILTERS payload that only sets the volume. *)
Definition volume_only (v : float) : FilterSpec.t :=
  {| FilterSpec.volume := Some v; FilterSpec.equalizer := None;
     FilterSpec.timescale := None; FilterSpec.tremolo := None;
     FilterSpec.vibrato := None; FilterSpec.rotation := None;
     FilterSpec.lowPass := None |}.

End PlaybackSpec.

(** ** The worker thread: the rest of its message listener

    [Worker.on_message] covers the commands that act on one queue.  The
    thread as a whole also answers STATS, destroys queues (DESTROY,
    DELETE_ALL) and closes itself when its last queue is gone.  Left out
    here: the VOICE_SERVER op and the voice adapter (they only call into
    [@discordjs/voice]), the [error] listener of the player, and the
    branches of the listener of the voice connection that wait for a
    reconnection. *)

Module Thread.
Import Worker.

Definition set__destroyed (v : bool) (q : Queue) : Queue :=
  {| track := track q; player := player q; current := current q;
     stopping := stopping q; _filters := _filters q; _volume := _volume q;
     applyingFilters := applyingFilters q;
     shouldntCallFinish := shouldntCallFinish q;
     trackPausing := trackPausing q; initial := initial q;
     seekTime := seekTime q; _destroyed := v; paused := paused q;
     rate := rate q; connection := connection q; clientID := clientID q;
     guildID := guildID q; posted := posted q; building := building q;
     settled := settled q; destroyedStreams := destroyedStreams q |}.

Definition set_connection (v : VoiceConnectionStatus) (q : Queue) : Queue :=
  {| track := track q; player := player q; current := current q;
     stopping := stopping q; _filters := _filters q; _volume := _volume q;
     applyingFilters := applyingFilters q;
     shouldntCallFinish := shouldntCallFinish q;
     trackPausing := trackPausing q; initial := initial q;
     seekTime := seekTime q; _destroyed := _destroyed q; paused := paused q;
     rate := rate q; connection := v; clientID := clientID q;
     guildID := guildID q; posted := posted q; building := building q;
     settled := settled q; destroyedStreams := destroyedStreams q |}.

(** The events a queue posts besides those of [Worker.Data].  (The
    threshold a TrackStuckEvent carries is a constant of the missing
    [Constants] module.) *)
Inductive Notice :=
| WebSocketClosedEvent (guildId : string) (code : Z) (reason : string)
    (byRemote : bool)
| TrackStuckEvent (guildId track : string).

(** What the thread posts to its parent. *)
Inductive Out :=
| READY
| Base (o : Worker.Out)
| Notify (n : Notice) (clientID : string)
    (* a MESSAGE whose data is one of the events above *)
| STATS_REPLY (playingPlayers players : nat) (threadID : nat)
| DELETED_REPLY (count : nat) (threadID : nat)
| CLOSE.

(** What the parent sends.  DESTROY is the op MESSAGE with
    [data.op = "destroy"]; the other commands of a MESSAGE are those of
    [Worker.Packet]. *)
Inductive Packet :=
| STATS (threadID : nat)
| MESSAGE (p : Worker.Packet.t)
| DESTROY (guildId clientID : string)
| DELETE_ALL (clientID : string) (threadID : nat).

Record t := {
  queues : JS.Map Queue;
  outbox : list Out;
  reporting : bool;   (* [reportInterval] has not been cleared *)
  listening : bool    (* [parentPort] still has its listeners *)
}.

(** The thread when the module is loaded: READY is posted. *)
Definition boot : t :=
  {| queues := []; outbox := [READY]; reporting := true; listening := true |}.

Definition set_queues (m : JS.Map Queue) (w : t) : t :=
  {| queues := m; outbox := outbox w; reporting := reporting w;
     listening := listening w |}.

Definition postMessage (o : Out) (w : t) : t :=
  {| queues := queues w; outbox := outbox w ++ [o];
     reporting := reporting w; listening := listening w |}.

(** The listeners of [Worker] run on the queues of the thread; what they
    post is appended to its outbox. *)
Definition lift (f : Worker.t -> Worker.t) (w : t) : t :=
  let b := f {| Worker.queues := queues w; Worker.outbox := [] |} in
  {| queues := Worker.queues b;
     outbox := outbox w ++ List.map Base (Worker.outbox b);
     reporting := reporting w; listening := listening w |}.

(** The MESSAGEs the queue posted during the call leave for the
    parent. *)
Definition flush (q : Queue) (w : t) : t :=
  {| queues := queues w;
     outbox :=
       outbox w
       ++ List.map (fun d => Base (Worker.MESSAGE d (clientID q))) (posted q);
     reporting := reporting w; listening := listening w |}.

(** The queue object stored under [k], if it is still stored, is now
    in the state [q]. *)
Definition store (k : string) (q : Queue) (w : t) : t :=
  if JS.has k (queues w) then set_queues (JS.set k q (queues w)) w else w.

(** How a listener ends. *)
Inductive Outcome :=
| Done (w : t)
| Failed (w : t) (e : string).

Definition thread_of (o : Outcome) : t :=
  match o with Done w | Failed w _ => w end.

(** The branch of the listener of the voice connection for a connection
    that is destroyed. *)
Definition on_connection_destroyed (q : Queue) : list Notice :=
  if negb (_destroyed q)
  then [WebSocketClosedEvent (guildID q) 4000
          "IDK what happened. All I know is that the connection was destroyed prematurely"
          true]
  else [].

(** [Queue.destroy] for the queue object [q], which the caller found
    under the key [stored].  [connection.destroy] of [@discordjs/voice]
    throws on a connection that is destroyed already; otherwise the
    connection becomes destroyed and tells its listener. *)
Definition destroy (stored : string) (q : Queue) (w : t) : Outcome :=
  if _destroyed q then Done w
  else
    let q1 := stop true (set_track None (set__destroyed true q)) in
    let w1 := store stored (set_posted [] q1) (flush q1 w) in
    if connection_eqb (connection q1) Destroyed then Failed w1 "Error"
    else
      let q2 := set_connection Destroyed (set_posted [] q1) in
      let w2 :=
        fold_left (fun a n => postMessage (Notify n (clientID q2)) a)
          (on_connection_destroyed q2) (store stored q2 w1) in
      let w3 :=
        set_queues
          (JS.delete (key_of (clientID q2) (guildID q2)) (queues w2)) w2 in
      if Nat.eqb (JS.size (queues w3)) 0
      then Done {| queues := queues w3; outbox := outbox w3 ++ [CLOSE];
                   reporting := false; listening := false |}
      else Done w3.

(** The loop [for (const q of forUser) q.destroy()]: a call that throws
    ends the listener. *)
Definition destroy_each (forUser : list (string * Queue)) (w : t) : Outcome :=
  fold_left
    (fun acc kq =>
       match acc with
       | Done a => destroy (fst kq) (snd kq) a
       | Failed _ _ => acc
       end)
    forUser (Done w).

Section WithEnv.
Variable E : Env.

(** The [message] listener of [parentPort]. *)
Definition on_packet (packet : Packet) (w : t) : Outcome :=
  if negb (listening w) then Done w
  else
    match packet with
    | STATS threadID =>
        Done
          (postMessage
             (STATS_REPLY
                (length
                   (List.filter (fun q => negb (paused q))
                      (JS.values (queues w))))
                (JS.size (queues w)) threadID) w)
    | MESSAGE p => Done (lift (Worker.on_message E p) w)
    | DESTROY guildId clientID =>
        match JS.get (key_of clientID guildId) (queues w) with
        | Some q => destroy (key_of clientID guildId) q w
        | None => Done w
        end
    | DELETE_ALL clientID threadID =>
        let forUser :=
          List.filter
            (fun kq => String.eqb (Worker.clientID (snd kq)) clientID)
            (queues w) in
        destroy_each forUser
          (postMessage (DELETED_REPLY (length forUser) threadID) w)
    end.

(** One firing of the five-second timer, while it is not cleared. *)
Definition on_interval (now : Z) (w : t) : t :=
  if reporting w then lift (Worker.reportInterval now) w else w.

(** *** What happens to a queue between messages *)

(** The playback duration of the current resource has reached [ms]. *)
Definition elapsed (ms : float) (q : Queue) : Queue :=
  match current q with
  | Some r =>
      set_current
        (Some {| ffmpegArgs := ffmpegArgs r; playbackDuration := ms;
                 resourceVolume := resourceVolume r;
                 metadata := metadata r |}) q
  | None => q
  end.

(** The end of [play()] when the player starts playing in time. *)
Definition play_started (q : Queue) : Queue :=
  set_stopping false (set_shouldntCallFinish false q).

(** The end of [play()] when it does not.  [same] tells whether
    [this.track] is still the object the call saw when it handed the
    resource to the player; tracks are compared by identity. *)
Definition play_stuck (same : bool) (q : Queue) : Queue * list Notice :=
  if negb same then (q, [])
  else
    let q1 := set_current None (stop true q) in
    let name :=
      match track q1 with
      | Some t =>
          if JS.str_truthy (Track.track t) then Track.track t else "UNKNOWN"
      | None => "UNKNOWN"
      end in
    (set_stopping false
       (set_shouldntCallFinish false (set_track None q1)),
     [TrackStuckEvent (guildID q1) name]).

Inductive Async :=
| StreamReady (i : nat)
| StreamFailed (i : nat)
| ProbeDone (i : nat)
| PlayerEnters (s : AudioPlayerStatus)
| Elapsed (ms : float)
| Started
| Stuck (same : bool).

Definition async (a : Async) (q : Queue) : Queue * list Notice :=
  match a with
  | StreamReady i => (stream_ready E i q, [])
  | StreamFailed i => (stream_failed i q, [])
  | ProbeDone i => (probe_done i q, [])
  | PlayerEnters s => (player_enters s q, [])
  | Elapsed ms => (elapsed ms q, [])
  | Started => (play_started q, [])
  | Stuck same => play_stuck same q
  end.

(** The queue stored under [key] makes the step [a]. *)
Definition on_async (key : string) (a : Async) (w : t) : t :=
  match JS.get key (queues w) with
  | Some q =>
      let '(q1, notices) := async a q in
      let q2 := drain q1 in
      fold_left (fun acc n => postMessage (Notify n (clientID q2)) acc)
        notices
        (set_queues (JS.set key (set_posted [] q2) (queues w)) (flush q2 w))
  | None => w
  end.

(** What the thread goes through. *)
Inductive Event :=
| Receive (p : Packet)
| Interval (now : Z)
| Step (key : string) (a : Async).

Definition handle (e : Event) (w : t) : t :=
  match e with
  | Receive p => thread_of (on_packet p w)
  | Interval now => on_interval now w
  | Step key a => on_async key a w
  end.

Definition run (es : list Event) (w : t) : t :=
  fold_left (fun a e => handle e a) es w.

End WithEnv.

End Thread.

(** ** Notions used in the statements about the thread *)

Module ThreadSpec.
Import Worker.

(** The inline volume of the current resource is the volume the queue
    has stored. *)
Definition synced (q : Queue) : Prop :=
  match current q with
  | Some r => resourceVolume r = _volume q
  | None => True
  end.

(** The resources of settled [play()] calls are new: their inline
    volume is 1. *)
Definition fresh (s : list (Track.t * option AudioResource)) : Prop :=
  Forall
    (fun mr =>
       match snd mr with Some r => resourceVolume r = 1%float | None => True end)
    s.

(** What no method of a queue changes. *)
Definition same_ids (q q' : Queue) : Prop :=
  clientID q' = clientID q /\ guildID q' = guildID q
  /\ _destroyed q' = _destroyed q /\ connection q' = connection q.

(** A step that leaves the volume alone: it keeps the current resource
    or drops it, and settles only new resources. *)
Definition calm (q q' : Queue) : Prop :=
  same_ids q q' /\ _volume q' = _volume q
  /\ (current q' = current q \/ current q' = None)
  /\ exists extra, settled q' = settled q ++ extra /\ fresh extra.

(** A queue as the thread stores it between two listeners. *)
Definition good (k : string) (q : Queue) : Prop :=
  k = key_of (clientID q) (guildID q) /\ posted q = [] /\ settled q = []
  /\ synced q /\ _destroyed q = false /\ connection q <> Destroyed.

(** What [Queue.destroy] needs to go through: the queue is stored under
    the key of its own ids, is not marked destroyed, and its voice
    connection still exists. *)
Definition destroyable (k : string) (q : Queue) : Prop :=
  k = key_of (clientID q) (guildID q) /\ posted q = []
  /\ _destroyed q = false /\ connection q <> Destroyed.

Definition healthy (m : JS.Map Queue) : Prop :=
  List.NoDup (List.map fst m) /\ Forall (fun kq => good (fst kq) (snd kq)) m.

(** A method that keeps a stored queue good once its continuations have
    run. *)
Definition sound (f : Queue -> Queue) : Prop :=
  forall q,
    same_ids q (f q)
    /\ (synced q -> settled q = [] -> synced (f q) /\ fresh (settled (f q))).

(** The thread closes itself once it holds no queue: CLOSE is posted,
    the timer is cleared and the listeners are removed. *)
Definition closing (w : Thread.t) : Thread.t :=
  if Nat.eqb (JS.size (Thread.queues w)) 0
  then {| Thread.queues := Thread.queues w;
          Thread.outbox := Thread.outbox w ++ [Thread.CLOSE];
          Thread.reporting := false; Thread.listening := false |}
  else w.

(** The entries of a map whose key is not among [ks]. *)
Definition without (ks : list string) (m : JS.Map Queue) : JS.Map Queue :=
  List.filter (fun kq => negb (existsb (String.eqb (fst kq)) ks)) m.

(** The command is a PLAY. *)
Definition is_play (c : Command) : bool :=
  match c with PLAY _ _ _ _ _ _ => true | _ => false end.

(** The playerUpdate frames among what a thread posted. *)
Definition is_update (o : Worker.Out) : bool :=
  match o with
  | Worker.MESSAGE (PLAYER_UPDATE _ _) _ => true
  | _ => false
  end.

(** The queue belongs to the client. *)
Definition of_client (clientID : string) (kq : string * Queue) : bool :=
  String.eqb (Worker.clientID (snd kq)) clientID.

End ThreadSpec.

(** ** The gateway: keep-alive and voice states *)

(** The minute timer of the gateway ([serverLoopInterval]), as far as
    the sockets go; the stats it sends are those of [getStats]. *)
Module KeepAlive.

Inductive ReadyState := CONNECTING | OPEN | CLOSING | CLOSED.

(** A member of [ws.clients].  [isAlive] is undefined until the
    [connection] listener has set it. *)
Record Client := {
  socket : Gateway.Socket;
  isAlive : option bool;
  readyState : ReadyState
}.

(** What the timer does to a socket. *)
Inductive Action :=
| Terminate (s : Gateway.Socket)
| Ping (s : Gateway.Socket)
| Send (s : Gateway.Socket).      (* the stats frame *)

(** [client.isAlive === false]. *)
Definition is_dead (c : Client) : bool :=
  match isAlive c with Some false => true | _ => false end.

Definition is_open (c : Client) : bool :=
  match readyState c with OPEN => true | _ => false end.

Definition mark (c : Client) : Client :=
  {| socket := socket c; isAlive := Some false; readyState := readyState c |}.

(** The loop over [ws.clients], in the order of the set.  The [return]
    in front of [client.terminate()] leaves the callback.  (A terminated
    socket leaves the set when its [close] event arrives.) *)
Fixpoint sweep (clients : list Client) : list Client * list Action :=
  match clients with
  | [] => ([], [])
  | client :: rest =>
      if is_dead client then (client :: rest, [Terminate (socket client)])
      else
        let '(rest', actions) := sweep rest in
        (mark client :: rest',
         (if is_open client
          then [Ping (socket client); Send (socket client)] else [])
         ++ actions)
  end.

(** [socketHeartbeat], the [pong] listener of the socket [s]. *)
Definition socketHeartbeat (s : Gateway.Socket) (clients : list Client)
  : list Client :=
  List.map
    (fun c =>
       if Nat.eqb (socket c) s
       then {| socket := socket c; isAlive := Some true;
               readyState := readyState c |}
       else c)
    clients.

(** What the timer does to the clients it reaches. *)
Definition probes (clients : list Client) : list Action :=
  flat_map
    (fun c => if is_open c then [Ping (socket c); Send (socket c)] else [])
    clients.

End KeepAlive.

(** [voiceServerStates]: the table itself.  (The broadcasts that go with
    it are not modelled.) *)
Module Voice.

Section States.
Variable V : Type.

(** [`${userID}.${msg.guildId}`], for a payload that may lack the
    room. *)
Definition key (userID : string) (guildId : option string) : string :=
  Worker.key_of userID
    (match guildId with Some g => g | None => "undefined" end).

(** [onClientMessage], case VOICE_UPDATE: the state is stored. *)
Definition on_voiceUpdate (userID : string) (guildId : option string)
    (state : V) (states : gmap string V) : gmap string V :=
  <[key userID guildId := state]> states.

(** The timer set by that case fires, twenty seconds later. *)
Definition on_timeout (userID : string) (guildId : option string)
    (states : gmap string V) : gmap string V :=
  delete (key userID guildId) states.

(** The end of [onClientClose]: the loop over the keys. *)
Definition forget (userID : string) (states : gmap string V)
  : gmap string V :=
  filter (fun kv => String.prefix userID (fst kv) = false) states.

End States.

End Voice.

(** ** Notions used in the statements about the gateway *)

Module SessionSpec.
Import Gateway.

(** The events of workers are relayed one after the other. *)
Definition relay (events : list (string * Worker.Data)) (g : t) : t :=
  fold_left (fun a e => on_pool_message (fst e) (snd e) a) events g.

(** The upgrade is refused. *)
Definition refused (password : option string) (request : Request) : Prop :=
  (exists p, password = Some p /\ authorization request <> Some p)
  \/ match user_id request with
     | Some userID => userID = "" \/ all_digits userID = false
     | None => True
     end.

(** The user holds a connection on the socket. *)
Definition connected (userID : string) (s : Socket) (g : t) : Prop :=
  exists entry c,
    JS.get userID (connections g) = Some entry
    /\ In c entry /\ socket c = s.

End SessionSpec.

(** ** Further scenarios *)

Module Cases.
Import Worker.

Definition env := Sample.env.

(** The PLAY the pool executes for a client and a room. *)
Definition play_packet (clientID guildId : string) : Packet.t :=
  Pool.packet guildId clientID (PLAY "http" None None None false false)
    false 0.

Definition command_packet (c : Command) : Packet.t :=
  Pool.packet "100" "42" c true 0.

(** The track of the scenarios, asked to start one second in. *)
Definition late_track : Track.t :=
  track_of "http" (Some 1000%float) None None false.

(** One and a half seconds into the track. *)
Definition halfway : Queue := Scenario.played 1500 Scenario.playing.

(** A thread that has been asked to play in room 100 for client 42, and
    one that has also been asked to play in room 200 for client 43. *)
Definition one_room : Thread.t :=
  Thread.run env [Thread.Receive (Thread.MESSAGE (play_packet "42" "100"))]
    Thread.boot.

Definition two_clients : Thread.t :=
  Thread.run env
    [Thread.Receive (Thread.MESSAGE (play_packet "42" "100"));
     Thread.Receive (Thread.MESSAGE (play_packet "43" "200"))]
    Thread.boot.

(** The track of room 100 is delivered, then the volume is halved. *)
Definition tuning : list Thread.Event :=
  [Thread.Receive (Thread.MESSAGE (play_packet "42" "100"));
   Thread.Step "42.100" (Thread.StreamReady 0);
   Thread.Step "42.100" (Thread.ProbeDone 0);
   Thread.Receive (Thread.MESSAGE (command_packet (VOLUME 50)))].

(** Client 42 on socket 1, before and after it asked for a resumable
    session and played in room 100. *)
Definition one_socket : Gateway.t :=
  fst (Gateway.on_upgrade None (Scenario.hello None) 1 Scenario.nobody).

Definition alone_open : Gateway.t :=
  let g2 :=
    Gateway.on_configureResuming 1 "42" (Some "k") (Some 5%float) one_socket in
  Server.gateway
    (Server.on_play env 1 "42" (Scenario.play_msg false) 0
       {| Server.gateway := g2; Server.pool := [Scenario.idle_thread] |}).

Definition resumable_connection : Gateway.Connection :=
  {| Gateway.socket := 1; Gateway.resumeKey := Some "k";
     Gateway.resumeTimeout := 5 |}.

(** A request with a wrong password. *)
Definition intruder : Gateway.Request :=
  {| Gateway.authorization := Some "guess"; Gateway.user_id := Some "42";
     Gateway.resume_key := None |}.

(** Three sockets; the second did not answer the last ping. *)
Definition alive (s : Gateway.Socket) : KeepAlive.Client :=
  {| KeepAlive.socket := s; KeepAlive.isAlive := Some true;
     KeepAlive.readyState := KeepAlive.OPEN |}.

Definition silent (s : Gateway.Socket) : KeepAlive.Client :=
  {| KeepAlive.socket := s; KeepAlive.isAlive := Some false;
     KeepAlive.readyState := KeepAlive.OPEN |}.

End Cases.

(** ** Properties of numbers *)

Module NumberFacts.

Lemma SFcompare_refl (a : spec_float) :
  a <> S754_nan -> SFcompare a a = Some Eq.
Proof.
  destruct a as [s | s | | s m e]; cbn; try congruence.
  - destruct s; reflexivity.
  - intros _. rewrite Z.compare_refl, Pos.compare_cont_refl.
    destruct s; reflexivity.
Qed.

Lemma SFcompare_nan_l (a b : spec_float) c :
  SFcompare a b = Some c -> a <> S754_nan /\ b <> S754_nan.
Proof.
  destruct a as [s | s | | s m e], b as [s' | s' | | s' m' e']; cbn;
    intros H; split; congruence.
Qed.

(** A number that compares with another is not [NaN]. *)
Lemma leb_not_nan (x y : float) :
  (x <=? y)%float = true -> is_nan x = false /\ is_nan y = false.
Proof.
  rewrite FloatAxioms.leb_spec. unfold SFleb, is_nan. rewrite !FloatAxioms.eqb_spec. unfold SFeqb.
  destruct (SFcompare (Prim2SF x) (Prim2SF y)) as [c|] eqn:Hc;
    [| discriminate].
  destruct (SFcompare_nan_l _ _ _ Hc) as (Hx & Hy).
  rewrite !SFcompare_refl by assumption. intros _. split; reflexivity.
Qed.

Lemma ltb_not_nan (x y : float) :
  (x <? y)%float = true -> is_nan x = false /\ is_nan y = false.
Proof.
  rewrite FloatAxioms.ltb_spec. unfold SFltb, is_nan. rewrite !FloatAxioms.eqb_spec. unfold SFeqb.
  destruct (SFcompare (Prim2SF x) (Prim2SF y)) as [c|] eqn:Hc;
    [| discriminate].
  destruct (SFcompare_nan_l _ _ _ Hc) as (Hx & Hy).
  rewrite !SFcompare_refl by assumption. intros _. split; reflexivity.
Qed.

(** Only [1] is equal to [1]. *)
Lemma eqb_one (x : float) : (x =? 1)%float = true -> x = 1%float.
Proof.
  rewrite FloatAxioms.eqb_spec. intros H. apply Prim2SF_inj.
  change (Prim2SF 1) with (S754_finite false 4503599627370496 (-52)) in *.
  unfold SFeqb, SFcompare in H.
  destruct (Prim2SF x) as [s | s | | s m e]; try discriminate H;
    try (destruct s; discriminate H).
  destruct s; [discriminate H |].
  destruct (e ?= -52)%Z eqn:He; try discriminate H.
  apply Z.compare_eq in He.
  destruct (PosDef.Pos.compare_cont Eq m 4503599627370496) eqn:Hm;
    try discriminate H.
  apply (Pos.compare_eq m 4503599627370496) in Hm.
  now subst.
Qed.

Lemma truthy_leb (e p : float) :
  (e =? 0)%float = false -> (e <=? p)%float = true -> JS.truthy e = true.
Proof.
  intros H0 Hle. unfold JS.truthy. rewrite H0.
  now destruct (leb_not_nan _ _ Hle) as (-> & _).
Qed.

(** A product by zero is a zero or [NaN]; [Math.floor] returns it as it
    is, it is falsy, and it is below every positive number. *)
Lemma zero_times (r : float) :
  let p := JS.floor (0 * r)%float in
  JS.truthy p = false
  /\ forall e, (0 <? e)%float = true -> JS.geb p e = false.
Proof.
  intros p.
  assert (Hp : Prim2SF (0 * r)%float = S754_nan
               \/ exists s, Prim2SF (0 * r)%float = S754_zero s).
  { rewrite FloatAxioms.mul_spec. change (Prim2SF 0) with (S754_zero false).
    destruct (Prim2SF r) as [s | s | | s m e]; cbn; eauto. }
  assert (Hf : p = (0 * r)%float).
  { subst p. unfold JS.floor.
    destruct Hp as [-> | (s & ->)]; reflexivity. }
  rewrite Hf. split.
  - unfold JS.truthy, is_nan. rewrite !FloatAxioms.eqb_spec.
    change (Prim2SF 0) with (S754_zero false).
    destruct Hp as [-> | (s & ->)]; reflexivity.
  - intros e He. unfold JS.geb. rewrite FloatAxioms.leb_spec.
    rewrite FloatAxioms.ltb_spec in He. change (Prim2SF 0) with (S754_zero false) in He.
    destruct Hp as [-> | (s & ->)];
      destruct (Prim2SF e) as [s' | s' | | s' m' e']; cbn in *;
      try reflexivity; try discriminate;
      destruct s'; cbn in *; try reflexivity; discriminate.
Qed.

(** Two numbers the kernel tells apart are not equal. *)
Lemma float_neq (x y : float) : PrimFloat.Leibniz.eqb x y = false -> x <> y.
Proof.
  intros H Hxy. apply FloatAxioms.Leibniz.eqb_spec in Hxy. congruence.
Qed.

End NumberFacts.

(** ** Properties of the worker *)

Module WorkerFacts.
Import Worker WorkerSpec.

(** Case analysis on every test a goal still contains. *)
Ltac split_cases :=
  repeat match goal with
    | |- context [if ?b then _ else _] => destruct b eqn:?
    | |- context [match ?x with _ => _ end] => destruct x eqn:?
    end.

Lemma position_of_floor (q : Queue) :
  position_of q = JS.floor ((duration q + seekTime q) * rate q)%float.
Proof. reflexivity. Qed.

(** An internal stop posts nothing and leaves the player idle. *)
Lemma stop_internal (q : Queue) :
  player (stop true q) = Idle /\ posted (stop true q) = posted q
  /\ paused (stop true q) = paused q /\ guildID (stop true q) = guildID q
  /\ clientID (stop true q) = clientID q
  /\ connection (stop true q) = connection q.
Proof.
  unfold stop, player_stop, player_enters, on_player_stateChange.
  destruct (player q) eqn:Hp; simpl; rewrite ?Hp; simpl; repeat split; auto.
Qed.

Lemma state_frame (now : Z) (q : Queue) :
  posted (snd (state now q)) = posted q
  /\ paused (snd (state now q)) = paused q
  /\ guildID (snd (state now q)) = guildID q
  /\ clientID (snd (state now q)) = clientID q
  /\ connection (snd (state now q)) = connection q.
Proof.
  unfold state, state_position.
  destruct (track q) as [t|]; simpl; [| repeat split; auto].
  destruct (JS.truthy (Track.end_ t) && JS.geb (position_of q) (Track.end_ t));
    simpl; [| repeat split; auto].
  destruct (stop_internal q) as (_ & ? & ? & ? & ? & ?). repeat split; auto.
Qed.

Lemma state_fst (now : Z) (q : Queue) :
  fst (state now q)
  = {| time := now;
       position := JS.floor ((duration q + seekTime q) * rate q)%float;
       connected := connection_eqb (connection q) Ready |}.
Proof.
  pose proof (state_frame now q) as (_ & _ & _ & _ & Hc).
  revert Hc. unfold state. destruct (state_position q) as [p q1] eqn:Hs.
  simpl. intros ->. f_equal.
  unfold state_position in Hs. inversion Hs. apply position_of_floor.
Qed.

Lemma report_each_outs (now : Z) (m : JS.Map Queue) :
  snd (report_each now m) = flat_map (heartbeat now) (JS.values m).
Proof.
  induction m as [| [k q] m IH]; [reflexivity |].
  cbn [report_each JS.values List.map flat_map snd fst] in *.
  pose proof (state_fst now q) as Hf.
  pose proof (state_frame now q) as (Hp & Hpa & Hg & Hc & _).
  destruct (state now q) as [st q1].
  destruct (report_each now m) as [rest outs].
  cbn [snd fst] in *. subst outs. unfold heartbeat at 2.
  rewrite Hp, Hpa, Hg, Hc, Hf, <- app_assoc. reflexivity.
Qed.

(** C1.  The position the [state] getter reports is
    [Math.floor((playbackDuration + seekTime) * rate)], the playback
    duration being 0 without a current resource; the sum and the
    product are those of binary64 numbers, rounded as the language
    rounds them.  When the track has an end that is not 0 and the
    position has reached it, reading the state stops the queue with
    [stop(true)]: the player goes idle and nothing is posted.  One
    firing of the five-second timer posts, for every queue that is not
    paused and in the order of the map, a [playerUpdate] carrying
    exactly this position. *)
Theorem position_reported :
  forall (now : Z) (q : Queue),
    position (fst (state now q))
    = JS.floor ((duration q + seekTime q) * rate q)%float
    /\ (forall t,
          track q = Some t ->
          (Track.end_ t =? 0)%float = false ->
          (Track.end_ t <=? JS.floor ((duration q + seekTime q) * rate q))%float
          = true ->
          snd (state now q) = stop true q
          /\ player (stop true q) = Idle
          /\ posted (stop true q) = posted q)
    /\ (forall w,
          outbox (reportInterval now w)
          = outbox w ++ flat_map (heartbeat now) (JS.values (queues w))).
Proof.
  intros now q. split; [| split].
  - rewrite state_fst. reflexivity.
  - intros t Ht Hend Hle.
    destruct (stop_internal q) as (Hi & Hp & _).
    split; [| auto].
    unfold state, state_position.
    rewrite Ht, (NumberFacts.truthy_leb _ _ Hend Hle).
    rewrite position_of_floor. unfold JS.geb. rewrite Hle. reflexivity.
  - intros w. unfold reportInterval.
    destruct (Nat.eqb (JS.size (queues w)) 0) eqn:Hz.
    + apply Nat.eqb_eq in Hz. unfold JS.size in Hz.
      destruct (queues w); [| discriminate]. simpl. now rewrite app_nil_r.
    + pose proof (report_each_outs now (queues w)) as H.
      destruct (report_each now (queues w)) as [m outs]. simpl in *.
      now rewrite H.
Qed.


(** *** What the building blocks leave alone *)

Lemma keeps_refl (q : Queue) : keeps q q.
Proof. repeat split. Qed.

Lemma keeps_trans (a b c : Queue) : keeps a b -> keeps b c -> keeps a c.
Proof.
  unfold keeps. intros (? & ? & ? & ? & ? & ?) (? & ? & ? & ? & ? & ?).
  repeat split; congruence.
Qed.

Lemma stop_keeps (b : bool) (q : Queue) : keeps q (stop b q).
Proof.
  unfold stop, player_stop, player_enters, on_player_stateChange, post.
  destruct (player q) eqn:Hp, b; simpl; rewrite ?Hp; simpl;
    split_cases; repeat split.
Qed.

Lemma state_position_keeps (q : Queue) : keeps q (snd (state_position q)).
Proof.
  unfold state_position. cbn [snd].
  destruct (track q) as [t|]; [| apply keeps_refl].
  destruct (_ && _); [apply stop_keeps | apply keeps_refl].
Qed.

Lemma play_resume_keeps meta r (q : Queue) :
  keeps q (play_resume meta r q).
Proof.
  unfold play_resume, volume, player_play.
  destruct r; [| apply keeps_refl].
  split_cases; repeat split.
Qed.

Lemma drain_from (l : list (Track.t * option AudioResource)) (a : Queue) :
  keeps a (fold_left (fun a mr => play_resume (fst mr) (snd mr) a) l a).
Proof.
  revert a. induction l as [| [m r] l IH]; intros a; [apply keeps_refl |].
  simpl. eapply keeps_trans; [apply play_resume_keeps | apply IH].
Qed.

(** Draining empties [settled] and touches nothing else of the launch
    state. *)
Lemma drain_keeps (q : Queue) :
  building (drain q) = building q /\ settled (drain q) = []
  /\ applyingFilters (drain q) = applyingFilters q
  /\ _filters (drain q) = _filters q /\ seekTime (drain q) = seekTime q
  /\ rate (drain q) = rate q.
Proof.
  unfold drain.
  destruct (drain_from (settled q) (set_settled [] q))
    as (? & ? & ? & ? & ? & ?).
  repeat split; assumption.
Qed.

Lemma drain_nothing (q : Queue) : settled q = [] -> drain q = q.
Proof.
  intros H. unfold drain. rewrite H.
  destruct q; simpl in *; subst; reflexivity.
Qed.

(** [demux] either resolves at once, clearing [applyingFilters], or
    suspends on the probe. *)
Lemma demux_cases (E : Env) meta decoded (q : Queue) :
  let q' := demux E meta decoded q in
  rate q' = rate q
  /\ ((building q' = building q
       /\ (exists r, settled q' = settled q ++ [(meta, Some r)])
       /\ applyingFilters q' = false)
      \/ (building q' = building q ++ [AwaitProbe meta decoded]
          /\ settled q' = settled q
          /\ applyingFilters q' = applyingFilters q
          /\ _filters q' = _filters q /\ seekTime q' = seekTime q)).
Proof.
  unfold demux.
  destruct (negb (is_nil (_filters q)) || JS.truthy (Track.start meta));
    [| simpl; split; [reflexivity | right; repeat split]].
  set (q0 := set_shouldntCallFinish true q).
  assert (K0 : keeps q q0) by (repeat split).
  pose proof (state_position_keeps q0) as K1.
  destruct (state_position q0) as [p1 q1]. simpl in K1.
  assert (K01 := keeps_trans _ _ _ K0 K1).
  destruct (indexOf (Some "-ss") (_filters q1)) as [index|].
  - destruct K01 as (? & ? & ? & ? & ? & ?).
    simpl. split; [assumption | left]. repeat split; eauto.
    eexists. f_equal. eassumption.
  - destruct (JS.truthy p1).
    + pose proof (state_position_keeps q1) as K2.
      destruct (state_position q1) as [p2 q2]. simpl in K2.
      pose proof (state_position_keeps q2) as K3.
      destruct (state_position q2) as [p3 q3]. simpl in K3.
      destruct (keeps_trans _ _ _ K01 (keeps_trans _ _ _ K2 K3))
        as (? & ? & ? & ? & ? & ?).
      simpl. split; [assumption | left]. repeat split; eauto.
      eexists. f_equal. eassumption.
    + destruct K01 as (? & ? & ? & ? & ? & ?).
      destruct (JS.truthy (Track.start meta)); simpl;
        (split; [assumption | left]; repeat split; eauto;
         eexists; f_equal; eassumption).
Qed.

Lemma play_effect (E : Env) (q : Queue) :
  let q' := play E q in
  rate q' = rate q
  /\ (length (building q') <= S (length (building q)))%nat
  /\ (demuxes_now E q = false ->
      _filters q' = _filters q /\ seekTime q' = seekTime q
      /\ applyingFilters q' = applyingFilters q).
Proof.
  unfold play, demuxes_now.
  destruct (track q) as [meta|]; [| simpl; auto].
  set (decoded := decode E (Track.track meta)).
  destruct (JS.opt_str_truthy (TrackInfo.uri decoded)); [| simpl; auto].
  cbn [negb andb].
  destruct (String.eqb (TrackInfo.source decoded) "youtube") eqn:Hy.
  { apply String.eqb_eq in Hy. rewrite Hy. cbn [String.eqb Ascii.eqb Bool.eqb].
    destruct (negb (youtube (sources E))); simpl; rewrite ?length_app; simpl;
      repeat split; auto; lia. }
  destruct (String.eqb (TrackInfo.source decoded) "soundcloud") eqn:Hs.
  { apply String.eqb_eq in Hs. rewrite Hs. cbn [String.eqb Ascii.eqb Bool.eqb].
    destruct (negb (soundcloud (sources E))); simpl; rewrite ?length_app; simpl;
      repeat split; auto; lia. }
  destruct (String.eqb (TrackInfo.source decoded) "local") eqn:Hl.
  - destruct (local (sources E)); cbn [negb andb].
    + destruct (demux_cases E meta decoded q) as (Hr & [(Hb & _) | (Hb & _)]).
      * rewrite Hb. repeat split; auto; discriminate.
      * rewrite Hb, length_app. simpl. repeat split; auto; try lia; discriminate.
    + simpl. repeat split; auto.
  - destruct (negb (http (sources E))); simpl; rewrite ?length_app; simpl;
      repeat split; auto; lia.
Qed.


Lemma state_keeps (now : Z) (q : Queue) : keeps q (snd (state now q)).
Proof.
  pose proof (state_position_keeps q) as K.
  unfold state. destruct (state_position q). exact K.
Qed.


(** *** Re-arms and launches *)

Lemma play_fetches (E : Env) (q : Queue) (meta : Track.t) :
  track q = Some meta ->
  PlaybackSpec.fetches E meta = true ->
  play E q
  = add_building (AwaitStream meta (decode E (Track.track meta))) q.
Proof.
  unfold play, PlaybackSpec.fetches. intros -> H.
  destruct (JS.opt_str_truthy _); [| discriminate]. cbn [negb andb] in *.
  destruct (String.eqb _ "youtube"); [now rewrite H |].
  destruct (String.eqb _ "soundcloud"); [now rewrite H |].
  destruct (String.eqb _ "local"); [discriminate |].
  now rewrite H.
Qed.


(** [Queue.queue] on a queue that is not playing launches [play()] and
    leaves [applyingFilters] as it is. *)
Lemma queue_launches (E : Env) (t : Track.t) (q : Queue) :
  player q <> Playing ->
  PlaybackSpec.fetches E t = true ->
  queue E t q
  = add_building (AwaitStream t (decode E (Track.track t)))
      (set_initial true (set_seekTime 0 (set_track (Some t) q))).
Proof.
  intros Hp Hf. unfold queue, replace. cbn [player set_track].
  assert (Hs : status_eqb (player q) Playing = false)
    by (destruct (player q); try reflexivity; congruence).
  rewrite Hs. unfold nextSong. cbn [track set_initial set_seekTime set_track].
  apply play_fetches; [reflexivity | exact Hf].
Qed.







Lemma demuxes_now_track (E : Env) (q q' : Queue) :
  track q' = track q -> demuxes_now E q' = demuxes_now E q.
Proof. unfold demuxes_now. now intros ->. Qed.

(** [play()] on a local file of an enabled source runs [demux] in the
    same go. *)
Lemma play_demuxes (E : Env) (q : Queue) :
  demuxes_now E q = true ->
  exists meta,
    track q = Some meta
    /\ play E q = demux E meta (decode E (Track.track meta)) q.
Proof.
  unfold demuxes_now, play. destruct (track q) as [meta|]; [| discriminate].
  intros H. exists meta. split; [reflexivity |].
  apply andb_prop in H. destruct H as (H & Hl).
  apply andb_prop in H. destruct H as (Hu & Hs).
  apply String.eqb_eq in Hs. rewrite Hu, Hs, Hl. reflexivity.
Qed.






(** *** Seeking *)

Lemma count_ss_app (a b : list Arg) :
  count_ss (a ++ b) = (count_ss a + count_ss b)%nat.
Proof. induction a as [| x a IH]; simpl; [reflexivity | rewrite IH; lia]. Qed.

Lemma indexOf_None (l : list Arg) :
  indexOf (Some "-ss") l = None -> count_ss l = O.
Proof.
  unfold indexOf. induction l as [| a l IH]; simpl; [reflexivity |].
  destruct (Arg_eqb a (Some "-ss")); [discriminate |].
  destruct (JS.indexOf Arg_eqb (Some "-ss") l); [discriminate |].
  intros _. now rewrite IH.
Qed.

Lemma indexOf_Some (l : list Arg) (i : nat) :
  indexOf (Some "-ss") l = Some i ->
  count_ss (firstn i l) = O
  /\ count_ss l = S (count_ss (skipn (S i) l)).
Proof.
  unfold indexOf. revert i. induction l as [| a l IH]; intros i; simpl;
    [discriminate |].
  destruct (Arg_eqb a (Some "-ss")) eqn:Ha.
  - intros [= <-]. simpl. auto.
  - destruct (JS.indexOf Arg_eqb (Some "-ss") l) as [j|]; [| discriminate].
    intros [= <-]. destruct (IH j eq_refl) as (H1 & H2).
    simpl. rewrite Ha, H1. simpl. auto.
Qed.

Lemma count_ss_tail (n : nat) (l : list Arg) :
  (count_ss (skipn (S n) l) <= count_ss (skipn n l))%nat.
Proof.
  revert l. induction n as [| n IH]; intros l.
  - destruct l as [| a l]; simpl; rewrite ?skipn_O; [lia |].
    destruct (Arg_eqb a (Some "-ss")); lia.
  - destruct l; [simpl; lia |]. apply (IH l).
Qed.

(** Whatever the number, [`${x}ms`] is not the token [-ss]. *)
Lemma ms_not_ss (s : string) : Arg_eqb (Some (s ++ "ms")%string) (Some "-ss") = false.
Proof.
  simpl. apply String.eqb_neq.
  destruct s as [| a [| b [| c s]]]; simpl; try discriminate.
  destruct s; discriminate.
Qed.

Lemma count_ss_tokens (E : Env) (x : float) : count_ss (ss_tokens E x) = 1%nat.
Proof. unfold ss_tokens. cbn [count_ss]. rewrite ms_not_ss. reflexivity. Qed.

(** The chain a seek leaves when it builds no pipeline itself. *)
Lemma seek_chain (E : Env) (amount : float) (q : Queue) :
  builds_at_once E q = false ->
  _filters (seek E amount q)
  = match indexOf (Some "-ss") (_filters q) with
    | Some previousIndex => JS.splice previousIndex 2 (_filters q)
    | None => _filters q
    end ++ ss_tokens E (JS.or_num amount 0).
Proof.
  intros Hb. unfold seek.
  match goal with
  | |- context [if applyingFilters ?x then _ else _] => set (q2 := x)
  end.
  assert (Hf : _filters q2
               = match indexOf (Some "-ss") (_filters q) with
                 | Some previousIndex => JS.splice previousIndex 2 (_filters q)
                 | None => _filters q
                 end ++ ss_tokens E (JS.or_num amount 0)).
  { subst q2. destruct (indexOf _ _); reflexivity. }
  assert (Ha : applyingFilters q2 = applyingFilters q).
  { subst q2. destruct (indexOf _ _); reflexivity. }
  assert (Ht : track q2 = track q).
  { subst q2. destruct (indexOf _ _); reflexivity. }
  rewrite <- Hf. cbn [_filters set_seekTime set_applyingFilters].
  rewrite Ha. unfold builds_at_once in Hb.
  destruct (applyingFilters q); [reflexivity |].
  simpl in Hb. rewrite <- (demuxes_now_track E q q2 Ht) in Hb.
  destruct (play_effect E q2) as (_ & _ & H). now destruct (H Hb).
Qed.

(** What [seek] keeps of the chain before it pushes its tokens. *)
Lemma seek_keeps (old : list Arg) :
  let kept :=
    match indexOf (Some "-ss") old with
    | Some previousIndex => JS.splice previousIndex 2 old
    | None => old
    end in
  without_entry old kept
  /\ ((count_ss old <= 1)%nat -> count_ss kept = O).
Proof.
  intros kept. subst kept. unfold without_entry.
  destruct (indexOf (Some "-ss") old) as [i|] eqn:Hi.
  - split.
    + exists (firstn 1 (skipn (i + 2) old)). split; [| now right].
      unfold JS.splice. f_equal.
      rewrite <- (firstn_skipn 1 (skipn (i + 2) old)) at 1.
      f_equal. rewrite List.skipn_skipn. f_equal. lia.
    + intros Hc. destruct (indexOf_Some _ _ Hi) as (H1 & H2).
      unfold JS.splice. rewrite count_ss_app, H1.
      replace (i + 2)%nat with (S (S i)) by lia.
      pose proof (count_ss_tail (S i) old). lia.
  - split; [reflexivity |]. intros _. now apply indexOf_None.
Qed.

Lemma count_ss_O (l : list Arg) :
  count_ss l = O -> indexOf (Some "-ss") l = None.
Proof.
  unfold indexOf. induction l as [| a l IH]; simpl; [reflexivity |].
  destruct (Arg_eqb a (Some "-ss")); [discriminate |].
  intros H. now rewrite IH.
Qed.

Lemma indexOf_app_here (x y : option string) (l r : list (option string)) :
  indexOf x l = None ->
  Arg_eqb y x = true ->
  indexOf x (l ++ y :: r) = Some (length l).
Proof.
  unfold indexOf. intros Hl Hy. induction l as [| a l IH]; simpl.
  - now rewrite Hy.
  - simpl in Hl. destruct (Arg_eqb a x); [discriminate |].
    destruct (JS.indexOf Arg_eqb x l); [discriminate |].
    now rewrite IH.
Qed.

Lemma skipn_length_app {A} (l r : list A) : skipn (length l) (l ++ r) = r.
Proof. induction l as [| a l IH]; [apply skipn_O | exact IH]. Qed.

Lemma firstn_length_app {A} (l r : list A) : firstn (length l) (l ++ r) = l.
Proof. induction l as [| a l IH]; simpl; [reflexivity | now rewrite IH]. Qed.

Lemma slice_entry {A} (l : list A) (a b : A) (r : list A) :
  JS.slice (length l) (length l + 2) (l ++ a :: b :: r) = [a; b].
Proof.
  unfold JS.slice. rewrite skipn_length_app.
  replace (length l + 2 - length l)%nat with 2%nat by lia. reflexivity.
Qed.

Lemma splice_entry {A} (l : list A) (a b c : A) :
  JS.splice (length l) 3 (l ++ [a; b; c]) = l.
Proof.
  unfold JS.splice. rewrite firstn_length_app.
  replace (length l + 3)%nat with (length (l ++ [a; b; c]))
    by (rewrite length_app; reflexivity).
  rewrite skipn_all. apply app_nil_r.
Qed.

(** [demux] on a chain that ends with a seek entry: the first two
    tokens of the entry go in front of the arguments and the entry
    leaves the chain. *)
Lemma demux_seek_entry (E : Env) meta decoded (q : Queue)
    (pre : list (option string)) (x y : option string) :
  _filters q = pre ++ [Some "-ss"; x; y] ->
  indexOf (Some "-ss") pre = None ->
  demux E meta decoded q
  = settle meta
      (Some {| ffmpegArgs := Some ([Some "-ss"; x] ++ ffmpeg_base ++ PlaybackSpec.af pre);
               playbackDuration := 0; resourceVolume := 1;
               metadata := decoded |})
      (set_applyingFilters false
         (set_filters pre
            (snd (state_position (set_shouldntCallFinish true q))))).
Proof.
  intros Hf Hi.
  assert (Hnil : is_nil (_filters q) = false)
    by (rewrite Hf; destruct pre; reflexivity).
  unfold demux. rewrite Hnil. cbn [negb orb].
  pose proof (state_position_keeps (set_shouldntCallFinish true q))
    as (_ & _ & _ & Hk & _).
  destruct (state_position (set_shouldntCallFinish true q)) as [p1 q1].
  cbn [snd] in *. cbn [_filters set_shouldntCallFinish] in Hk.
  rewrite Hk, Hf.
  rewrite (indexOf_app_here (Some "-ss") (Some "-ss") pre [x; y] Hi eq_refl).
  rewrite slice_entry, splice_entry.
  cbn [_filters set_filters]. unfold PlaybackSpec.af.
  destruct pre as [| a pre]; cbn [is_nil].
  - now rewrite !app_nil_r.
  - rewrite <- !app_assoc. reflexivity.
Qed.

(** C3, as amended.  [seek(amount)] records [amount] as the seek time
    and sets [applyingFilters].  Its tokens [-ss <amount>ms
    -accurate_seek] are pushed at the end of the chain, in place of the
    [-ss] entry that was there: the old token and its value are removed
    and the other filters stay where they were.  Unless the call builds
    the pipeline in the same go, that is the chain it leaves, and a
    chain that held at most one [-ss] holds exactly one afterwards.
    When the call builds the pipeline in the same go (a local file, no
    re-arm under way), the new entry leaves the chain again and
    [-ss <amount>ms] opens the arguments of the transcoder. *)
Theorem seek_appends :
  forall (E : Env) (amount : float) (q : Queue),
    seekTime (seek E amount q) = amount
    /\ applyingFilters (seek E amount q) = true
    /\ (builds_at_once E q = false ->
        exists kept,
          without_entry (_filters q) kept
          /\ _filters (seek E amount q)
             = kept ++ ss_tokens E (JS.or_num amount 0)
          /\ ((count_ss (_filters q) <= 1)%nat ->
              count_ss (_filters (seek E amount q)) = 1%nat))
    /\ (builds_at_once E q = true ->
        (count_ss (_filters q) <= 1)%nat ->
        exists kept meta r,
          without_entry (_filters q) kept
          /\ _filters (seek E amount q) = kept
          /\ count_ss kept = O
          /\ settled (seek E amount q) = settled q ++ [(meta, Some r)]
          /\ ffmpegArgs r
             = Some ([Some "-ss";
                      Some (toString E (JS.or_num amount 0) ++ "ms")%string]
                     ++ ffmpeg_base ++ PlaybackSpec.af kept)).
Proof.
  intros E amount q.
  split; [reflexivity | split; [reflexivity | split]].
  - intros Hb. rewrite (seek_chain E amount q Hb).
    destruct (seek_keeps (_filters q)) as (Hk & Hc).
    eexists. split; [exact Hk |]. split; [reflexivity |].
    intros Hle. rewrite count_ss_app, count_ss_tokens, (Hc Hle). reflexivity.
  - intros Hb Hle. unfold builds_at_once in Hb.
    apply andb_prop in Hb. destruct Hb as (Ha & Hd).
    apply negb_true_iff in Ha.
    destruct (seek_keeps (_filters q)) as (Hk & Hc).
    specialize (Hc Hle).
    set (kept := match indexOf (Some "-ss") (_filters q) with
                 | Some previousIndex =>
                     JS.splice previousIndex 2 (_filters q)
                 | None => _filters q
                 end) in *.
    unfold seek.
    match goal with
    | |- context [if applyingFilters ?x then _ else _] => set (q2 := x)
    end.
    assert (H2 : applyingFilters q2 = false /\ track q2 = track q
                 /\ settled q2 = settled q
                 /\ _filters q2 = kept ++ ss_tokens E (JS.or_num amount 0)).
    { subst q2 kept. destruct (indexOf _ _); cbn; auto. }
    destruct H2 as (H2a & H2t & H2s & H2f). clearbody q2.
    rewrite <- (demuxes_now_track E q q2 H2t) in Hd.
    destruct (play_demuxes E q2 Hd) as (meta & _ & Hp).
    rewrite H2a, Hp.
    rewrite (demux_seek_entry E meta _ q2 kept _ _ H2f (count_ss_O _ Hc)).
    pose proof (state_position_keeps (set_shouldntCallFinish true q2))
      as (_ & Hs & _).
    cbn [settled set_shouldntCallFinish] in Hs.
    exists kept, meta. eexists. split; [exact Hk |].
    unfold settle.
    cbn [_filters settled set_seekTime set_applyingFilters set_settled
         set_filters].
    rewrite Hs, H2s. repeat split. exact Hc.
Qed.


Lemma get_set {V} (k : string) (v : V) (m : JS.Map V) :
  JS.get k (JS.set k v m) = Some v.
Proof.
  induction m as [| [k' v'] m IH]; simpl.
  - now rewrite String.eqb_refl.
  - destruct (String.eqb k' k) eqn:H; simpl.
    + now rewrite String.eqb_refl.
    + now rewrite H.
Qed.

(** C9, as amended.  A SEEK command for a room the worker has a queue
    for records the requested position as it is, whatever the length
    of the track: it becomes the seek time, and, unless the call
    builds the pipeline in the same go, its tokens
    [-ss <position>ms -accurate_seek] end the filter chain. *)
Theorem seek_unclamped :
  forall (E : Env) (packet : Packet.t) (w : t) (position : float) (q : Queue),
    Packet.command packet = SEEK position ->
    JS.get (key_of (Packet.clientID packet) (Packet.guildId packet))
      (queues w) = Some q ->
    exists q',
      JS.get (key_of (Packet.clientID packet) (Packet.guildId packet))
        (queues (on_message E packet w)) = Some q'
      /\ seekTime q' = position
      /\ (builds_at_once E q = false ->
          exists kept,
            _filters q' = kept ++ ss_tokens E (JS.or_num position 0)).
Proof.
  intros E packet w position q Hc Hq.
  unfold on_message. rewrite Hc. unfold call. rewrite Hq.
  unfold commit. cbn [queues]. rewrite get_set.
  eexists. split; [reflexivity |].
  destruct (drain_keeps (seek E position q)) as (_ & _ & _ & Hf & Hs & _).
  cbn [seekTime _filters set_posted]. rewrite Hs, Hf.
  split; [reflexivity |].
  intros Hb. rewrite (seek_chain E position q Hb). eauto.
Qed.

(** *** Filters *)

Lemma equalizer_throws (E : Env) (spec : FilterSpec.t) eq rest :
  FilterSpec.equalizer spec = Some (eq :: rest) ->
  equalizer_args E spec = JS.Throw "TypeError".
Proof. unfold equalizer_args. intros ->. reflexivity. Qed.

Lemma filters_throws (E : Env) (spec : FilterSpec.t) (q : Queue) eq rest :
  FilterSpec.equalizer spec = Some (eq :: rest) ->
  filters E spec q = Threw (set_filters [] q) "TypeError".
Proof.
  intros H. unfold filters.
  now rewrite (equalizer_throws E spec eq rest H).
Qed.

(** C7.  What the code does where the claim expects fifteen equalizer
    expressions: for a FilterSpec whose equalizer is a non-empty array,
    [filters] throws a [TypeError] in the search for the first band,
    having emptied the chain; no equalizer expression is assembled and
    no [play()] is launched. *)
Theorem filters_equalizer_throws :
  forall (E : Env) (spec : FilterSpec.t) (q : Queue) eq rest,
    FilterSpec.equalizer spec = Some (eq :: rest) ->
    filters E spec q = Threw (set_filters [] q) "TypeError"
    /\ _filters (completion_queue (filters E spec q)) = []
    /\ building (completion_queue (filters E spec q)) = building q
    /\ settled (completion_queue (filters E spec q)) = settled q.
Proof.
  intros E spec q eq rest H.
  rewrite (filters_throws E spec q eq rest H). repeat split.
Qed.

(** C8.  For a FilterSpec with a timescale, the expression is
    [aresample=48000,asetrate=48000*<pitch + (1 - rate)>,atempo=<speed
    + (1 - pitch)>,aresample=48000] with rate, pitch and speed
    defaulting to 1.  When the equalizer is absent or empty, [filters]
    returns, the rate of the queue is the speed, and, unless the call
    builds the pipeline in the same go, the expression is in the chain.
    When the equalizer is a non-empty array, [filters] throws before it
    reaches the timescale: the rate is not stored and nothing is
    emitted. *)
Theorem filters_timescale :
  forall (E : Env) (spec : FilterSpec.t) (q : Queue) ts,
    FilterSpec.timescale spec = Some ts ->
    let rate_ := JS.opt_or (FilterSpec.rate ts) 1 in
    let pitch := JS.opt_or (FilterSpec.pitch ts) 1 in
    let speed := JS.opt_or (FilterSpec.speed ts) 1 in
    timescale_expr E ts
    = ("aresample=48000,asetrate=48000*"
       ++ toString E (pitch + (1 - rate_))
       ++ ",atempo=" ++ toString E (speed + (1 - pitch))
       ++ ",aresample=48000")%string
    /\ match FilterSpec.equalizer spec with
       | Some (_ :: _) =>
           filters E spec q = Threw (set_filters [] q) "TypeError"
       | _ =>
           exists q',
             filters E spec q = Returned q'
             /\ rate q' = speed
             /\ (builds_at_once E q = false ->
                 In (Some (timescale_expr E ts)) (_filters q'))
       end.
Proof.
  intros E spec q ts Hts rate_ pitch speed. split; [reflexivity |].
  destruct (FilterSpec.equalizer spec) as [[| eq rest] |] eqn:He;
    try (apply (filters_throws E spec q eq rest He)).
  all: unfold filters, equalizer_args; rewrite He, Hts.
  all: match goal with
       | |- context [if applyingFilters ?x then _ else _] => set (q3 := x)
       end.
  all: eexists; split; [reflexivity |].
  all: assert (Hin : In (Some (timescale_expr E ts)) (_filters q3))
         by (subst q3; cbn [_filters set_filters set_rate opt_arg];
             rewrite !in_app_iff; simpl; tauto).
  all: destruct (play_effect E q3) as (Hr & _ & Hk).
  all: cbn [rate set_applyingFilters _filters].
  all: split;
    [ destruct (applyingFilters q3); [| rewrite Hr]; reflexivity |].
  all: unfold builds_at_once; intros Hb.
  all: change (applyingFilters q3) with (applyingFilters q) in *.
  all: destruct (applyingFilters q); [exact Hin |].
  all: simpl in Hb;
    rewrite <- (demuxes_now_track E q q3 eq_refl) in Hb.
  all: destruct (Hk Hb) as (-> & _); exact Hin.
Qed.

End WorkerFacts.

(** ** Properties of the gateway *)

Module GatewayFacts.
Import Gateway GatewaySpec.

Lemma replay_wire (s : Socket) (evs : list Worker.Data) (g : t) :
  let g' := fold_left (fun a event => send s event a) evs g in
  wire g' = wire g ++ List.map (pair s) evs
  /\ timers g' = timers g
  /\ socketDeleteTimeouts g' = socketDeleteTimeouts g
  /\ connections g' = connections g
  /\ playerMap g' = playerMap g.
Proof.
  revert g. induction evs as [| e evs IH]; intros g; simpl.
  - rewrite app_nil_r. repeat split.
  - destruct (IH (send s e g)) as (Hw & Ht & Hs & Hc & Hp).
    rewrite Hw, Ht, Hs, Hc, Hp. simpl. rewrite <- app_assoc.
    repeat split.
Qed.

Lemma sent_on_app (s : Socket) (g g' : t) (evs : list Worker.Data) :
  wire g' = wire g ++ List.map (pair s) evs ->
  sent_on s g' = sent_on s g ++ evs.
Proof.
  unfold sent_on. intros ->.
  rewrite List.filter_app, List.map_app. f_equal.
  induction evs as [| e evs IH]; simpl; [reflexivity |].
  rewrite Nat.eqb_refl. simpl. now rewrite IH.
Qed.

Lemma cleared (tm : Timer) (g : t) : ~ In tm (timers (clearTimeout tm g)).
Proof.
  unfold clearTimeout. simpl. rewrite List.filter_In.
  intros (_ & H). now rewrite Nat.eqb_refl in H.
Qed.

Lemma str_truthy_true (k : string) : k <> "" -> JS.str_truthy k = true.
Proof.
  intros H. unfold JS.str_truthy.
  destruct (String.eqb k "") eqn:Hk; [| reflexivity].
  apply String.eqb_eq in Hk. contradiction.
Qed.

(** An accepted upgrade runs the callback on the state the headers
    were computed in. *)
Lemma on_upgrade_accepted password request s g g' headers :
  on_upgrade password request s g = (g', Upgraded headers) ->
  exists userID,
    user_id request = Some userID
    /\ g' = on_upgraded userID request s g
    /\ headers = on_headers request g.
Proof.
  unfold on_upgrade.
  destruct (user_id request) as [userID|]; [| discriminate].
  destruct (_ || _); [discriminate |].
  intros [= <- <-]. eauto.
Qed.

(** C5.  An accepted upgrade whose Resume-Key names an existing
    buffer cancels the timer of the buffer, removes the buffer, sends
    every buffered event on the new socket, in the order of the
    buffer and right after what that socket had carried before
    (nothing, for a new socket), and answers [Session-Resumed: true].
    An accepted upgrade that carries no Resume-Key, an empty one, or
    one under which no buffer is stored answers [Session-Resumed:
    false], sends nothing, cancels nothing and leaves the buffers as
    they are. *)
Theorem resume_replays :
  forall (password : option string) (request : Request) (s : Socket) (g : t),
    (forall key resume headers g',
        resume_key request = Some key ->
        key <> "" ->
        socketDeleteTimeouts g !! key = Some resume ->
        on_upgrade password request s g = (g', Upgraded headers) ->
        ~ In (timeout resume) (timers g')
        /\ socketDeleteTimeouts g' !! key = None
        /\ wire g' = wire g ++ List.map (pair s) (events resume)
        /\ sent_on s g' = sent_on s g ++ events resume
        /\ headers = ["Session-Resumed: true"; "Lavalink-Major-Version: 3";
                      "Is-Volcano: true"])
    /\ (forall headers g',
          match resume_key request with
          | Some key => key = "" \/ socketDeleteTimeouts g !! key = None
          | None => True
          end ->
          on_upgrade password request s g = (g', Upgraded headers) ->
          headers = ["Session-Resumed: false"; "Lavalink-Major-Version: 3";
                     "Is-Volcano: true"]
          /\ wire g' = wire g
          /\ timers g' = timers g
          /\ socketDeleteTimeouts g' = socketDeleteTimeouts g).
Proof.
  intros password request s g. split.
  - intros key resume headers g' Hk Hne Hb Hup.
    destruct (on_upgrade_accepted _ _ _ _ _ _ Hup) as (userID & _ & -> & ->).
    unfold on_upgraded, on_headers, resumable.
    rewrite Hk, (str_truthy_true key Hne), Hb. cbn [andb].
    match goal with
    | |- context [fold_left _ _ ?x] => set (g3 := x)
    end.
    destruct (replay_wire s (events resume) g3) as (Hw & Ht & Hs & _).
    assert (Hw3 : wire g3 = wire g) by reflexivity.
    rewrite Hw3 in Hw.
    split; [| split; [| split; [| split]]].
    + rewrite Ht. apply (cleared (timeout resume) g).
    + rewrite Hs. subst g3. cbn [socketDeleteTimeouts set_connections
        set_socketDeleteTimeouts clearTimeout set_timers].
      apply lookup_delete_eq.
    + exact Hw.
    + apply sent_on_app. exact Hw.
    + reflexivity.
  - intros headers g' Hno Hup.
    destruct (on_upgrade_accepted _ _ _ _ _ _ Hup) as (userID & _ & -> & ->).
    unfold on_headers, on_upgraded, resumable.
    destruct (resume_key request) as [key|]; [| repeat split].
    destruct Hno as [-> | ->]; [repeat split |].
    destruct (JS.str_truthy key); repeat split.
Qed.

(** *** The outbound relay *)

(** C6.  What the code does where the claim expects either the buffer
    or the send.  An event of a worker whose socket is found in
    [playerMap] is sent on that socket in every case.  The buffer is
    chosen by the first record of the connection list that holds the
    socket, whether or not that record is the connection of the socket:
    when the resume key of that record names an active buffer the event
    is appended to it as well, and no buffer changes otherwise. *)
Theorem relay_sends_and_buffers :
  forall (clientID : string) (data : Worker.Data) (g : t) (s : Socket)
         (c : Connection) (rest : list Connection),
    playerMap g !! Worker.key_of clientID (Worker.guildId_of data) = Some s ->
    List.find (fun i => existsb (socket_is (Some s)) i)
      (JS.values (connections g)) = Some (c :: rest) ->
    let g' := on_pool_message clientID data g in
    wire g' = wire g ++ [(s, data)]
    /\ socketDeleteTimeouts g'
       = match active_buffer c g with
         | Some (k, b) =>
             <[k := {| timeout := timeout b; events := events b ++ [data] |}]>
               (socketDeleteTimeouts g)
         | None => socketDeleteTimeouts g
         end.
Proof.
  intros clientID data g s c rest Hp Hf. unfold on_pool_message.
  rewrite Hp, Hf. cbn [List.find socket_truthy]. unfold active_buffer.
  destruct (resumeKey c) as [k|]; [| split; reflexivity].
  destruct (JS.str_truthy k); [| split; reflexivity].
  destruct (socketDeleteTimeouts g !! k) as [b|]; split; reflexivity.
Qed.

End GatewayFacts.

(** ** Properties of the routing *)

Module ServerFacts.
Import Server.

Section Routing.
Variable E : Env.
Variables (g userID tr : string) (msg : Play) (threadID : nat).

Let key := Worker.key_of userID g.
Let c := command_of tr msg.
Let t :=
  Worker.track_of tr (startTime msg) (endTime msg) (volume msg) (pause msg).
Let asked := Worker.on_message E (Pool.packet g userID c true threadID).
Let placed := Worker.on_message E (Pool.packet g userID c false threadID).

Lemma asked_stranger (w : Worker.t) :
  JS.get key (Worker.queues w) = None ->
  asked w = Worker.postMessage (Worker.REPLY false threadID) w.
Proof.
  intros H. subst asked. unfold Worker.on_message. cbn.
  fold key. now rewrite H.
Qed.

Lemma asked_owner (w : Worker.t) (q : Worker.Queue) :
  JS.get key (Worker.queues w) = Some q ->
  JS.get key (Worker.queues (asked w))
  = Some (if noReplace msg
             && Worker.status_eqb (Worker.player q) Worker.Playing
          then q
          else Worker.set_posted [] (Worker.drain (Worker.queue E t q)))
  /\ exists rest,
      Worker.outbox (asked w)
      = Worker.outbox w ++ Worker.REPLY true threadID :: rest.
Proof.
  intros H. subst asked. unfold Worker.on_message. cbn.
  fold key. rewrite H. fold t.
  destruct (noReplace msg && _).
  - split; [exact H |]. exists []. reflexivity.
  - unfold Worker.commit. cbn. rewrite WorkerFacts.get_set.
    split; [reflexivity |]. rewrite <- app_assoc. eauto.
Qed.

(** On a queue that is not playing, [Queue.queue] stores the track,
    resets the seek time and calls [play()]. *)
Lemma queue_plays (q : Worker.Queue) :
  Worker.player q <> Worker.Playing ->
  Worker.queue E t q
  = Worker.play E
      (Worker.set_initial true
         (Worker.set_seekTime 0 (Worker.set_track (Some t) q))).
Proof.
  intros Hp. unfold Worker.queue, Worker.replace.
  cbn [Worker.player Worker.set_track].
  assert (Hs : Worker.status_eqb (Worker.player q) Worker.Playing = false)
    by (destruct (Worker.player q); try reflexivity; congruence).
  rewrite Hs. reflexivity.
Qed.

Lemma drain_track (q : Worker.Queue) :
  Worker.track (Worker.drain q) = Worker.track q.
Proof.
  unfold Worker.drain.
  change (Worker.track q) with (Worker.track (Worker.set_settled [] q)).
  generalize (Worker.set_settled [] q). generalize (Worker.settled q).
  intros l. induction l as [| [m r] l IH]; intros a; [reflexivity |].
  cbn [fold_left fst snd]. rewrite IH.
  unfold Worker.play_resume, Worker.volume, Worker.player_play.
  destruct r; [| reflexivity].
  WorkerFacts.split_cases; reflexivity.
Qed.

(** The queue a worker holds once it was handed a track that has to be
    fetched, on a queue that is not playing. *)
Lemma enqueued_fetched (q : Worker.Queue) :
  Worker.player q <> Worker.Playing ->
  PlaybackSpec.fetches E t = true ->
  ServerSpec.enqueued E t q
    (Worker.set_posted [] (Worker.drain (Worker.queue E t q))).
Proof.
  intros Hp Hf. unfold ServerSpec.enqueued.
  destruct (WorkerFacts.drain_keeps (Worker.queue E t q))
    as (Hb & _ & _ & _ & Hs & _).
  cbn [Worker.track Worker.seekTime Worker.building Worker.set_posted].
  rewrite drain_track, Hb, Hs.
  rewrite (WorkerFacts.queue_launches E t q Hp Hf).
  repeat split.
Qed.

Lemma skipn_own {A} (a b : list A) : skipn (length a) (a ++ b) = b.
Proof. induction a as [| x a IH]; [apply skipn_O | exact IH]. Qed.

Lemma reply_asked (w : Worker.t) :
  Pool.reply_of threadID w (asked w)
  = Some (JS.has key (Worker.queues w)).
Proof.
  unfold Pool.reply_of, JS.has.
  destruct (JS.get key (Worker.queues w)) as [q|] eqn:H.
  - destruct (asked_owner w q H) as (_ & rest & ->).
    rewrite skipn_own. cbn. now rewrite Nat.eqb_refl.
  - rewrite (asked_stranger w H). cbn.
    rewrite skipn_own. cbn. now rewrite Nat.eqb_refl.
Qed.

Lemma broadcast_replies (p : Pool.t) :
  snd (Pool.broadcast E g userID c threadID p)
  = List.map (fun w => Some (JS.has key (Worker.queues w))) p.
Proof.
  unfold Pool.broadcast. cbn [snd]. fold asked.
  induction p as [| w p IH]; [reflexivity |].
  cbn [List.map combine fst snd]. now rewrite reply_asked, IH.
Qed.

Lemma includes_true_has (p : Pool.t) :
  includes_true
    (List.map (fun w => Some (JS.has key (Worker.queues w))) p)
  = existsb (fun w => JS.has key (Worker.queues w)) p.
Proof.
  unfold includes_true. induction p as [| w p IH]; [reflexivity |].
  cbn [List.map existsb]. rewrite IH.
  now destruct (JS.has key (Worker.queues w)).
Qed.

(** The choice of the least loaded worker only looks at the loads. *)
Lemma least_loaded_from_map (f : Worker.t -> Worker.t) :
  (forall w, Pool.load (f w) = Pool.load w) ->
  forall ws i best,
    Pool.least_loaded_from i best (List.map f ws)
    = Pool.least_loaded_from i best ws.
Proof.
  intros Hf ws. induction ws as [| w ws IH]; intros i best; [reflexivity |].
  cbn [List.map Pool.least_loaded_from]. rewrite Hf. apply IH.
Qed.

Lemma least_loaded_from_lt ws :
  forall i best,
    (fst best < i)%nat ->
    (Pool.least_loaded_from i best ws < i + length ws)%nat.
Proof.
  induction ws as [| w ws IH]; intros i best Hb;
    cbn [Pool.least_loaded_from length]; [lia |].
  assert (Hn : (fst (if Nat.ltb (Pool.load w) (snd best)
                     then (i, Pool.load w) else best) < S i)%nat)
    by (destruct (Nat.ltb _ _); cbn [fst]; lia).
  specialize (IH _ _ Hn). lia.
Qed.

Lemma least_loaded_lt (p : Pool.t) (i : nat) :
  Pool.least_loaded p = Some i -> (i < length p)%nat.
Proof.
  destruct p as [| w p]; [discriminate |]. cbn. intros [= <-].
  pose proof (least_loaded_from_lt p 1 (O, Pool.load w)). cbn in H. lia.
Qed.

Lemma asked_strangers (p : Pool.t) :
  (forall w, In w p -> JS.get key (Worker.queues w) = None) ->
  List.map asked p
  = List.map (Worker.postMessage (Worker.REPLY false threadID)) p.
Proof.
  intros H. apply map_ext_in. intros w Hw. apply asked_stranger. auto.
Qed.

Lemma least_loaded_replied (p : Pool.t) :
  Pool.least_loaded
    (List.map (Worker.postMessage (Worker.REPLY false threadID)) p)
  = Pool.least_loaded p.
Proof.
  destruct p as [| w p]; [reflexivity |]. cbn [List.map Pool.least_loaded].
  now rewrite least_loaded_from_map.
Qed.

Lemma placed_stranger (w : Worker.t) :
  JS.get key (Worker.queues w) = None ->
  JS.get key (Worker.queues (placed w))
  = Some (Worker.set_posted []
            (Worker.drain (Worker.queue E t (Worker.new_Queue userID g)))).
Proof.
  intros H. subst placed. unfold Worker.on_message. cbn.
  fold key. rewrite H. fold t. unfold Worker.commit. cbn.
  apply WorkerFacts.get_set.
Qed.

Lemma no_owner (p : Pool.t) :
  (forall w, In w p -> JS.get key (Worker.queues w) = None) ->
  existsb (fun w => JS.has key (Worker.queues w)) p = false.
Proof.
  intros H. induction p as [| w p IH]; [reflexivity |].
  cbn [existsb]. unfold JS.has at 1.
  rewrite (H w (or_introl eq_refl)). apply IH.
  intros w' Hw'. apply H. now right.
Qed.

Lemma an_owner (p : Pool.t) (i : nat) (w : Worker.t) (q : Worker.Queue) :
  nth_error p i = Some w ->
  JS.get key (Worker.queues w) = Some q ->
  existsb (fun w => JS.has key (Worker.queues w)) p = true.
Proof.
  intros Hn Hq. apply existsb_exists. exists w.
  split; [eapply nth_error_In; eassumption |].
  unfold JS.has. now rewrite Hq.
Qed.

Lemma nth_error_replaced {A} (x : A) (l : list A) (i : nat) :
  (i < length l)%nat ->
  nth_error (firstn i l ++ [x] ++ skipn (S i) l) i = Some x
  /\ forall j, j <> i ->
       nth_error (firstn i l ++ [x] ++ skipn (S i) l) j = nth_error l j.
Proof.
  revert i. induction l as [| a l IH]; intros i Hi; [cbn in Hi; lia |].
  destruct i as [| i].
  - cbn. rewrite skipn_O. split; [reflexivity |].
    intros [| j] Hj; [congruence | reflexivity].
  - cbn in Hi. destruct (IH i ltac:(lia)) as (H1 & H2).
    cbn [firstn skipn app nth_error] in *. split; [exact H1 |].
    intros [| j] Hj; [reflexivity |]. cbn [nth_error]. apply H2. congruence.
Qed.

(** C4, as amended.  A PLAY with a room and a track is first
    broadcast.  A worker without a queue for the key replies [false], a
    worker with one replies [true].  An owner whose player is playing
    leaves its queue as it is when the command says [noReplace].  An
    owner whose player is not playing enqueues the track on its existing
    queue: the track is stored, the seek time is reset and [play()] is
    called; for a track that has to be fetched, the queue then holds the
    track and one more [play()] call, which waits for the stream.  When
    no worker owns the key the message is executed on the least loaded
    worker, which creates the queue and enqueues the track in the same
    way, the other workers keeping their queues.  The socket is recorded
    in [playerMap]. *)
Theorem play_routing (socket : Gateway.Socket) (sv : Server.t) :
  guildId msg = Some g ->
  track msg = Some tr ->
  g <> "" ->
  tr <> "" ->
  let sv' := on_play E socket userID msg threadID sv in
  pool sv'
  = (let '(p1, responses) :=
       Pool.broadcast E g userID c threadID (pool sv) in
     if negb (includes_true responses)
     then Pool.execute E g userID c threadID p1
     else p1)
  /\ snd (Pool.broadcast E g userID c threadID (pool sv))
     = List.map (fun w => Some (JS.has key (Worker.queues w))) (pool sv)
  /\ (forall i w q,
        nth_error (pool sv) i = Some w ->
        JS.get key (Worker.queues w) = Some q ->
        exists w',
          nth_error (pool sv') i = Some w'
          /\ (exists rest,
                Worker.outbox w'
                = Worker.outbox w ++ Worker.REPLY true threadID :: rest)
          /\ (noReplace msg = true ->
              Worker.player q = Worker.Playing ->
              JS.get key (Worker.queues w') = Some q)
          /\ (Worker.player q <> Worker.Playing ->
              exists q',
                JS.get key (Worker.queues w') = Some q'
                /\ q'
                   = Worker.set_posted []
                       (Worker.drain
                          (Worker.play E
                             (Worker.set_initial true
                                (Worker.set_seekTime 0
                                   (Worker.set_track (Some t) q)))))
                /\ (PlaybackSpec.fetches E t = true ->
                    ServerSpec.enqueued E t q q')))
  /\ ((forall w, In w (pool sv) -> JS.get key (Worker.queues w) = None) ->
      forall i,
        Pool.least_loaded (pool sv) = Some i ->
        exists w' q',
          nth_error (pool sv') i = Some w'
          /\ JS.get key (Worker.queues w') = Some q'
          /\ q'
             = Worker.set_posted []
                 (Worker.drain
                    (Worker.queue E t (Worker.new_Queue userID g)))
          /\ (PlaybackSpec.fetches E t = true ->
              ServerSpec.enqueued E t (Worker.new_Queue userID g) q')
          /\ forall j w,
               j <> i ->
               nth_error (pool sv) j = Some w ->
               exists w'',
                 nth_error (pool sv') j = Some w''
                 /\ Worker.queues w'' = Worker.queues w)
  /\ Gateway.playerMap (gateway sv') !! key = Some socket.
Proof.
  intros Hg Htr Hgne Htrne sv'.
  split.
  { subst sv'. unfold on_play. rewrite Hg, Htr.
    rewrite !GatewayFacts.str_truthy_true by assumption. cbn [negb orb].
    fold c. destruct (Pool.broadcast E g userID c threadID (pool sv)).
    reflexivity. }
  split; [apply broadcast_replies |].
  assert (Hsv :
    pool sv'
    = if negb (existsb (fun w => JS.has key (Worker.queues w)) (pool sv))
      then Pool.execute E g userID c threadID (List.map asked (pool sv))
      else List.map asked (pool sv)).
  { subst sv'. unfold on_play. rewrite Hg, Htr.
    rewrite !GatewayFacts.str_truthy_true by assumption. cbn [negb orb].
    pose proof (broadcast_replies (pool sv)) as Hr.
    unfold Pool.broadcast in *. cbn [snd] in Hr. fold c. rewrite Hr.
    rewrite includes_true_has. cbn [pool]. reflexivity. }
  split; [| split].
  - intros i w q Hn Hq. rewrite Hsv, (an_owner _ i w q Hn Hq). cbn [negb].
    exists (asked w). split; [now apply map_nth_error |].
    destruct (asked_owner w q Hq) as (Hget & Hout).
    split; [exact Hout |]. split.
    + intros Hno Hp. rewrite Hget, Hno, Hp. reflexivity.
    + intros Hp.
      assert (Hs : Worker.status_eqb (Worker.player q) Worker.Playing = false)
        by (destruct (Worker.player q); try reflexivity; congruence).
      rewrite Hs, andb_false_r in Hget.
      eexists. split; [exact Hget |].
      split; [now rewrite (queue_plays q Hp) |].
      intros Hf. now apply enqueued_fetched.
  - intros Hnone i Hi. rewrite Hsv, (no_owner _ Hnone). cbn [negb].
    rewrite (asked_strangers _ Hnone).
    set (p1 := List.map (Worker.postMessage (Worker.REPLY false threadID))
                 (pool sv)).
    unfold Pool.execute. fold p1.
    assert (Hi1 : Pool.least_loaded p1 = Some i)
      by (subst p1; now rewrite least_loaded_replied).
    rewrite Hi1.
    pose proof (least_loaded_lt _ _ Hi) as Hlt.
    destruct (nth_error (pool sv) i) as [wi|] eqn:Hwi;
      [| apply nth_error_None in Hwi; lia].
    assert (Hp1 : nth_error p1 i
                  = Some (Worker.postMessage
                            (Worker.REPLY false threadID) wi))
      by (subst p1; now apply map_nth_error).
    rewrite Hp1. fold placed.
    assert (Hlt1 : (i < length p1)%nat)
      by (subst p1; now rewrite length_map).
    destruct (nth_error_replaced
                (placed (Worker.postMessage
                           (Worker.REPLY false threadID) wi)) p1 i Hlt1)
      as (H1 & H2).
    eexists. eexists. split; [exact H1 |]. split; [| split; [| split]].
    + apply placed_stranger. cbn [Worker.queues Worker.postMessage].
      apply Hnone. eapply nth_error_In; eassumption.
    + reflexivity.
    + intros Hf. apply enqueued_fetched; [discriminate | exact Hf].
    + intros j w Hj Hw. rewrite (H2 j Hj).
      exists (Worker.postMessage (Worker.REPLY false threadID) w).
      split; [subst p1; now apply map_nth_error | reflexivity].
  - subst sv'. unfold on_play. rewrite Hg, Htr.
    rewrite !GatewayFacts.str_truthy_true by assumption. cbn [negb orb].
    destruct (Pool.broadcast _ _ _ _ _ _). cbn [gateway Gateway.playerMap
      Gateway.set_playerMap]. apply lookup_insert_eq.
Qed.

End Routing.

End ServerFacts.

(** ** Properties of [/decodetracks] *)

Module RestFacts.
Import Rest.

Lemma info_has_bigint (d : TrackInfo.t) :
  has_bigint (convertDecodedTrackToResponse d) = true.
Proof. reflexivity. Qed.

(** C10.  What the code does where the claim expects an info object.
    [convertDecodedTrackToResponse] reports [isSeekable] as the negation
    of the [isStream] of the decoded blob and copies [isStream], reading
    nothing else for either.  But the object also carries the [length]
    and the [position] of the blob, two bigints, and
    [JSON.stringify] throws on a bigint: for a query that names a blob,
    alone or in a list, the handler throws a [TypeError] and sends
    nothing.  The only body it ever sends is the empty list. *)
Theorem decoded_seekable :
  forall (dec : string -> TrackInfo.t),
    (forall d : TrackInfo.t,
        field "isSeekable" (convertDecodedTrackToResponse d)
        = Some (VBool (negb (TrackInfo.isStream d)))
        /\ field "isStream" (convertDecodedTrackToResponse d)
           = Some (VBool (TrackInfo.isStream d)))
    /\ (forall i : string,
          i <> "" -> decodetracks dec (Some (One i)) = Threw "TypeError")
    /\ (forall (i : string) (l : list string),
          decodetracks dec (Some (Many (i :: l))) = Threw "TypeError")
    /\ (forall (track : option TrackQuery) (body : Value),
          decodetracks dec track = Sent body -> body = VArray []).
Proof.
  intros dec.
  assert (Hone : forall i,
             respond (convertDecodedTrackToResponse (dec i))
             = Threw "TypeError").
  { intros i. unfold respond, JSON_stringify.
    now rewrite info_has_bigint. }
  assert (Hmany : forall i l,
             decodetracks dec (Some (Many (i :: l))) = Threw "TypeError").
  { intros i l. unfold decodetracks, respond, JSON_stringify.
    cbn [List.map has_bigint snd].
    rewrite info_has_bigint. reflexivity. }
  split; [| split; [| split]].
  - intros d. split; reflexivity.
  - intros i Hi. unfold decodetracks.
    rewrite (GatewayFacts.str_truthy_true i Hi). apply Hone.
  - exact Hmany.
  - intros [[i | [| i l]] |] body.
    + cbn [decodetracks].
      destruct (JS.str_truthy i); [rewrite Hone |]; discriminate.
    + cbn. now intros [= <-].
    + rewrite Hmany. discriminate.
    + discriminate.
Qed.

End RestFacts.

(** ** The statements on the scenarios *)

Module Examples.
Import Scenario.

Lemma position_reported_witness :
  snd (Worker.state 0 past_end) = Worker.stop true past_end
  /\ Worker.player (Worker.stop true past_end) = Worker.Idle
  /\ Worker.posted (Worker.stop true past_end) = Worker.posted past_end.
Proof.
  destruct (WorkerFacts.position_reported 0 past_end) as (_ & H & _).
  apply (H short_track); [reflexivity | vm_compute; reflexivity
                         | vm_compute; reflexivity].
Defined.

(** The product is the one of binary64 numbers: a hundred milliseconds
    at the rate 1.15 are reported as 114, and ten at the rate 0.7
    as 7. *)
Example position_rounds :
  Worker.position
    (fst (Worker.state 0 (Worker.set_rate 1.15 (played 100 playing))))
  = 114%float
  /\ Worker.position
       (fst (Worker.state 0 (Worker.set_rate 0.7 (played 10 playing))))
     = 7%float.
Proof. split; vm_compute; reflexivity. Qed.



(** The seek of the claim fails on a chain that holds a filter: the
    tokens come after it, not before.  On a queue that plays a local
    file the chain holds no [-ss] after the seek, and a chain that held
    two holds two. *)
Lemma seek_not_prepended :
  ~ WorkerSpec.seek_as_claimed env 5 filtered
  /\ WorkerSpec.count_ss (Worker._filters (Worker.seek env 5 local_playing))
     = 0%nat
  /\ WorkerSpec.count_ss (Worker._filters (Worker.seek env 5 doubled))
     = 2%nat.
Proof.
  split; [| split; vm_compute; reflexivity].
  intros (H & _). vm_compute in H. discriminate H.
Qed.

Lemma seek_appends_witness :
  Worker.seekTime (Worker.seek env 5 filtered) = 5%float
  /\ Worker._filters (Worker.seek env 5 filtered)
     = [Some "volume=2"] ++ Worker.ss_tokens env 5
  /\ WorkerSpec.count_ss (Worker._filters (Worker.seek env 5 filtered))
     = 1%nat
  /\ Worker._filters (Worker.seek env 5 local_playing) = [].
Proof.
  destruct (WorkerFacts.seek_appends env 5 filtered) as (Hs & _ & H & _).
  destruct (WorkerFacts.seek_appends env 5 local_playing) as (_ & _ & _ & H').
  split; [exact Hs |].
  destruct (H eq_refl) as (kept & Hw & Hk & Hc).
  destruct (H' eq_refl) as (kept' & meta & r & Hw' & Hk' & _);
    [vm_compute; lia |].
  assert (Hi : Worker.indexOf (Some "-ss") (Worker._filters filtered) = None)
    by (vm_compute; reflexivity).
  assert (Hi' : Worker.indexOf (Some "-ss") (Worker._filters local_playing)
                = None)
    by (vm_compute; reflexivity).
  unfold WorkerSpec.without_entry in Hw, Hw'. rewrite Hi in Hw.
  rewrite Hi' in Hw'. subst kept kept'.
  split; [rewrite Hk; vm_compute; reflexivity | split].
  - apply Hc. vm_compute. lia.
  - rewrite Hk'. vm_compute. reflexivity.
Defined.

(** A second seek leaves the [-accurate_seek] of the first in the
    chain. *)
Example second_seek :
  Worker._filters (Worker.seek env 7 (Worker.seek env 5 filtered))
  = [Some "volume=2"; Some "-accurate_seek"; Some "-ss"; Some "7ms";
     Some "-accurate_seek"].
Proof. vm_compute. reflexivity. Qed.

(** A seek to five seconds in a track of one second is recorded as
    five seconds. *)
Lemma seek_past_end_unclamped :
  ~ WorkerSpec.seek_clamps_as_claimed env (seek_packet 5000) (thread playing).
Proof.
  intros H.
  destruct (H 5000%float playing http_track eq_refl eq_refl eq_refl)
    as (q' & Hg & Hs); [vm_compute; reflexivity |].
  vm_compute in Hg. injection Hg as <-.
  vm_compute in Hs. exact (NumberFacts.float_neq 5000 1000 eq_refl Hs).
Qed.

Lemma seek_unclamped_witness :
  exists q',
    JS.get "42.100"
      (Worker.queues (Worker.on_message env (seek_packet 5000) (thread playing)))
    = Some q'
    /\ Worker.seekTime q' = 5000%float
    /\ exists kept,
        Worker._filters q' = kept ++ Worker.ss_tokens env (JS.or_num 5000 0).
Proof.
  destruct (WorkerFacts.seek_unclamped env (seek_packet 5000) (thread playing)
              5000 playing eq_refl eq_refl) as (q' & Hg & Hs & Hf).
  exists q'. split; [exact Hg | split; [exact Hs |]].
  apply Hf. reflexivity.
Defined.

Lemma filters_equalizer_throws_witness :
  Worker.filters env equalizer_spec playing
  = Worker.Threw (Worker.set_filters [] playing) "TypeError"
  /\ Worker._filters
       (Worker.completion_queue (Worker.filters env equalizer_spec playing))
     = [].
Proof.
  destruct (WorkerFacts.filters_equalizer_throws env equalizer_spec playing
              _ _ eq_refl) as (H1 & H2 & _).
  split; [exact H1 | exact H2].
Defined.

Lemma filters_timescale_witness :
  exists q',
    Worker.filters env timescale_spec playing = Worker.Returned q'
    /\ Worker.rate q' = 2%float
    /\ In (Some "aresample=48000,asetrate=48000*1,atempo=2,aresample=48000")
         (Worker._filters q').
Proof.
  destruct (WorkerFacts.filters_timescale env timescale_spec playing
              double_speed eq_refl) as (_ & H).
  cbn [FilterSpec.equalizer timescale_spec] in H.
  destruct H as (q' & Hr & Hrate & Hin).
  exists q'. split; [exact Hr | split; [exact Hrate |]].
  exact (Hin eq_refl).
Defined.

(** With an equalizer in the same request the timescale is lost: the
    call throws, the rate stays 1 and the chain is empty. *)
Example timescale_lost_after_equalizer :
  Worker.filters env equalizer_timescale_spec playing
  = Worker.Threw (Worker.set_filters [] playing) "TypeError"
  /\ Worker.rate
       (Worker.completion_queue
          (Worker.filters env equalizer_timescale_spec playing)) = 1%float.
Proof. split; reflexivity. Qed.

(** [Queue.queue] on a playing queue stops the player, whose listener
    clears the track before [nextSong] looks at it: the REPLACED event is
    posted and nothing is launched. *)
Example replace_while_playing :
  Worker.track (Worker.queue env http_track playing) = None
  /\ Worker.building (Worker.queue env http_track playing) = []
  /\ Worker.posted (Worker.queue env http_track playing)
     = [Worker.TrackEndEvent "100" Worker.REPLACED].
Proof. repeat split. Qed.

(** An owner that is playing keeps its queue, and the track it plays,
    on [noReplace]. *)
Lemma owner_skips_no_replace :
  ~ ServerSpec.owner_enqueues_as_claimed env "100" "42" "local"
      other_msg 0 1 busy_server.
Proof.
  intros H.
  destruct (H 0%nat (thread playing) playing eq_refl eq_refl)
    as (w' & q' & Hn & Hg & Ht).
  vm_compute in Hn. injection Hn as <-.
  vm_compute in Hg. injection Hg as <-.
  vm_compute in Ht. discriminate Ht.
Qed.

Lemma play_routing_witness :
  exists w' q',
    nth_error
      (Server.pool
         (Server.on_play env 1 "42" (play_msg false) 0 idle_server)) 0
    = Some w'
    /\ JS.get "42.100" (Worker.queues w') = Some q'
    /\ Worker.track q' = Some http_track
    /\ length (Worker.building q') = 1%nat.
Proof.
  destruct (ServerFacts.play_routing env "100" "42" "http" (play_msg false)
              0 1 idle_server eq_refl eq_refl)
    as (_ & _ & _ & H & _); [discriminate | discriminate |].
  assert (Hnone : forall w,
             In w (Server.pool idle_server) ->
             JS.get (Worker.key_of "42" "100") (Worker.queues w) = None)
    by (intros w [<- | [<- | []]]; reflexivity).
  destruct (H Hnone 0%nat eq_refl) as (w' & q' & Hn & Hg & _ & He & _).
  destruct (He eq_refl) as (Ht & _ & Hb).
  exists w', q'. split; [exact Hn | split; [exact Hg | split]].
  - exact Ht.
  - rewrite Hb. reflexivity.
Defined.

Lemma resume_replays_witness :
  ~ In 7%nat
      (Gateway.timers
         (fst (Gateway.on_upgrade None (hello (Some "k")) 3 alone_waiting)))
  /\ Gateway.sent_on 3
       (fst (Gateway.on_upgrade None (hello (Some "k")) 3 alone_waiting))
     = Gateway.sent_on 3 alone_waiting ++ [started]
  /\ snd (Gateway.on_upgrade None (hello (Some "k")) 3 alone_waiting)
     = Gateway.Upgraded
         ["Session-Resumed: true"; "Lavalink-Major-Version: 3";
          "Is-Volcano: true"]
  /\ snd (Gateway.on_upgrade None (hello (Some "other")) 3 alone_waiting)
     = Gateway.Upgraded
         ["Session-Resumed: false"; "Lavalink-Major-Version: 3";
          "Is-Volcano: true"].
Proof.
  destruct (GatewayFacts.resume_replays None (hello (Some "k")) 3 alone_waiting)
    as (H & _).
  destruct (GatewayFacts.resume_replays None (hello (Some "other")) 3
              alone_waiting) as (_ & H').
  destruct (H "k" {| Gateway.timeout := 7; Gateway.events := [started] |}
              ["Session-Resumed: true"; "Lavalink-Major-Version: 3";
               "Is-Volcano: true"]
              (fst (Gateway.on_upgrade None (hello (Some "k")) 3 alone_waiting)))
    as (Ht & _ & _ & Hs & _);
    [reflexivity | discriminate | vm_compute; reflexivity
    | vm_compute; reflexivity |].
  destruct (H' (Gateway.on_headers (hello (Some "other")) alone_waiting)
              (fst (Gateway.on_upgrade None (hello (Some "other")) 3
                      alone_waiting)))
    as (Hh & _); [right; vm_compute; reflexivity | vm_compute; reflexivity |].
  split; [exact Ht | split; [exact Hs | split]].
  - vm_compute. reflexivity.
  - change (snd (Gateway.on_upgrade None (hello (Some "other")) 3
                   alone_waiting))
      with (Gateway.Upgraded
              (Gateway.on_headers (hello (Some "other")) alone_waiting)).
    now rewrite Hh.
Defined.

(** With two connections of one client, an event of the room played
    on the open one is both appended to the buffer of the closed one
    and sent. *)
Example relay_buffers_and_sends :
  ~ GatewaySpec.relay_as_claimed "42" started two_connections.
Proof.
  intros H. apply (H 2%nat); [vm_compute; reflexivity |]. split.
  - exists "k", {| Gateway.timeout := 7; Gateway.events := [] |}.
    split; vm_compute; reflexivity.
  - split; [vm_compute; reflexivity |].
    vm_compute. intros [H1 | []]. discriminate H1.
Qed.

(** The failing input: the event of the room played on socket 2, which
    is open, is sent there and lands in the buffer of the connection
    that was on socket 1. *)
Lemma relay_sends_and_buffers_witness :
  Gateway.wire (Gateway.on_pool_message "42" started two_connections)
  = Gateway.wire two_connections ++ [(2%nat, started)]
  /\ Gateway.socketDeleteTimeouts
       (Gateway.on_pool_message "42" started two_connections) !! "k"
     = Some {| Gateway.timeout := 7; Gateway.events := [started] |}
  /\ ~ In 2%nat (Gateway.closed two_connections).
Proof.
  destruct (GatewayFacts.relay_sends_and_buffers "42" started two_connections
              2
              {| Gateway.socket := 1; Gateway.resumeKey := Some "k";
                 Gateway.resumeTimeout := 5 |}
              [Gateway.fresh_connection 2])
    as (Hw & Hb);
    [vm_compute; reflexivity | vm_compute; reflexivity |].
  split; [exact Hw | split].
  - rewrite Hb. vm_compute. reflexivity.
  - vm_compute. intros [H | []]. discriminate H.
Defined.

(** In the resume window of a single connection the event is appended
    to the buffer, and the send goes to the socket that has closed. *)
Example relay_in_resume_window :
  Gateway.wire (Gateway.on_pool_message "42" started alone_closed)
  = Gateway.wire alone_closed ++ [(1%nat, started)]
  /\ Gateway.socketDeleteTimeouts
       (Gateway.on_pool_message "42" started alone_closed) !! "k"
     = Some {| Gateway.timeout := 7; Gateway.events := [started] |}
  /\ In 1%nat (Gateway.closed alone_closed).
Proof. repeat split; vm_compute; auto. Qed.

(** The failing input: the blob of an HTTP stream, alone or listed. *)
Lemma decoded_seekable_witness :
  Rest.decodetracks Sample.decode_blob (Some (Rest.One "http"))
  = Rest.Threw "TypeError"
  /\ Rest.decodetracks Sample.decode_blob (Some (Rest.Many ["local"; "http"]))
     = Rest.Threw "TypeError".
Proof.
  destruct (RestFacts.decoded_seekable Sample.decode_blob)
    as (_ & H1 & H2 & _).
  split; [apply H1; discriminate | apply H2].
Defined.

End Examples.

(** ** Further properties of the queue *)

Module PlaybackFacts.
Import Worker WorkerSpec PlaybackSpec WorkerFacts.

(** *** Stopping *)

Lemma stop_idle (b : bool) (q : Queue) :
  player q = Idle ->
  stop b q
  = if b then set_stopping true q
    else post (TrackEndEvent (guildID q) STOPPED) (set_stopping true q).
Proof.
  intros H. unfold stop, player_stop. cbn [player set_stopping].
  rewrite H. destruct b; reflexivity.
Qed.

(** X1.  [stop] leaves the player idle and posts one TrackEndEvent, with
    the reason STOPPED, unless it is told not to post; it never posts
    FINISHED, and it posts also when nothing was playing.  A player that
    was not idle loses its track and its resource; for an idle player
    the track stays and [stopping] stays set.  The suspended [play()]
    calls are not touched. *)
Theorem stop_ends_once (b : bool) (q : Queue) :
  player (stop b q) = Idle
  /\ posted (stop b q)
     = posted q ++ (if b then [] else [TrackEndEvent (guildID q) STOPPED])
  /\ building (stop b q) = building q
  /\ (player q = Idle ->
      track (stop b q) = track q /\ current (stop b q) = current q
      /\ stopping (stop b q) = true)
  /\ (player q <> Idle ->
      track (stop b q) = None /\ current (stop b q) = None
      /\ stopping (stop b q) = false).
Proof.
  unfold stop, player_stop, player_enters, on_player_stateChange, post.
  destruct (player q) eqn:Hp, b; simpl; rewrite ?Hp; simpl;
    rewrite ?app_nil_r; repeat split; try congruence; intros []; reflexivity.
Qed.

(** What [play()] does with a resource when no re-arm is pending. *)
Lemma play_resume_plays meta (r : AudioResource) (q : Queue) :
  applyingFilters q = false ->
  let q' := play_resume meta (Some r) q in
  player q' = Buffering
  /\ (exists v,
        current q'
        = Some {| ffmpegArgs := ffmpegArgs r;
                  playbackDuration := playbackDuration r;
                  resourceVolume := v; metadata := metadata r |})
  /\ track q' = track q /\ keeps q q' /\ posted q' = posted q.
Proof.
  intros Ha. unfold play_resume. rewrite Ha.
  unfold volume, player_play.
  destruct (Track.pause meta); cbn;
    destruct (JS.truthy (Track.volume meta)
              && negb ((Track.volume meta =? 100)%float)); cbn;
    try destruct (negb ((_volume q =? 1)%float)); cbn;
    (split; [reflexivity |]);
    (split; [destruct r; eauto |]); repeat split.
Qed.

(** X2.  A STOP that arrives while the stream of a track is being
    fetched cancels nothing: the player is idle, so the track stays, and
    when the stream and the probe have answered the track is handed to
    the player. *)
Theorem stop_keeps_pending (E : Env) (q : Queue) meta decoded :
  player q = Idle ->
  building q = [AwaitStream meta decoded] ->
  settled q = [] ->
  applyingFilters q = false ->
  _filters q = [] ->
  JS.truthy (Track.start meta) = false ->
  let q1 := stop false q in
  let q' := probe_done 0 (stream_ready E 0 q1) in
  track q1 = track q
  /\ posted q1 = posted q ++ [TrackEndEvent (guildID q) STOPPED]
  /\ player q' = Buffering
  /\ (exists r, current q' = Some r /\ metadata r = decoded)
  /\ track q' = track q
  /\ building q' = [].
Proof.
  intros Hp Hb Hs Ha Hf Hst q1 q'. subst q1 q'.
  rewrite (stop_idle false q Hp).
  split; [reflexivity | split; [reflexivity |]].
  unfold stream_ready. cbn [building post set_posted set_stopping].
  rewrite Hb. cbn [nth_error JS.splice firstn skipn Nat.add app].
  unfold demux. cbn [_filters set_building post set_posted set_stopping].
  rewrite Hf, Hst. cbn [is_nil negb orb].
  rewrite WorkerFacts.drain_nothing by (cbn; exact Hs).
  unfold probe_done. cbn [building add_building set_building app].
  cbn [nth_error JS.splice firstn skipn Nat.add app].
  unfold drain, settle.
  cbn [settled set_settled set_building add_building post set_posted
       set_stopping].
  rewrite Hs. cbn [app fold_left fst snd].
  match goal with
  | |- context [play_resume meta (Some ?r) ?x] =>
      destruct (play_resume_plays meta r x) as (H1 & (v & H2) & H3 & H4 & _);
        [cbn; exact Ha |]
  end.
  split; [exact H1 |]. split; [rewrite H2; eexists; split; reflexivity |].
  split; [rewrite H3; reflexivity |].
  destruct H4 as (H4 & _). rewrite H4. reflexivity.
Qed.

(** *** Playing another track *)

(** X3.  [Queue.queue] on a queue whose player is playing stops the
    player, whose listener clears the track that was just stored, and
    posts a TrackEndEvent with the reason REPLACED; [nextSong] then finds
    no track and launches nothing.  On any other queue the track is
    stored and [play()] is launched, whether or not another [play()] is
    still waiting for its stream. *)
Theorem queue_replaces (E : Env) (t : Track.t) (q : Queue) :
  (player q = Playing ->
   let q' := queue E t q in
   track q' = None /\ current q' = None /\ player q' = Idle
   /\ building q' = building q /\ settled q' = settled q
   /\ posted q' = posted q ++ [TrackEndEvent (guildID q) REPLACED])
  /\ (player q <> Playing ->
      fetches E t = true ->
      queue E t q
      = add_building (AwaitStream t (decode E (Track.track t)))
          (set_initial true (set_seekTime 0 (set_track (Some t) q)))).
Proof.
  split.
  - intros Hp. unfold queue, replace. cbn [player set_track]. rewrite Hp.
    cbn [status_eqb]. unfold stop, player_stop, player_enters,
      on_player_stateChange, nextSong, post.
    cbn. rewrite Hp. cbn. repeat split.
  - intros Hp Hf. unfold queue, replace. cbn [player set_track].
    destruct (status_eqb (player q) Playing) eqn:Hs;
      [destruct (player q); try discriminate; congruence |].
    unfold nextSong. cbn [track set_initial set_seekTime set_track].
    apply WorkerFacts.play_fetches; [reflexivity | exact Hf].
Qed.

(** *** Pausing *)

(** X4.  Pausing a playing queue and resuming it brings the player back
    to playing with [paused] cleared; the player that starts again makes
    the queue post TrackStartEvent once more, unless it holds no track
    or is between a re-arm and the start of its resource. *)
Theorem pause_resume_round_trip (q : Queue) :
  player q = Playing ->
  trackPausing q = false ->
  player (pause q) = Paused /\ paused (pause q) = true
  /\ posted (pause q) = posted q
  /\ player (resume (pause q)) = Playing
  /\ paused (resume (pause q)) = false
  /\ posted (resume (pause q)) = posted q ++ start_event q
  /\ track (resume (pause q)) = track q
  /\ current (resume (pause q)) = current q.
Proof.
  intros Hp Ht.
  unfold resume, pause, player_pause, player_unpause, player_enters,
    on_player_stateChange, start_event, post.
  rewrite Hp. cbn. rewrite Ht. cbn.
  destruct (track q) as [t|] eqn:Htr; cbn;
    [destruct (negb (shouldntCallFinish q) || initial q); cbn |];
    rewrite ?app_nil_r; repeat split; assumption.
Qed.

Lemma get_set_other {V} (k k' : string) (v : V) (m : JS.Map V) :
  k' <> k -> JS.get k' (JS.set k v m) = JS.get k' m.
Proof.
  intros Hne. induction m as [| [k0 v0] m IH]; simpl.
  - destruct (String.eqb k k') eqn:H; [| reflexivity].
    apply String.eqb_eq in H. congruence.
  - destruct (String.eqb k0 k) eqn:H; simpl.
    + apply String.eqb_eq in H. subst k0.
      destruct (String.eqb k k') eqn:H'; [| reflexivity].
      apply String.eqb_eq in H'. congruence.
    + now rewrite IH.
Qed.

Lemma pause_frame (p : bool) (q : Queue) :
  let x := if p then pause q else resume q in
  guildID x = guildID q /\ clientID x = clientID q /\ current x = current q
  /\ seekTime x = seekTime q /\ rate x = rate q
  /\ connection x = connection q /\ settled x = settled q.
Proof.
  destruct p; cbn zeta.
  - unfold pause, player_pause.
    destruct (status_eqb (player q) Playing); repeat split.
  - unfold resume, player_unpause.
    destruct (status_eqb (player q) Paused); [| repeat split].
    unfold player_enters, on_player_stateChange, pause, player_pause, post.
    cbn. destruct (trackPausing q); cbn;
      destruct (track q); cbn;
      try destruct (negb (shouldntCallFinish q) || initial q); cbn;
      repeat split.
Qed.

(** X5.  After a PAUSE command the flag [paused] of the queue tells
    whether the player was playing when asked to pause, and, when asked
    to resume, whether the player was anything but paused: a resume sent
    to a queue that is not paused marks it paused.  The heartbeat posts
    a playerUpdate for the queue exactly when the flag is clear. *)
Theorem pause_command_flag (E : Env) (packet : Packet.t) (w : t)
    (p : bool) (q : Queue) :
  Packet.command packet = PAUSE p ->
  JS.get (key_of (Packet.clientID packet) (Packet.guildId packet)) (queues w)
  = Some q ->
  settled q = [] ->
  exists q',
    JS.get (key_of (Packet.clientID packet) (Packet.guildId packet))
      (queues (on_message E packet w)) = Some q'
    /\ paused q'
       = (if p then status_eqb (player q) Playing
          else negb (status_eqb (player q) Paused))
    /\ forall now,
         heartbeat now q'
         = if paused q' then []
           else [MESSAGE
                   (PLAYER_UPDATE (guildID q)
                      {| time := now;
                         position :=
                           JS.floor ((duration q + seekTime q) * rate q);
                         connected := connection_eqb (connection q) Ready |})
                   (clientID q)].
Proof.
  intros Hc Hq Hs. unfold on_message. rewrite Hc. unfold call. rewrite Hq.
  unfold commit. cbn [queues]. rewrite WorkerFacts.get_set.
  eexists. split; [reflexivity |].
  set (x := if p then pause q else resume q).
  destruct (pause_frame p q) as (Hf1 & Hf2 & Hf3 & Hf4 & Hf5 & Hf6 & Hf7).
  fold x in Hf1, Hf2, Hf3, Hf4, Hf5, Hf6, Hf7.
  rewrite WorkerFacts.drain_nothing by congruence.
  split.
  - subst x. cbn [paused set_posted].
    destruct p; unfold pause, resume, player_pause, player_unpause.
    + destruct (status_eqb (player q) Playing); reflexivity.
    + destruct (status_eqb (player q) Paused); reflexivity.
  - intros now. unfold heartbeat, duration.
    cbn [posted paused guildID clientID current seekTime rate connection
         set_posted List.map app].
    now rewrite Hf1, Hf2, Hf3, Hf4, Hf5, Hf6.
Qed.

(** *** The pipeline a re-arm builds *)

Lemma state_position_here (q : Queue) :
  at_end q = false -> state_position q = (position_of q, q).
Proof.
  unfold at_end, state_position.
  destruct (track q) as [t|]; [| reflexivity]. now intros ->.
Qed.

(** [demux] in the middle of a track, on a chain without a seek entry:
    the pipeline starts two seconds past the position. *)
Lemma demux_mid_track (E : Env) meta decoded (q : Queue) :
  _filters q <> [] ->
  indexOf (Some "-ss") (_filters q) = None ->
  JS.truthy (position_of q) = true ->
  at_end q = false ->
  demux E meta decoded q
  = settle meta
      (Some {| ffmpegArgs :=
                 Some (ss_tokens E (position_of q + 2000) ++ ffmpeg_base
                       ++ af (_filters q));
               playbackDuration := 0; resourceVolume := 1;
               metadata := decoded |})
      (set_applyingFilters false
         (set_seekTime (position_of q + 2000)
            (set_shouldntCallFinish true q))).
Proof.
  intros Hne Hi Hp He.
  assert (Hnil : is_nil (_filters q) = false)
    by (destruct (_filters q); [congruence | reflexivity]).
  assert (Hs : state_position (set_shouldntCallFinish true q)
               = (position_of q, set_shouldntCallFinish true q))
    by (apply (state_position_here (set_shouldntCallFinish true q)); exact He).
  unfold demux. rewrite Hnil. cbn [negb orb]. rewrite Hs.
  cbn [_filters set_shouldntCallFinish]. rewrite Hi, Hp, !Hs.
  cbn [_filters set_seekTime set_shouldntCallFinish]. rewrite Hnil.
  unfold af. rewrite Hnil, <- !app_assoc. reflexivity.
Qed.

(** X6.  A seek on a queue that is not re-arming, whose track has to be
    fetched and whose chain holds no seek entry: once the stream has
    arrived, the player is given a resource whose transcoder starts
    with [-ss <amount>ms], followed by the fixed arguments and, behind
    [-af], the chain as it was before the seek; the seek entry has left
    the chain, [applyingFilters] is clear again, and the position the
    queue reports is [Math.floor((0 + amount) * rate)], the sum and the
    product being those of binary64 numbers. *)
Theorem seek_restarts (E : Env) (q : Queue) (meta : Track.t) (amount : float) :
  track q = Some meta ->
  fetches E meta = true ->
  applyingFilters q = false ->
  building q = [] ->
  settled q = [] ->
  indexOf (Some "-ss") (_filters q) = None ->
  let q' := stream_ready E 0 (drain (seek E amount q)) in
  transcoder q'
  = Some ([Some "-ss"; Some (toString E (JS.or_num amount 0) ++ "ms")%string]
          ++ ffmpeg_base ++ af (_filters q))
  /\ _filters q' = _filters q
  /\ seekTime q' = amount
  /\ applyingFilters q' = false
  /\ building q' = []
  /\ player q' = Buffering
  /\ position_of q' = JS.floor ((0 + amount) * rate q)%float.
Proof.
  intros Ht Hfe Ha Hb Hs Hi q'. subst q'.
  unfold seek. rewrite Hi. cbn [applyingFilters set_filters]. rewrite Ha.
  rewrite (WorkerFacts.play_fetches E _ meta) by (cbn; assumption).
  rewrite WorkerFacts.drain_nothing by (cbn; exact Hs).
  unfold stream_ready.
  cbn [building add_building set_building set_seekTime set_applyingFilters
       set_filters].
  rewrite Hb. cbn [app nth_error JS.splice firstn skipn Nat.add].
  match goal with
  | |- context [demux E meta ?d ?x] =>
      rewrite (demux_seek_entry E meta d x (_filters q) _ _ eq_refl Hi);
        pose proof (WorkerFacts.state_position_keeps
                      (set_shouldntCallFinish true x)) as K;
        destruct (state_position (set_shouldntCallFinish true x)) as [p1 q1]
  end.
  cbn [snd] in *. destruct K as (Kb & Ks & _ & _ & Kt & Kr).
  cbn in Kb, Ks, Kt, Kr.
  unfold drain, settle. cbn [settled set_settled set_applyingFilters
    set_filters]. rewrite Ks, Hs. cbn [app fold_left fst snd].
  match goal with
  | |- context [play_resume meta (Some ?r) ?x] =>
      pose proof (play_resume_plays meta r x eq_refl) as HP;
        cbv zeta in HP; set (z := play_resume meta (Some r) x) in *
  end.
  destruct HP as (H1 & (v & H2) & _ & (H3 & _ & H4 & H5 & H6 & H7) & _).
  clearbody z. cbn in H3, H4, H5, H6, H7.
  unfold transcoder, position_of.
  rewrite H1, H2, H4, H5, H6, H7, H3, Kb, Kt, Kr.
  cbn [ffmpegArgs playbackDuration].
  repeat split.
Qed.

(** X7.  An ffmpeg command in the middle of a track, on a queue that is
    not re-arming and whose track has to be fetched: once the stream has
    arrived, the pipeline starts two seconds past the position the queue
    reported, and that shifted position becomes the seek time; the
    arguments of the command follow [-af]. *)
Theorem rearm_skips_ahead (E : Env) (q : Queue) (meta : Track.t)
    (args : list string) :
  track q = Some meta ->
  fetches E meta = true ->
  applyingFilters q = false ->
  building q = [] ->
  settled q = [] ->
  args <> [] ->
  indexOf (Some "-ss") (List.map Some args) = None ->
  JS.truthy (position_of q) = true ->
  at_end q = false ->
  let q' := stream_ready E 0 (drain (ffmpeg E args q)) in
  transcoder q'
  = Some (ss_tokens E (position_of q + 2000) ++ ffmpeg_base
          ++ Some "-af" :: List.map Some args)
  /\ seekTime q' = (position_of q + 2000)%float
  /\ _filters q' = List.map Some args
  /\ applyingFilters q' = false
  /\ player q' = Buffering.
Proof.
  intros Ht Hfe Ha Hb Hs Hne Hi Hp He q'. subst q'.
  unfold ffmpeg. cbn [applyingFilters set_filters]. rewrite Ha.
  rewrite (WorkerFacts.play_fetches E _ meta) by (cbn; assumption).
  rewrite WorkerFacts.drain_nothing by (cbn; exact Hs).
  unfold stream_ready.
  cbn [building add_building set_building set_applyingFilters set_filters].
  rewrite Hb. cbn [app nth_error JS.splice firstn skipn Nat.add].
  match goal with
  | |- context [demux E meta ?d ?x] =>
      assert (Hpos : position_of x = position_of q) by reflexivity;
        rewrite (demux_mid_track E meta d x)
  end.
  2: { cbn. destruct args; [congruence | discriminate]. }
  2: { exact Hi. }
  2: { rewrite Hpos. exact Hp. }
  2: { unfold at_end in *. cbn [track set_building set_applyingFilters
         set_filters]. rewrite Hpos. exact He. }
  rewrite Hpos.
  unfold drain, settle. cbn [settled set_settled set_applyingFilters
    set_filters set_seekTime set_shouldntCallFinish set_building
    add_building].
  rewrite Hs. cbn [app fold_left fst snd].
  match goal with
  | |- context [play_resume meta (Some ?r) ?x] =>
      pose proof (play_resume_plays meta r x eq_refl) as HP;
        cbv zeta in HP; set (z := play_resume meta (Some r) x) in *
  end.
  destruct HP as (H1 & (v & H2) & _ & (_ & _ & H4 & H5 & H6 & _) & _).
  clearbody z. cbn in H4, H5, H6.
  unfold transcoder. rewrite H2, H4, H5, H6, H1. cbn [ffmpegArgs].
  unfold af. destruct args; [congruence |]. repeat split.
Qed.

(** X8.  A FILTERS command that arrives while a seek is waiting for
    its stream keeps the wrong token of the seek entry: the chain it
    builds starts with [-ss -accurate_seek], the position is gone.  When
    the stream arrives, the transcoder is started with
    [-ss -accurate_seek] in front of the fixed arguments, and the entry
    that leaves the chain takes the first filter with it: the volume
    filter is not applied. *)
Theorem filters_after_seek (E : Env) (q : Queue) (meta : Track.t)
    (amount v : float) :
  track q = Some meta ->
  fetches E meta = true ->
  applyingFilters q = false ->
  building q = [] ->
  settled q = [] ->
  _filters q = [] ->
  JS.truthy v = true ->
  let q1 :=
    drain (completion_queue
             (filters E (volume_only v) (drain (seek E amount q)))) in
  let q2 := stream_ready E 0 q1 in
  _filters q1
  = [Some "-ss"; Some "-accurate_seek"; Some ("volume=" ++ toString E v)%string]
  /\ building q1 = [AwaitStream meta (decode E (Track.track meta))]
  /\ transcoder q2
     = Some ([Some "-ss"; Some "-accurate_seek"] ++ ffmpeg_base)
  /\ _filters q2 = []
  /\ seekTime q2 = amount.
Proof.
  intros Ht Hfe Ha Hb Hs Hf Hv q1 q2.
  assert (H1 : q1
               = set_filters
                   [Some "-ss"; Some "-accurate_seek";
                    Some ("volume=" ++ toString E v)%string]
                   (set_seekTime amount
                      (set_applyingFilters true
                         (add_building
                            (AwaitStream meta (decode E (Track.track meta)))
                            q)))).
  { subst q1.
    assert (H0 : drain (seek E amount q)
                 = set_seekTime amount
                     (set_applyingFilters true
                        (add_building
                           (AwaitStream meta (decode E (Track.track meta)))
                           (set_filters (ss_tokens E (JS.or_num amount 0))
                              q)))).
    { unfold seek. rewrite Hf. cbn [indexOf JS.indexOf app].
      cbn [applyingFilters set_filters _filters app]. rewrite Ha.
      rewrite (WorkerFacts.play_fetches E _ meta) by (cbn; assumption).
      rewrite ?Hf. cbn [app].
      apply WorkerFacts.drain_nothing. cbn. exact Hs. }
    rewrite H0.
    unfold filters, equalizer_args, volume_only, ss_tokens.
    cbn [_filters set_seekTime set_applyingFilters add_building set_building
         set_filters FilterSpec.volume FilterSpec.equalizer
         FilterSpec.timescale FilterSpec.tremolo FilterSpec.vibrato
         FilterSpec.rotation FilterSpec.lowPass opt_arg app].
    unfold indexOf. cbn [JS.indexOf Arg_eqb String.eqb Ascii.eqb Bool.eqb].
    cbn [JS.at_ nth_error Nat.add]. rewrite Hv.
    cbn [app applyingFilters set_filters set_seekTime set_applyingFilters
         set_building completion_queue].
    rewrite WorkerFacts.drain_nothing by (cbn; exact Hs).
    destruct q; cbn in *; subst; reflexivity. }
  split; [rewrite H1; reflexivity |].
  split; [rewrite H1; cbn; rewrite Hb; reflexivity |].
  subst q2. rewrite H1. unfold stream_ready.
  cbn [building add_building set_building set_seekTime set_applyingFilters
       set_filters].
  rewrite Hb. cbn [app nth_error JS.splice firstn skipn Nat.add].
  match goal with
  | |- context [demux E meta ?d ?x] =>
      rewrite (demux_seek_entry E meta d x [] (Some "-accurate_seek")
                 (Some ("volume=" ++ toString E v)%string) eq_refl eq_refl);
        pose proof (WorkerFacts.state_position_keeps
                      (set_shouldntCallFinish true x)) as K;
        destruct (state_position (set_shouldntCallFinish true x)) as [p1 q0]
  end.
  cbn [snd] in *. destruct K as (_ & Ks & _ & _ & Kt & _).
  cbn in Ks, Kt.
  unfold drain, settle. cbn [settled set_settled set_applyingFilters
    set_filters]. rewrite Ks, Hs. cbn [app fold_left fst snd].
  match goal with
  | |- context [play_resume meta (Some ?r) ?x] =>
      pose proof (play_resume_plays meta r x eq_refl) as HP;
        cbv zeta in HP; set (z := play_resume meta (Some r) x) in *
  end.
  destruct HP as (_ & (w & H2) & _ & (_ & _ & _ & H5 & H6 & _) & _).
  clearbody z. cbn in H5, H6.
  unfold transcoder. rewrite H2, H5, H6, Kt. cbn [ffmpegArgs af is_nil].
  rewrite app_nil_r. repeat split.
Qed.

(** *** What a queue posts around a launch *)

(** An internal stop either leaves the flags and the track alone (the
    player was idle) or clears the track (its listener ran). *)
Lemma stop_true_cases (q : Queue) :
  let q' := stop true q in
  posted q' = posted q /\ initial q' = initial q /\ guildID q' = guildID q
  /\ trackPausing q' = trackPausing q
  /\ ((shouldntCallFinish q' = shouldntCallFinish q /\ track q' = track q)
      \/ track q' = None).
Proof.
  unfold stop, player_stop, player_enters, on_player_stateChange, post.
  destruct (player q) eqn:Hp; cbn; rewrite ?Hp; cbn;
    repeat split; auto.
Qed.

Lemma state_position_cases (q : Queue) :
  let q' := snd (state_position q) in
  posted q' = posted q /\ initial q' = initial q /\ guildID q' = guildID q
  /\ trackPausing q' = trackPausing q
  /\ ((shouldntCallFinish q' = shouldntCallFinish q /\ track q' = track q)
      \/ track q' = None).
Proof.
  unfold state_position. cbn [snd].
  destruct (track q) as [t|] eqn:Ht; [| repeat split; auto].
  destruct (_ && _); [| rewrite Ht; repeat split; auto].
  rewrite <- Ht. apply stop_true_cases.
Qed.

(** What the player tells a queue when it starts playing. *)
Lemma started_posts (q : Queue) :
  posted (player_enters Playing q)
  = posted q
    ++ match track q with
       | Some t =>
           if negb (shouldntCallFinish q) || initial q
           then [TrackStartEvent (guildID q) (Track.track t)] else []
       | None => []
       end.
Proof.
  unfold player_enters, on_player_stateChange, pause, player_pause, post.
  cbn. destruct (trackPausing q); cbn;
    destruct (track q) as [t|]; cbn;
    try destruct (negb (shouldntCallFinish q) || initial q); cbn;
    now rewrite ?app_nil_r.
Qed.

Lemma play_resume_flags meta (r : AudioResource) (q : Queue) :
  applyingFilters q = false ->
  let q' := play_resume meta (Some r) q in
  shouldntCallFinish q' = shouldntCallFinish q /\ initial q' = initial q
  /\ guildID q' = guildID q /\ track q' = track q /\ posted q' = posted q.
Proof.
  intros Ha. unfold play_resume. rewrite Ha. unfold volume, player_play.
  destruct (Track.pause meta); cbn;
    destruct (JS.truthy (Track.volume meta)
              && negb ((Track.volume meta =? 100)%float)); cbn;
    try destruct (negb ((_volume q =? 1)%float)); cbn; repeat split.
Qed.

(** X9.  A seek is silent: under the conditions of the restart above,
    on a queue that has started its track, neither the seek, nor the
    arrival of the stream, nor the player starting on the new resource
    posts anything; in particular no second TrackStartEvent. *)
Theorem seek_is_silent (E : Env) (q : Queue) (meta : Track.t) (amount : float) :
  track q = Some meta ->
  fetches E meta = true ->
  applyingFilters q = false ->
  building q = [] ->
  settled q = [] ->
  indexOf (Some "-ss") (_filters q) = None ->
  initial q = false ->
  let q' := stream_ready E 0 (drain (seek E amount q)) in
  posted q' = posted q
  /\ posted (player_enters Playing q') = posted q.
Proof.
  intros Ht Hfe Ha Hb Hs Hi Hin q'. subst q'.
  unfold seek. rewrite Hi. cbn [applyingFilters set_filters]. rewrite Ha.
  rewrite (WorkerFacts.play_fetches E _ meta) by (cbn; assumption).
  rewrite WorkerFacts.drain_nothing by (cbn; exact Hs).
  unfold stream_ready.
  cbn [building add_building set_building set_seekTime set_applyingFilters
       set_filters].
  rewrite Hb. cbn [app nth_error JS.splice firstn skipn Nat.add].
  match goal with
  | |- context [demux E meta ?d ?x] =>
      rewrite (demux_seek_entry E meta d x (_filters q) _ _ eq_refl Hi);
        pose proof (state_position_cases (set_shouldntCallFinish true x)) as C;
        pose proof (WorkerFacts.state_position_keeps
                      (set_shouldntCallFinish true x)) as K;
        destruct (state_position (set_shouldntCallFinish true x)) as [p1 q1]
  end.
  cbn [snd] in *. destruct K as (_ & Ks & _).
  destruct C as (Cp & Ci & Cg & _ & Cs). cbn in Ks, Cp, Ci, Cg, Cs.
  unfold drain, settle. cbn [settled set_settled set_applyingFilters
    set_filters]. rewrite Ks, Hs. cbn [app fold_left fst snd].
  match goal with
  | |- context [play_resume meta (Some ?r) ?x] =>
      pose proof (play_resume_flags meta r x eq_refl) as HP;
        cbv zeta in HP; set (z := play_resume meta (Some r) x) in *
  end.
  destruct HP as (F1 & F2 & F3 & F4 & F5). clearbody z.
  cbn in F1, F2, F3, F4, F5.
  assert (Hz : posted z = posted q) by congruence.
  split; [exact Hz |].
  rewrite started_posts, Hz, F1, F2, F4, Ci, Hin.
  destruct Cs as [(Cs & _) | Cs].
  - rewrite Cs. cbn. destruct (track q1); apply app_nil_r.
  - rewrite Cs. apply app_nil_r.
Qed.

(** X10.  PLAY on a queue that is not playing and holds nothing: the
    track, which has to be fetched, is handed to the player once its
    stream has arrived.  With a start offset the resource comes from
    a transcoder started with [-ss <start>ms -accurate_seek] and the
    offset becomes the seek time; without one the resource comes from
    the probe, with no transcoder.  When the player then starts, the
    queue posts one TrackStartEvent naming the track. *)
Theorem play_delivers (E : Env) (t : Track.t) (q : Queue) :
  player q <> Playing ->
  fetches E t = true ->
  current q = None ->
  _filters q = [] ->
  applyingFilters q = false ->
  building q = [] ->
  settled q = [] ->
  JS.truthy (Track.end_ t) = false \/ (0 <? Track.end_ t)%float = true ->
  let offset := JS.truthy (Track.start t) in
  let q1 := stream_ready E 0 (drain (queue E t q)) in
  let q2 := if offset then q1 else probe_done 0 q1 in
  transcoder q2
  = (if offset then Some (ss_tokens E (Track.start t) ++ ffmpeg_base)
     else None)
  /\ (exists r,
        current q2 = Some r /\ metadata r = decode E (Track.track t))
  /\ seekTime q2 = (if offset then Track.start t else 0%float)
  /\ player q2 = Buffering
  /\ posted (player_enters Playing q2)
     = posted q ++ [TrackStartEvent (guildID q) (Track.track t)].
Proof.
  intros Hp Hfe Hc Hf Ha Hb Hs He offset q1 q2.
  assert (Hq : queue E t q
               = add_building (AwaitStream t (decode E (Track.track t)))
                   (set_initial true (set_seekTime 0 (set_track (Some t) q)))).
  { unfold queue, replace. cbn [player set_track].
    destruct (status_eqb (player q) Playing) eqn:Hst;
      [destruct (player q); try discriminate; congruence |].
    unfold nextSong. cbn [track set_initial set_seekTime set_track].
    apply WorkerFacts.play_fetches; [reflexivity | exact Hfe]. }
  subst q2 q1. rewrite Hq.
  rewrite WorkerFacts.drain_nothing by (cbn; exact Hs).
  unfold stream_ready.
  cbn [building add_building set_building set_initial set_seekTime set_track].
  rewrite Hb. cbn [app nth_error JS.splice firstn skipn Nat.add].
  unfold demux.
  cbn [_filters set_building add_building set_initial set_seekTime
       set_track].
  rewrite Hf. cbn [is_nil negb orb]. subst offset.
  destruct (JS.truthy (Track.start t)) eqn:Hst.
  - match goal with
    | |- context [state_position ?x] =>
        assert (Hsp : exists p,
                   state_position x = (p, x) /\ JS.truthy p = false)
    end.
    { unfold state_position, position_of.
      cbn [current track seekTime rate set_shouldntCallFinish set_building
           add_building set_initial set_seekTime set_track].
      rewrite Hc. change (0 + 0)%float with 0%float.
      destruct (NumberFacts.zero_times (rate q)) as (Hz & Hg).
      eexists. split; [| exact Hz].
      replace (JS.truthy (Track.end_ t)
               && JS.geb (JS.floor (0 * rate q)) (Track.end_ t))
        with false; [reflexivity |].
      symmetry. destruct He as [He | He].
      - now rewrite He.
      - rewrite (Hg _ He). apply andb_false_r. }
    destruct Hsp as (p & Hsp & Hp0). rewrite Hsp.
    cbn [_filters indexOf JS.indexOf set_shouldntCallFinish set_building
         add_building set_initial set_seekTime set_track].
    rewrite Hf. unfold indexOf. cbn [JS.indexOf]. rewrite Hp0. cbn iota.
    cbn [_filters set_seekTime set_shouldntCallFinish set_building
         add_building set_initial set_track is_nil].
    unfold drain, settle.
    cbn [settled set_settled set_applyingFilters set_seekTime
         set_shouldntCallFinish set_building add_building set_initial
         set_track].
    rewrite Hs. cbn [app fold_left fst snd].
    match goal with
    | |- context [play_resume t (Some ?r) ?x] =>
        pose proof (play_resume_flags t r x eq_refl) as HF;
          pose proof (play_resume_plays t r x eq_refl) as HP;
          cbv zeta in HF, HP; set (z := play_resume t (Some r) x) in *
    end.
    destruct HF as (F1 & F2 & F3 & F4 & F5).
    destruct HP as (H1 & (v & H2) & _ & (_ & _ & _ & _ & H6 & _) & _).
    clearbody z. cbn in F1, F2, F3, F4, F5, H2, H6.
    unfold transcoder. rewrite H2, H6, H1. cbn [ffmpegArgs].
    rewrite ?Hf, ?app_nil_r. cbn [is_nil].
    split; [rewrite ?app_nil_r; reflexivity |]. split; [eexists; split; reflexivity |].
    split; [reflexivity |]. split; [reflexivity |].
    rewrite started_posts, F1, F2, F3, F4, F5. reflexivity.
  - rewrite WorkerFacts.drain_nothing by (cbn; exact Hs).
    unfold probe_done.
    cbn [building add_building set_building set_initial set_seekTime
         set_track app nth_error JS.splice firstn skipn Nat.add].
    unfold drain, settle.
    cbn [settled set_settled set_building add_building set_initial
         set_seekTime set_track].
    rewrite Hs. cbn [app fold_left fst snd].
    match goal with
    | |- context [play_resume t (Some ?r) ?x] =>
        pose proof (play_resume_flags t r x Ha) as HF;
          pose proof (play_resume_plays t r x Ha) as HP;
          cbv zeta in HF, HP; set (z := play_resume t (Some r) x) in *
    end.
    destruct HF as (F1 & F2 & F3 & F4 & F5).
    destruct HP as (H1 & (v & H2) & _ & (_ & _ & _ & _ & H6 & _) & _).
    clearbody z. cbn in F1, F2, F3, F4, F5, H2, H6.
    unfold transcoder. rewrite H2, H6, H1. cbn [ffmpegArgs].
    split; [reflexivity |]. split; [eexists; split; reflexivity |].
    split; [reflexivity |]. split; [reflexivity |].
    rewrite started_posts, F1, F2, F3, F4, F5. cbn.
    now rewrite orb_true_r.
Qed.

End PlaybackFacts.

(** ** Properties of the thread *)

Module ThreadFacts.
Import Worker ThreadSpec.

Lemma fresh_nil : fresh [].
Proof. constructor. Qed.

Lemma same_ids_refl (q : Queue) : same_ids q q.
Proof. repeat split. Qed.

Lemma same_ids_trans (a b c : Queue) :
  same_ids a b -> same_ids b c -> same_ids a c.
Proof.
  unfold same_ids. intros (? & ? & ? & ?) (? & ? & ? & ?).
  repeat split; congruence.
Qed.

Lemma calm_refl (q : Queue) : calm q q.
Proof.
  split; [apply same_ids_refl |]. split; [reflexivity |].
  split; [now left |]. exists []. split; [now rewrite app_nil_r | constructor].
Qed.

Lemma calm_trans (a b c : Queue) : calm a b -> calm b c -> calm a c.
Proof.
  intros (I1 & V1 & C1 & e1 & S1 & F1) (I2 & V2 & C2 & e2 & S2 & F2).
  split; [eapply same_ids_trans; eassumption |].
  split; [congruence |]. split.
  - destruct C2 as [C2 | C2]; [rewrite C2; exact C1 | now right].
  - exists (e1 ++ e2). split; [rewrite S2, S1; symmetry; apply app_assoc |].
    apply Forall_app. split; assumption.
Qed.

(** A goal [calm q q'] where [q'] is [q] with fields set that [calm]
    does not read, or with its resource dropped. *)
Ltac calm_now :=
  unfold calm, same_ids; cbn;
  repeat match goal with
    | |- _ /\ _ => split
    | |- _ = _ => reflexivity
    | |- ?a = ?b \/ ?c = None => first [left; reflexivity | right; reflexivity]
    | |- exists extra, _ => exists []; rewrite app_nil_r; split;
                            [reflexivity | constructor]
    end.

Lemma stop_calm (b : bool) (q : Queue) : calm q (stop b q).
Proof.
  unfold stop, player_stop, player_enters, on_player_stateChange, post.
  destruct (player q) eqn:Hp, b; cbn; rewrite ?Hp; cbn;
    try destruct (shouldntCallFinish q); cbn; calm_now.
Qed.

Lemma state_position_calm (q : Queue) : calm q (snd (state_position q)).
Proof.
  unfold state_position. cbn [snd].
  destruct (track q) as [t|]; [| apply calm_refl].
  destruct (_ && _); [apply stop_calm | apply calm_refl].
Qed.

Lemma state_calm (now : Z) (q : Queue) : calm q (snd (state now q)).
Proof.
  pose proof (state_position_calm q) as K.
  unfold state. destruct (state_position q). exact K.
Qed.

Lemma pause_calm (q : Queue) : calm q (pause q).
Proof.
  unfold pause, player_pause.
  destruct (status_eqb (player q) Playing); calm_now.
Qed.

Lemma player_enters_calm (s : AudioPlayerStatus) (q : Queue) :
  calm q (player_enters s q).
Proof.
  unfold player_enters, on_player_stateChange, pause, player_pause, post.
  destruct s, (player q); cbn;
    repeat match goal with
      | |- context [if ?b then _ else _] => destruct b; cbn
      | |- context [match track ?x with _ => _ end] => destruct (track x); cbn
      end; calm_now.
Qed.

Lemma resume_calm (q : Queue) : calm q (resume q).
Proof.
  unfold resume, player_unpause.
  destruct (status_eqb (player q) Paused); [| calm_now].
  eapply calm_trans; [apply (player_enters_calm Playing) | calm_now].
Qed.

Lemma settle_calm meta (r : AudioResource) (q q' : Queue) :
  calm q q' ->
  resourceVolume r = 1%float ->
  calm q (settle meta (Some r) q').
Proof.
  intros (I & V & C & e & S & F) Hr.
  split; [exact I |]. split; [exact V |]. split; [exact C |].
  exists (e ++ [(meta, Some r)]). split.
  - unfold settle. cbn. rewrite S. symmetry. apply app_assoc.
  - apply Forall_app. split; [exact F |]. constructor; [exact Hr | constructor].
Qed.

Lemma settle_none_calm meta (q : Queue) : calm q (settle meta None q).
Proof.
  split; [repeat split |]. split; [reflexivity |].
  split; [now left |]. exists [(meta, None)].
  split; [reflexivity |]. constructor; [exact I | constructor].
Qed.

Lemma demux_calm (E : Env) meta decoded (q : Queue) :
  calm q (demux E meta decoded q).
Proof.
  unfold demux.
  destruct (negb (is_nil (_filters q)) || JS.truthy (Track.start meta));
    [| calm_now].
  set (q0 := set_shouldntCallFinish true q).
  assert (K0 : calm q q0) by calm_now.
  pose proof (state_position_calm q0) as K1.
  destruct (state_position q0) as [p1 q1]. cbn [snd] in K1.
  assert (K01 := calm_trans _ _ _ K0 K1).
  destruct (indexOf (Some "-ss") (_filters q1)) as [index|].
  - apply settle_calm; [| reflexivity].
    eapply calm_trans; [exact K01 | calm_now].
  - destruct (JS.truthy p1).
    + pose proof (state_position_calm q1) as K2.
      destruct (state_position q1) as [p2 q2]. cbn [snd] in K2.
      pose proof (state_position_calm q2) as K3.
      destruct (state_position q2) as [p3 q3]. cbn [snd] in K3.
      apply settle_calm; [| reflexivity].
      eapply calm_trans; [exact K01 |].
      eapply calm_trans; [exact K2 |].
      eapply calm_trans; [exact K3 | calm_now].
    + destruct (JS.truthy (Track.start meta));
        (apply settle_calm; [| reflexivity]);
        (eapply calm_trans; [exact K01 | calm_now]).
Qed.

Lemma play_calm (E : Env) (q : Queue) : calm q (play E q).
Proof.
  unfold play.
  destruct (track q) as [meta|]; [| apply calm_refl].
  destruct (negb (JS.opt_str_truthy _)); [apply calm_refl |].
  repeat match goal with
    | |- context [if ?b then _ else _] => destruct b
    end;
    first [apply settle_none_calm | apply demux_calm | calm_now].
Qed.

Lemma queue_calm (E : Env) (t : Track.t) (q : Queue) : calm q (queue E t q).
Proof.
  unfold queue, replace, nextSong.
  set (q0 := set_track (Some t) q).
  assert (K0 : calm q q0) by calm_now.
  assert (K1 : calm q
                 (if status_eqb (player q0) Playing
                  then post (TrackEndEvent (guildID q0) REPLACED) (stop true q0)
                  else q0)).
  { destruct (status_eqb (player q0) Playing); [| exact K0].
    eapply calm_trans; [exact K0 |].
    eapply calm_trans; [apply (stop_calm true) | calm_now]. }
  match goal with
  | |- context [set_initial true (set_seekTime 0 ?x)] =>
      set (q1 := x) in *;
        assert (K2 : calm q (set_initial true (set_seekTime 0 q1)))
          by (eapply calm_trans; [exact K1 | calm_now])
  end.
  destruct (track (set_initial true (set_seekTime 0 q1))); [| exact K2].
  eapply calm_trans; [exact K2 | apply play_calm].
Qed.

Lemma seek_calm (E : Env) (amount : float) (q : Queue) : calm q (seek E amount q).
Proof.
  unfold seek.
  match goal with
  | |- context [if applyingFilters ?x then _ else _] =>
      set (q2 := x); assert (K : calm q q2)
  end.
  { subst q2. destruct (indexOf _ _); calm_now. }
  destruct (applyingFilters q2).
  - eapply calm_trans; [exact K | calm_now].
  - eapply calm_trans; [exact K |].
    eapply calm_trans; [apply play_calm | calm_now].
Qed.

Lemma ffmpeg_calm (E : Env) (args : list string) (q : Queue) :
  calm q (ffmpeg E args q).
Proof.
  unfold ffmpeg.
  match goal with
  | |- context [if applyingFilters ?x then _ else _] =>
      set (q1 := x); assert (K : calm q q1) by calm_now
  end.
  destruct (applyingFilters q1).
  - eapply calm_trans; [exact K | calm_now].
  - eapply calm_trans; [exact K |].
    eapply calm_trans; [apply play_calm | calm_now].
Qed.

Lemma filters_calm (E : Env) (spec : FilterSpec.t) (q : Queue) :
  calm q (completion_queue (filters E spec q)).
Proof.
  unfold filters. destruct (equalizer_args E spec) as [eq | e];
    cbn [completion_queue]; [| calm_now].
  match goal with
  | |- context [if applyingFilters ?x then _ else _] =>
      set (q3 := x); assert (K : calm q q3)
  end.
  { subst q3. destruct (FilterSpec.timescale spec); calm_now. }
  destruct (applyingFilters q3).
  - eapply calm_trans; [exact K | calm_now].
  - eapply calm_trans; [exact K |].
    eapply calm_trans; [apply play_calm | calm_now].
Qed.

(** *** The volume of the current resource *)

Lemma calm_synced (q q' : Queue) : calm q q' -> synced q -> synced q'.
Proof.
  intros (_ & V & C & _) H. unfold synced in *.
  destruct C as [C | C]; rewrite C; [rewrite V; exact H | exact I].
Qed.

Lemma calm_fresh (q q' : Queue) :
  calm q q' -> fresh (settled q) -> fresh (settled q').
Proof.
  intros (_ & _ & _ & e & S & F) H. rewrite S.
  apply Forall_app. split; assumption.
Qed.

Lemma calm_sound (f : Queue -> Queue) : (forall q, calm q (f q)) -> sound f.
Proof.
  intros H q. split; [apply H |]. intros Hs Hn. split.
  - eapply calm_synced; [apply H | exact Hs].
  - eapply calm_fresh; [apply H |]. rewrite Hn. constructor.
Qed.

Lemma volume_sound (amount : float) : sound (volume amount).
Proof.
  intros q. unfold volume.
  destruct (current (set_volume amount q)) as [r|] eqn:Hc.
  - split; [repeat split |]. intros _ Hn.
    split; [unfold synced; cbn; reflexivity |].
    cbn. rewrite Hn. constructor.
  - split; [repeat split |]. intros _ Hn.
    split; [unfold synced; rewrite Hc; exact I |].
    cbn. rewrite Hn. constructor.
Qed.

Lemma play_resume_ids meta (r : option AudioResource) (q : Queue) :
  same_ids q (play_resume meta r q).
Proof.
  unfold play_resume, volume, player_play.
  destruct r as [r|]; [| apply same_ids_refl].
  destruct (applyingFilters q); [repeat split |].
  destruct (Track.pause meta); cbn;
    destruct (JS.truthy (Track.volume meta)
              && negb ((Track.volume meta =? 100)%float)); cbn;
    try destruct (negb ((_volume q =? 1)%float)); cbn; repeat split.
Qed.

Lemma drain_ids (q : Queue) : same_ids q (drain q).
Proof.
  unfold drain.
  assert (H : forall l a,
             same_ids a
               (fold_left (fun a mr => play_resume (fst mr) (snd mr) a) l a)).
  { induction l as [| [m r] l IH]; intros a; [apply same_ids_refl |].
    cbn. eapply same_ids_trans; [apply play_resume_ids | apply IH]. }
  eapply same_ids_trans; [| apply H]. repeat split.
Qed.

Lemma play_resume_synced meta (r : option AudioResource) (q : Queue) :
  synced q ->
  match r with Some x => resourceVolume x = 1%float | None => True end ->
  synced (play_resume meta r q)
  /\ same_ids q (play_resume meta r q)
  /\ settled (play_resume meta r q) = settled q.
Proof.
  intros Hs Hr. unfold play_resume.
  destruct r as [r|]; [| repeat split; exact Hs].
  destruct (applyingFilters q); [repeat split; exact Hs |].
  unfold volume, player_play, synced.
  destruct (Track.pause meta); cbn;
    destruct (JS.truthy (Track.volume meta)
              && negb ((Track.volume meta =? 100)%float)); cbn;
    try (repeat split; reflexivity);
    destruct ((_volume q =? 1)%float) eqn:Hv; cbn;
    try (repeat split; reflexivity);
    (split; [| repeat split]);
    rewrite Hr; symmetry; exact (NumberFacts.eqb_one _ Hv).
Qed.

Lemma drain_from_synced (l : list (Track.t * option AudioResource))
    (a : Queue) :
  synced a -> fresh l ->
  let b := fold_left (fun a mr => play_resume (fst mr) (snd mr) a) l a in
  synced b /\ same_ids a b /\ settled b = settled a.
Proof.
  revert a. induction l as [| [m r] l IH]; intros a Hs Hf; cbn.
  - repeat split. exact Hs.
  - inversion Hf as [| x y Hr Hl]. subst. cbn [snd] in Hr.
    destruct (play_resume_synced m r a Hs Hr) as (H1 & H2 & H3).
    destruct (IH _ H1 Hl) as (H4 & H5 & H6).
    split; [exact H4 |]. split; [eapply same_ids_trans; eassumption |].
    congruence.
Qed.

Lemma drain_sound (q : Queue) :
  synced q -> fresh (settled q) ->
  synced (drain q) /\ settled (drain q) = [] /\ same_ids q (drain q).
Proof.
  intros Hs Hf. unfold drain.
  destruct (drain_from_synced (settled q) (set_settled [] q) Hs Hf)
    as (H1 & H2 & H3).
  split; [exact H1 |]. split; [exact H3 | exact H2].
Qed.

(** A sound method followed by the continuations it made ready. *)
Lemma drained_sound (f : Queue -> Queue) :
  sound f -> sound (fun q => drain (f q)).
Proof.
  intros H q. destruct (H q) as (Hi & Hp). split.
  - eapply same_ids_trans; [exact Hi | apply drain_ids].
  - intros Hs Hn. destruct (Hp Hs Hn) as (H1 & H2).
    destruct (drain_sound (f q) H1 H2) as (H3 & H4 & _).
    split; [exact H3 |]. rewrite H4. constructor.
Qed.

Lemma stream_ready_sound (E : Env) (i : nat) : sound (stream_ready E i).
Proof.
  intros q. unfold stream_ready.
  destruct (nth_error (building q) i) as [[meta decoded | meta decoded] |];
    try (apply (calm_sound (fun x => x) calm_refl)).
  apply (drained_sound
           (fun x => demux E meta decoded
                       (set_building (JS.splice i 1 (building q)) x))).
  apply calm_sound. intros x.
  eapply calm_trans; [| apply demux_calm]. calm_now.
Qed.

Lemma stream_failed_sound (i : nat) : sound (stream_failed i).
Proof.
  intros q. unfold stream_failed.
  destruct (nth_error (building q) i) as [[meta decoded | meta decoded] |];
    try (apply (calm_sound (fun x => x) calm_refl)).
  destruct (String.eqb _ _); [| apply (calm_sound (fun x => x) calm_refl)].
  apply (drained_sound
           (fun x => settle meta None
                       (set_building (JS.splice i 1 (building q)) x))).
  apply calm_sound. intros x.
  eapply calm_trans; [| apply settle_none_calm]. calm_now.
Qed.

Lemma probe_done_sound (i : nat) : sound (probe_done i).
Proof.
  intros q. unfold probe_done.
  destruct (nth_error (building q) i) as [[meta decoded | meta decoded] |];
    try (apply (calm_sound (fun x => x) calm_refl)).
  apply (drained_sound
           (fun x =>
              settle meta
                (Some {| ffmpegArgs := None; playbackDuration := 0;
                         resourceVolume := 1; metadata := decoded |})
                (set_building (JS.splice i 1 (building q)) x))).
  apply calm_sound. intros x.
  apply settle_calm; [calm_now | reflexivity].
Qed.

Lemma elapsed_sound (ms : float) : sound (Thread.elapsed ms).
Proof.
  intros q. unfold Thread.elapsed.
  destruct (current q) as [r|] eqn:Hc.
  - split; [repeat split |]. intros Hs Hn. split.
    + unfold synced in *. rewrite Hc in Hs. cbn. exact Hs.
    + cbn. rewrite Hn. constructor.
  - split; [apply same_ids_refl |]. intros Hs Hn. split; [exact Hs |].
    rewrite Hn. constructor.
Qed.

Lemma play_stuck_calm (same : bool) (q : Queue) :
  calm q (fst (Thread.play_stuck same q)).
Proof.
  unfold Thread.play_stuck. destruct same; cbn [negb fst]; [| apply calm_refl].
  eapply calm_trans; [apply (stop_calm true) | calm_now].
Qed.

Lemma async_sound (E : Env) (a : Thread.Async) :
  sound (fun q => fst (Thread.async E a q)).
Proof.
  destruct a as [i | i | i | s | ms | | same]; cbn [Thread.async fst].
  - apply stream_ready_sound.
  - apply stream_failed_sound.
  - apply probe_done_sound.
  - apply calm_sound. apply player_enters_calm.
  - apply elapsed_sound.
  - apply calm_sound. intros q. unfold Thread.play_started. calm_now.
  - apply calm_sound. apply play_stuck_calm.
Qed.

(** *** The map of queues *)

Lemma get_In {V} (k : string) (v : V) (m : JS.Map V) :
  JS.get k m = Some v -> In (k, v) m.
Proof.
  induction m as [| [k' v'] m IH]; cbn; [discriminate |].
  destruct (String.eqb k' k) eqn:H.
  - apply String.eqb_eq in H. intros [= <-]. left. now subst.
  - intros Hg. right. now apply IH.
Qed.

Lemma has_false {V} (k : string) (m : JS.Map V) :
  JS.has k m = false -> ~ In k (List.map fst m).
Proof.
  unfold JS.has. induction m as [| [k' v'] m IH]; cbn; [tauto |].
  destruct (String.eqb k' k) eqn:H; [discriminate |].
  apply String.eqb_neq in H. intros Hg [He | Hi]; [congruence |].
  now apply IH.
Qed.

Lemma keys_set {V} (k : string) (v : V) (m : JS.Map V) :
  List.map fst (JS.set k v m)
  = if JS.has k m then List.map fst m else List.map fst m ++ [k].
Proof.
  unfold JS.has. induction m as [| [k' v'] m IH]; cbn; [reflexivity |].
  destruct (String.eqb k' k) eqn:H; cbn.
  - apply String.eqb_eq in H. now subst.
  - rewrite IH. now destruct (JS.get k m).
Qed.

Lemma In_set {V} (k : string) (v : V) (m : JS.Map V) (x : string * V) :
  In x (JS.set k v m) -> x = (k, v) \/ In x m.
Proof.
  induction m as [| [k' v'] m IH]; cbn.
  - intros [<- | []]. now left.
  - destruct (String.eqb k' k); cbn.
    + intros [<- | H]; [now left | right; now right].
    + intros [<- | H]; [right; now left |].
      destruct (IH H) as [-> | Hi]; [now left | right; now right].
Qed.

Lemma set_healthy (k : string) (v : Queue) (m : JS.Map Queue) :
  healthy m -> good k v -> healthy (JS.set k v m).
Proof.
  intros (Hn & Hf) Hg. split.
  - rewrite keys_set. destruct (JS.has k m) eqn:Hh; [exact Hn |].
    apply List.NoDup_app;
      [exact Hn | constructor; [intros [] | constructor] |].
    intros x Hx [<- | []]. exact (has_false k m Hh Hx).
  - apply (proj2 (List.Forall_forall _ _)). intros x Hx.
    destruct (In_set k v m x Hx) as [-> | Hi]; [exact Hg |].
    rewrite List.Forall_forall in Hf. now apply Hf.
Qed.

Lemma In_delete {V} (k : string) (m : JS.Map V) (x : string * V) :
  In x (JS.delete k m) -> In x m.
Proof.
  induction m as [| [k' v'] m IH]; cbn; [tauto |].
  destruct (String.eqb k' k); cbn; [now right |].
  intros [<- | H]; [now left | right; now apply IH].
Qed.

(** On a map without duplicate keys, [delete] removes every entry of
    the key. *)
Lemma delete_filter {V} (k : string) (m : JS.Map V) :
  List.NoDup (List.map fst m) ->
  JS.delete k m = List.filter (fun kv => negb (String.eqb (fst kv) k)) m.
Proof.
  induction m as [| [k' v'] m IH]; cbn; [reflexivity |].
  intros Hn. inversion Hn as [| x l Hx Hl]. subst.
  destruct (String.eqb k' k) eqn:H; cbn.
  - apply String.eqb_eq in H. subst k'.
    symmetry. apply forallb_filter_id. apply forallb_forall.
    intros [k2 v2] Hi. cbn. apply negb_true_iff. apply String.eqb_neq.
    intros ->. apply Hx. apply in_map_iff. exists (k, v2). now split.
  - now rewrite IH.
Qed.

Lemma delete_healthy (k : string) (m : JS.Map Queue) :
  healthy m -> healthy (JS.delete k m).
Proof.
  intros (Hn & Hf). rewrite (delete_filter k m Hn). split.
  - clear Hf. induction m as [| [k' v'] m IH]; cbn; [constructor |].
    inversion Hn as [| x l Hx Hl]. subst.
    destruct (negb (String.eqb k' k)); cbn; [| now apply IH].
    constructor; [| now apply IH].
    intros Hi. apply Hx. apply in_map_iff in Hi.
    destruct Hi as (y & Hy & Hin). apply filter_In in Hin.
    apply in_map_iff. exists y. tauto.
  - apply (proj2 (List.Forall_forall _ _)). intros x Hx. apply filter_In in Hx.
    rewrite List.Forall_forall in Hf. now apply Hf.
Qed.

Lemma delete_set {V} (k : string) (v : V) (m : JS.Map V) :
  JS.delete k (JS.set k v m) = JS.delete k m.
Proof.
  induction m as [| [k' v'] m IH]; cbn.
  - now rewrite String.eqb_refl.
  - destruct (String.eqb k' k) eqn:H; cbn.
    + now rewrite String.eqb_refl.
    + now rewrite H, IH.
Qed.

Lemma healthy_get (k : string) (q : Queue) (m : JS.Map Queue) :
  healthy m -> JS.get k m = Some q -> good k q.
Proof.
  intros (_ & Hf) Hg. rewrite List.Forall_forall in Hf.
  exact (Hf (k, q) (get_In k q m Hg)).
Qed.

Lemma commit_good (k : string) (f : Queue -> Queue) (q : Queue) :
  good k q -> sound f -> good k (set_posted [] (drain (f q))).
Proof.
  intros (Hk & Hp & Hs & Hy & Hd & Hc) Hf.
  destruct (drained_sound f Hf q) as ((I1 & I2 & I3 & I4) & Hsy).
  destruct (Hsy Hy Hs) as (H1 & _).
  destruct (WorkerFacts.drain_keeps (f q)) as (_ & H2 & _).
  unfold good. cbn [clientID guildID posted settled _destroyed connection
    set_posted]. cbn beta in I1, I2, I3, I4.
  rewrite I1, I2, I3, I4.
  split; [exact Hk |]. split; [reflexivity |]. split; [exact H2 |].
  split; [| split; assumption]. exact H1.
Qed.

Lemma new_Queue_good (userID guildID : string) :
  good (key_of userID guildID) (new_Queue userID guildID).
Proof. repeat split. discriminate. Qed.

Lemma call_healthy (key : string) (f : Queue -> Queue) (w : Worker.t) :
  sound f ->
  healthy (Worker.queues w) ->
  healthy (Worker.queues (Worker.call key f w)).
Proof.
  intros Hf Hh. unfold call.
  destruct (JS.get key (Worker.queues w)) as [q|] eqn:Hg; [| exact Hh].
  cbn. apply set_healthy; [exact Hh |].
  apply commit_good; [exact (healthy_get key q _ Hh Hg) | exact Hf].
Qed.

Lemma queue_sound (E : Env) (t : Track.t) : sound (queue E t).
Proof. apply calm_sound. apply queue_calm. Qed.

Lemma on_message_healthy (E : Env) (p : Packet.t) (w : Worker.t) :
  healthy (Worker.queues w) ->
  healthy (Worker.queues (on_message E p w)).
Proof.
  intros Hh. unfold on_message.
  destruct (Packet.command p)
    as [track startTime endTime vol ps noReplace | ps | | spec | position
       | args | v].
  - destruct (JS.get _ (Worker.queues w)) as [q|] eqn:Hg.
    + assert (Hw1 : Worker.queues
                      (if Packet.broadcasted p
                       then Worker.postMessage
                              (REPLY true (Packet.threadID p)) w
                       else w) = Worker.queues w)
        by (destruct (Packet.broadcasted p); reflexivity).
      destruct (noReplace && _); [rewrite Hw1; exact Hh |].
      cbn [commit Worker.queues]. rewrite Hw1.
      apply set_healthy; [exact Hh |].
      apply commit_good; [exact (healthy_get _ q _ Hh Hg) |].
      apply queue_sound.
    + destruct (Packet.broadcasted p); [exact Hh |].
      cbn [commit Worker.queues Worker.postMessage].
      apply set_healthy.
      * apply set_healthy; [exact Hh | apply new_Queue_good].
      * apply commit_good; [apply new_Queue_good | apply queue_sound].
  - apply call_healthy; [| exact Hh]. apply calm_sound. intros q.
    destruct ps; [apply pause_calm | apply resume_calm].
  - apply call_healthy; [| exact Hh]. apply calm_sound. apply stop_calm.
  - destruct (JS.get _ (Worker.queues w)) as [q|] eqn:Hg; [| exact Hh].
    assert (Hc : healthy
                   (JS.set (key_of (Packet.clientID p) (Packet.guildId p))
                      (set_posted []
                         (drain (completion_queue (filters E spec q))))
                      (Worker.queues w))).
    { apply set_healthy; [exact Hh |].
      apply (commit_good _ (fun x => completion_queue (filters E spec x)));
        [exact (healthy_get _ q _ Hh Hg) |].
      apply calm_sound. apply filters_calm. }
    destruct (filters E spec q); exact Hc.
  - apply call_healthy; [| exact Hh]. apply calm_sound. apply seek_calm.
  - apply call_healthy; [| exact Hh]. apply calm_sound. apply ffmpeg_calm.
  - apply call_healthy; [| exact Hh]. apply volume_sound.
Qed.

Lemma report_each_healthy (now : Z) (m : JS.Map Queue) :
  healthy m -> healthy (fst (report_each now m)).
Proof.
  intros (Hn & Hf).
  assert (Hk : List.map fst (fst (report_each now m)) = List.map fst m).
  { clear. induction m as [| [k q] m IH]; [reflexivity |].
    cbn [report_each]. destruct (state now q) as [st q1].
    destruct (report_each now m) as [rest outs]. cbn in *. now rewrite IH. }
  split; [rewrite Hk; exact Hn |].
  clear Hn Hk. induction m as [| [k q] m IH]; [constructor |].
  inversion Hf as [| x l Hq Hl]. subst. cbn [report_each].
  pose proof (state_calm now q) as Kc.
  pose proof (WorkerFacts.state_keeps now q) as (_ & Hs1 & _).
  destruct (state now q) as [st q1]. cbn [snd] in Kc, Hs1.
  specialize (IH Hl). destruct (report_each now m) as [rest outs].
  cbn [fst] in *. constructor; [| exact IH].
  cbn [fst snd] in *. destruct Hq as (Hk & Hp & Hs & Hy & Hd & Hc).
  pose proof (calm_synced _ _ Kc Hy) as Hy1.
  destruct Kc as ((I1 & I2 & I3 & I4) & _).
  unfold good. cbn. rewrite I1, I2, I3, I4, Hs1.
  repeat split; assumption.
Qed.

(** *** Commands and rooms *)

Lemma commit_other (k k' : string) (q : Queue) (w : Worker.t) :
  k' <> k ->
  JS.get k' (Worker.queues (commit k q w)) = JS.get k' (Worker.queues w).
Proof. intros H. cbn. now apply PlaybackFacts.get_set_other. Qed.

(** X11.  A command changes no queue but the one of its own client and
    room.  A command other than PLAY for a room the thread holds no
    queue for is ignored: nothing changes and nothing is posted; so is
    a broadcast PLAY, but for the reply [false]. *)
Theorem commands_stay_local (E : Env) (p : Packet.t) (w : Worker.t) :
  let key := key_of (Packet.clientID p) (Packet.guildId p) in
  (forall k, k <> key ->
     JS.get k (Worker.queues (on_message E p w)) = JS.get k (Worker.queues w))
  /\ (JS.get key (Worker.queues w) = None ->
      is_play (Packet.command p) = false ->
      on_message E p w = w)
  /\ (JS.get key (Worker.queues w) = None ->
      is_play (Packet.command p) = true ->
      Packet.broadcasted p = true ->
      on_message E p w
      = Worker.postMessage (REPLY false (Packet.threadID p)) w).
Proof.
  intros key. split; [| split].
  - intros k Hk. unfold on_message. fold key.
    destruct (Packet.command p)
      as [track startTime endTime vol ps noReplace | ps | | spec | position
         | args | v];
      unfold call;
      destruct (JS.get key (Worker.queues w)) as [q|];
      try reflexivity; try (now apply commit_other).
    + destruct (noReplace && _);
        destruct (Packet.broadcasted p); try reflexivity;
        now rewrite commit_other.
    + destruct (Packet.broadcasted p); [reflexivity |].
      rewrite commit_other by exact Hk. cbn.
      now apply PlaybackFacts.get_set_other.
    + destruct (filters E spec q); now apply commit_other.
  - intros Hg Hc. unfold on_message. fold key.
    destruct (Packet.command p); try discriminate; unfold call;
      now rewrite Hg.
  - intros Hg Hc Hb. unfold on_message. fold key.
    destruct (Packet.command p); try discriminate.
    now rewrite Hg, Hb.
Qed.

(** *** Destroying queues *)

Lemma good_destroyable (k : string) (q : Queue) : good k q -> destroyable k q.
Proof. intros (? & ? & ? & ? & ? & ?). repeat split; assumption. Qed.

Lemma has_get {V} (k : string) (v : V) (m : JS.Map V) :
  JS.get k m = Some v -> JS.has k m = true.
Proof. unfold JS.has. now intros ->. Qed.

Lemma connection_eqb_neq (c : VoiceConnectionStatus) :
  c <> Destroyed -> connection_eqb c Destroyed = false.
Proof. destruct c; intros H; try reflexivity. congruence. Qed.

Lemma flush_nothing (q : Queue) (w : Thread.t) :
  posted q = [] -> Thread.flush q w = w.
Proof.
  unfold Thread.flush. intros ->. cbn. rewrite app_nil_r. now destruct w.
Qed.

Lemma store_has (k : string) (q x : Queue) (w : Thread.t) :
  JS.get k (Thread.queues w) = Some x ->
  Thread.store k q w = Thread.set_queues (JS.set k q (Thread.queues w)) w.
Proof. intros H. unfold Thread.store. now rewrite (has_get k x _ H). Qed.

Lemma destroy_done (k : string) (q : Queue) (w : Thread.t) :
  JS.get k (Thread.queues w) = Some q ->
  destroyable k q ->
  Thread.destroy k q w
  = Thread.Done
      (closing (Thread.set_queues (JS.delete k (Thread.queues w)) w)).
Proof.
  intros Hg (Hk & Hp & Hd & Hc). unfold Thread.destroy. rewrite Hd.
  set (q0 := set_track None (Thread.set__destroyed true q)).
  destruct (WorkerFacts.stop_internal q0) as (_ & Sp & _ & Sg & Sc & Sn).
  pose proof (stop_calm true q0) as ((_ & _ & Sd & _) & _).
  set (q1 := stop true q0) in *. clearbody q1. cbn in Sp, Sg, Sc, Sn, Sd.
  rewrite (flush_nothing q1 w) by congruence.
  rewrite (store_has k _ q w Hg).
  rewrite Sn, (connection_eqb_neq _ Hc).
  unfold Thread.on_connection_destroyed.
  cbn [_destroyed Thread.set_connection set_posted]. rewrite Sd.
  cbn [negb fold_left clientID guildID Thread.set_connection set_posted].
  rewrite Sg, Sc, <- Hk.
  erewrite store_has by (cbn; apply WorkerFacts.get_set).
  cbn [Thread.queues Thread.set_queues]. rewrite !delete_set.
  unfold closing. cbn [Thread.queues Thread.set_queues Thread.outbox].
  destruct (Nat.eqb (JS.size (JS.delete k (Thread.queues w))) 0); reflexivity.
Qed.

Lemma closing_queues (w : Thread.t) :
  Thread.queues (closing w) = Thread.queues w.
Proof. unfold closing. now destruct (Nat.eqb _ _). Qed.

Lemma destroy_healthy (k : string) (q : Queue) (w : Thread.t) :
  JS.get k (Thread.queues w) = Some q ->
  healthy (Thread.queues w) ->
  healthy (Thread.queues (Thread.thread_of (Thread.destroy k q w))).
Proof.
  intros Hg Hh.
  rewrite (destroy_done k q w Hg)
    by (apply good_destroyable; exact (healthy_get k q _ Hh Hg)).
  cbn [Thread.thread_of]. rewrite closing_queues. cbn.
  now apply delete_healthy.
Qed.

Lemma In_get {V} (k : string) (v : V) (m : JS.Map V) :
  List.NoDup (List.map fst m) -> In (k, v) m -> JS.get k m = Some v.
Proof.
  induction m as [| [k' v'] m IH]; cbn; [tauto |].
  intros Hn. inversion Hn as [| x l Hx Hl]. subst.
  intros [[= -> ->] | Hi]; [now rewrite String.eqb_refl |].
  destruct (String.eqb k' k) eqn:H; [| now apply IH].
  apply String.eqb_eq in H. subst k'. exfalso. apply Hx.
  apply in_map_iff. exists (k, v). now split.
Qed.

Lemma without_nil (m : JS.Map Queue) : without [] m = m.
Proof.
  unfold without. apply forallb_filter_id. apply forallb_forall.
  now intros x _.
Qed.

Lemma without_cons (k : string) (ks : list string) (m : JS.Map Queue) :
  List.NoDup (List.map fst m) ->
  without ks (JS.delete k m) = without (k :: ks) m.
Proof.
  intros Hn. rewrite (delete_filter k m Hn). unfold without.
  clear Hn. induction m as [| [k' v'] m IH]; cbn; [reflexivity |].
  destruct (String.eqb k' k); cbn; [exact IH |].
  destruct (existsb (String.eqb k') ks); cbn; now rewrite IH.
Qed.

Lemma delete_keys (k : string) (m : JS.Map Queue) :
  List.NoDup (List.map fst m) -> List.NoDup (List.map fst (JS.delete k m)).
Proof.
  intros Hn. rewrite (delete_filter k m Hn).
  induction m as [| [k' v'] m IH]; cbn; [constructor |].
  inversion Hn as [| x l Hx Hl]. subst.
  destruct (negb (String.eqb k' k)); cbn; [| now apply IH].
  constructor; [| now apply IH].
  intros Hi. apply Hx. apply in_map_iff in Hi.
  destruct Hi as (y & Hy & Hin). apply filter_In in Hin.
  apply in_map_iff. exists y. tauto.
Qed.

Lemma In_delete_other (k : string) (m : JS.Map Queue) (x : string * Queue) :
  List.NoDup (List.map fst m) ->
  In x m -> fst x <> k -> In x (JS.delete k m).
Proof.
  intros Hn Hi Hne. rewrite (delete_filter k m Hn). apply filter_In.
  split; [exact Hi |]. apply negb_true_iff. now apply String.eqb_neq.
Qed.

(** The loop of DELETE_ALL over queues that can be destroyed removes
    them all and closes the thread if none is left. *)
Lemma destroy_each_done (todo : list (string * Queue)) :
  forall w : Thread.t,
    List.NoDup (List.map fst (Thread.queues w)) ->
    List.NoDup (List.map fst todo) ->
    (forall kq, In kq todo ->
       In kq (Thread.queues w) /\ destroyable (fst kq) (snd kq)) ->
    Thread.destroy_each todo w
    = Thread.Done
        (match todo with
         | [] => w
         | _ =>
             closing
               (Thread.set_queues
                  (without (List.map fst todo) (Thread.queues w)) w)
         end).
Proof.
  induction todo as [| [k q] rest IH]; intros w Hn Ht Hin; [reflexivity |].
  unfold Thread.destroy_each. cbn [fold_left fst snd].
  destruct (Hin (k, q) (or_introl eq_refl)) as (Hi & Hd).
  rewrite (destroy_done k q w (In_get k q _ Hn Hi) Hd).
  inversion Ht as [| x l Hx Hl]. subst.
  set (w1 := Thread.set_queues (JS.delete k (Thread.queues w)) w).
  assert (Hin1 : forall kq, In kq rest ->
                   In kq (Thread.queues w1) /\ destroyable (fst kq) (snd kq)).
  { intros kq Hr. destruct (Hin kq (or_intror Hr)) as (H1 & H2).
    split; [| exact H2]. apply In_delete_other; [exact Hn | exact H1 |].
    intros He. apply Hx. rewrite <- He. now apply in_map. }
  assert (Hn1 : List.NoDup (List.map fst (Thread.queues w1)))
    by (apply delete_keys; exact Hn).
  destruct rest as [| kq' rest'].
  - cbn [fold_left List.map].
    rewrite <- without_cons by exact Hn. rewrite without_nil. reflexivity.
  - assert (Hc : closing w1 = w1).
    { unfold closing.
      destruct (Hin1 kq' (or_introl eq_refl)) as (Hq & _).
      destruct (Thread.queues w1); [destruct Hq | reflexivity]. }
    rewrite Hc. fold (Thread.destroy_each (kq' :: rest') w1).
    rewrite (IH w1 Hn1 Hl Hin1). subst w1.
    cbn [Thread.queues Thread.set_queues List.map fst].
    rewrite without_cons by exact Hn. reflexivity.
Qed.

Lemma filter_keys {V} (p : string * V -> bool) (m : JS.Map V) :
  List.NoDup (List.map fst m) ->
  List.NoDup (List.map fst (List.filter p m)).
Proof.
  induction m as [| [k v] m IH]; cbn; [constructor |].
  intros Hn. inversion Hn as [| x l Hx Hl]. subst.
  destruct (p (k, v)); cbn; [| now apply IH].
  constructor; [| now apply IH].
  intros Hi. apply Hx. apply in_map_iff in Hi.
  destruct Hi as (y & Hy & Hin). apply filter_In in Hin.
  apply in_map_iff. exists y. tauto.
Qed.

Lemma filter_healthy (p : string * Queue -> bool) (m : JS.Map Queue) :
  healthy m -> healthy (List.filter p m).
Proof.
  intros (Hn & Hf). split; [now apply filter_keys |].
  apply (proj2 (List.Forall_forall _ _)). intros x Hx.
  apply filter_In in Hx. rewrite List.Forall_forall in Hf. now apply Hf.
Qed.

Lemma on_packet_healthy (E : Env) (p : Thread.Packet) (w : Thread.t) :
  healthy (Thread.queues w) ->
  healthy (Thread.queues (Thread.thread_of (Thread.on_packet E p w))).
Proof.
  intros Hh. unfold Thread.on_packet.
  destruct (negb (Thread.listening w)); [exact Hh |].
  destruct p as [threadID | p | guildId clientID | clientID threadID].
  - exact Hh.
  - cbn. apply on_message_healthy. exact Hh.
  - destruct (JS.get _ (Thread.queues w)) as [q|] eqn:Hg; [| exact Hh].
    now apply destroy_healthy.
  - set (forUser := List.filter _ (Thread.queues w)).
    rewrite destroy_each_done.
    + cbn [Thread.thread_of]. destruct forUser; [exact Hh |].
      rewrite closing_queues. cbn. apply filter_healthy. exact Hh.
    + exact (proj1 Hh).
    + apply filter_keys. exact (proj1 Hh).
    + intros kq Hi. apply filter_In in Hi. destruct Hi as (Hi & _).
      split; [exact Hi |]. apply good_destroyable.
      destruct Hh as (_ & Hf). rewrite List.Forall_forall in Hf.
      now apply Hf.
Qed.

Lemma notify_queues (ns : list Thread.Notice) (c : string) (w : Thread.t) :
  Thread.queues
    (fold_left (fun acc n => Thread.postMessage (Thread.Notify n c) acc) ns w)
  = Thread.queues w.
Proof.
  revert w. induction ns as [| n ns IH]; intros w; [reflexivity |].
  cbn. now rewrite IH.
Qed.

Lemma on_async_healthy (E : Env) (key : string) (a : Thread.Async)
    (w : Thread.t) :
  healthy (Thread.queues w) ->
  healthy (Thread.queues (Thread.on_async E key a w)).
Proof.
  intros Hh. unfold Thread.on_async.
  destruct (JS.get key (Thread.queues w)) as [q|] eqn:Hg; [| exact Hh].
  pose proof (commit_good key _ q (healthy_get key q _ Hh Hg)
                (async_sound E a)) as Hc.
  cbn beta in Hc. destruct (Thread.async E a q) as [q1 notices].
  cbn [fst] in Hc. rewrite notify_queues. cbn.
  apply set_healthy; assumption.
Qed.

Lemma handle_healthy (E : Env) (e : Thread.Event) (w : Thread.t) :
  healthy (Thread.queues w) ->
  healthy (Thread.queues (Thread.handle E e w)).
Proof.
  intros Hh. destruct e as [p | now | key a]; cbn [Thread.handle].
  - now apply on_packet_healthy.
  - unfold Thread.on_interval. destruct (Thread.reporting w); [| exact Hh].
    cbn. unfold reportInterval. cbn [Worker.queues].
    destruct (Nat.eqb _ 0); [exact Hh |].
    pose proof (report_each_healthy now (Thread.queues w) Hh) as Hr.
    destruct (report_each now (Thread.queues w)). exact Hr.
  - now apply on_async_healthy.
Qed.

Lemma run_healthy (E : Env) (es : list Thread.Event) (w : Thread.t) :
  healthy (Thread.queues w) ->
  healthy (Thread.queues (Thread.run E es w)).
Proof.
  unfold Thread.run. revert w.
  induction es as [| e es IH]; intros w Hh; [exact Hh |].
  cbn. apply IH. now apply handle_healthy.
Qed.

Lemma boot_healthy : healthy (Thread.queues Thread.boot).
Proof. split; constructor. Qed.

(** X12.  Whatever messages, timer firings and completions a thread has
    gone through since it was loaded, every queue it holds is stored
    under the key made of its own client and room ids, is not marked
    destroyed, has run all its continuations and handed all its
    messages to the parent. *)
Theorem stored_under_own_key (E : Env) (es : list Thread.Event)
    (k : string) (q : Queue) :
  JS.get k (Thread.queues (Thread.run E es Thread.boot)) = Some q ->
  k = key_of (clientID q) (guildID q)
  /\ _destroyed q = false /\ settled q = [] /\ posted q = [].
Proof.
  intros Hg.
  destruct (healthy_get k q _ (run_healthy E es _ boot_healthy) Hg)
    as (H1 & H2 & H3 & _ & H5 & _).
  repeat split; assumption.
Qed.

(** X13.  Whatever messages, timer firings and completions a thread
    has gone through since it was loaded, in every queue it holds the
    inline volume of the current resource is the volume the queue has
    stored in [_volume]. *)
Theorem volume_in_sync (E : Env) (es : list Thread.Event)
    (k : string) (q : Queue) (r : AudioResource) :
  JS.get k (Thread.queues (Thread.run E es Thread.boot)) = Some q ->
  current q = Some r ->
  resourceVolume r = _volume q.
Proof.
  intros Hg Hc.
  destruct (healthy_get k q _ (run_healthy E es _ boot_healthy) Hg)
    as (_ & _ & _ & Hs & _).
  unfold synced in Hs. now rewrite Hc in Hs.
Qed.

Lemma get_delete_same {V} (k : string) (m : JS.Map V) :
  List.NoDup (List.map fst m) -> JS.get k (JS.delete k m) = None.
Proof.
  induction m as [| [k' v'] m IH]; cbn; [reflexivity |].
  intros Hn. inversion Hn as [| x l Hx Hl]. subst.
  destruct (String.eqb k' k) eqn:H; cbn.
  - apply String.eqb_eq in H. subst k'.
    destruct (JS.get k m) as [v|] eqn:Hg; [| reflexivity].
    exfalso. apply Hx. apply in_map_iff. exists (k, v).
    split; [reflexivity | now apply get_In].
  - rewrite H. now apply IH.
Qed.

Lemma get_delete_other {V} (k k' : string) (m : JS.Map V) :
  k' <> k -> JS.get k' (JS.delete k m) = JS.get k' m.
Proof.
  intros Hne. induction m as [| [k0 v0] m IH]; cbn; [reflexivity |].
  destruct (String.eqb k0 k) eqn:H; cbn.
  - apply String.eqb_eq in H. subst k0.
    destruct (String.eqb k k') eqn:H'; [| reflexivity].
    apply String.eqb_eq in H'. congruence.
  - now rewrite IH.
Qed.

Lemma size_delete {V} (k : string) (v : V) (m : JS.Map V) :
  JS.get k m = Some v -> JS.size m = S (JS.size (JS.delete k m)).
Proof.
  unfold JS.size. induction m as [| [k' v'] m IH]; cbn; [discriminate |].
  destruct (String.eqb k' k); cbn; [reflexivity |].
  intros Hg. now rewrite (IH Hg).
Qed.

(** X14.  DESTROY for a room the thread holds a queue for removes that
    queue and no other; when it was the last queue of the thread, CLOSE
    is posted, the heartbeat is cleared and the thread stops listening;
    nothing else is posted.  DESTROY for a room without a queue, the
    same DESTROY repeated for one, does nothing. *)
Theorem destroy_removes (E : Env) (w : Thread.t) (guildId clientID : string)
    (q : Queue) :
  let key := key_of clientID guildId in
  let w' :=
    Thread.thread_of (Thread.on_packet E (Thread.DESTROY guildId clientID) w) in
  Thread.listening w = true ->
  List.NoDup (List.map fst (Thread.queues w)) ->
  JS.get key (Thread.queues w) = Some q ->
  destroyable key q ->
  JS.get key (Thread.queues w') = None
  /\ (forall k, k <> key ->
        JS.get k (Thread.queues w') = JS.get k (Thread.queues w))
  /\ Thread.outbox w'
     = Thread.outbox w
       ++ (if Nat.eqb (JS.size (Thread.queues w)) 1 then [Thread.CLOSE]
           else [])
  /\ Thread.listening w' = negb (Nat.eqb (JS.size (Thread.queues w)) 1)
  /\ Thread.reporting w'
     = Thread.reporting w && negb (Nat.eqb (JS.size (Thread.queues w)) 1)
  /\ Thread.on_packet E (Thread.DESTROY guildId clientID) w' = Thread.Done w'.
Proof.
  intros key w' Hl Hn Hg Hd. subst w'.
  set (w1 := Thread.set_queues (JS.delete key (Thread.queues w)) w).
  assert (Hon : Thread.on_packet E (Thread.DESTROY guildId clientID) w
                = Thread.Done (closing w1)).
  { unfold Thread.on_packet. rewrite Hl. cbn [negb]. fold key. rewrite Hg.
    apply destroy_done; assumption. }
  rewrite Hon. cbn [Thread.thread_of].
  assert (Hq : Thread.queues (closing w1) = JS.delete key (Thread.queues w))
    by (rewrite closing_queues; reflexivity).
  split; [rewrite Hq; now apply get_delete_same |].
  split; [intros k Hk; rewrite Hq; now apply get_delete_other |].
  assert (Hlast :
    Thread.on_packet E (Thread.DESTROY guildId clientID) (closing w1)
    = Thread.Done (closing w1)).
  { unfold Thread.on_packet. destruct (negb _); [reflexivity |].
    fold key. rewrite Hq, get_delete_same by exact Hn. reflexivity. }
  split; [| split; [| split; [| exact Hlast]]].
  all: rewrite (size_delete key q _ Hg); cbn [Nat.eqb].
  all: unfold closing; cbn [Thread.queues Thread.set_queues w1].
  all: destruct (Nat.eqb (JS.size (JS.delete key (Thread.queues w))) 0); cbn.
  all: rewrite ?app_nil_r, ?andb_false_r, ?andb_true_r; auto.
Qed.

Lemma existsb_key (p : string * Queue -> bool) (m : JS.Map Queue)
    (kq : string * Queue) :
  List.NoDup (List.map fst m) ->
  In kq m ->
  existsb (String.eqb (fst kq)) (List.map fst (List.filter p m)) = p kq.
Proof.
  intros Hn Hi. destruct (p kq) eqn:Hp.
  - apply existsb_exists. exists (fst kq).
    split; [| apply String.eqb_refl].
    apply in_map. apply filter_In. now split.
  - destruct (existsb _ _) eqn:He; [| reflexivity].
    apply existsb_exists in He. destruct He as (k & Hk & Heq).
    apply String.eqb_eq in Heq. subst k.
    apply in_map_iff in Hk. destruct Hk as ([k' q'] & Hf & Hin).
    apply filter_In in Hin. destruct Hin as (Hin & Hp').
    cbn in Hf. subst k'. destruct kq as [k q]. cbn in *.
    pose proof (In_get k q m Hn Hi) as G1.
    pose proof (In_get k q' m Hn Hin) as G2.
    congruence.
Qed.

(** X15.  DELETE_ALL for a client replies with the number of queues of
    the client the thread holds, then destroys each of them: afterwards
    the thread holds exactly the queues of the other clients, in their
    order.  CLOSE follows the reply when the client had queues and no
    other client has; nothing else is posted. *)
Theorem delete_all_removes (E : Env) (w : Thread.t) (clientID : string)
    (threadID : nat) :
  let mine := List.filter (of_client clientID) (Thread.queues w) in
  let others :=
    List.filter (fun kq => negb (of_client clientID kq)) (Thread.queues w) in
  let closes := negb (is_nil mine) && is_nil others in
  Thread.listening w = true ->
  List.NoDup (List.map fst (Thread.queues w)) ->
  (forall kq, In kq mine -> destroyable (fst kq) (snd kq)) ->
  exists w',
    Thread.on_packet E (Thread.DELETE_ALL clientID threadID) w
    = Thread.Done w'
    /\ Thread.queues w' = others
    /\ Thread.outbox w'
       = Thread.outbox w
         ++ Thread.DELETED_REPLY (length mine) threadID
            :: (if closes then [Thread.CLOSE] else [])
    /\ Thread.listening w' = negb closes
    /\ Thread.reporting w' = Thread.reporting w && negb closes.
Proof.
  intros mine others closes Hl Hn Hd. unfold Thread.on_packet.
  rewrite Hl. cbn [negb]. fold (of_client clientID). fold mine.
  rewrite destroy_each_done.
  2: { exact Hn. }
  2: { apply filter_keys. exact Hn. }
  2: { intros kq Hi. split; [| now apply Hd].
       apply filter_In in Hi. apply Hi. }
  assert (Ho : without (List.map fst mine) (Thread.queues w) = others).
  { unfold without, others. apply filter_ext_in. intros kq Hi. f_equal.
    apply existsb_key; assumption. }
  eexists. split; [reflexivity |].
  subst closes. destruct mine as [| kq mine'] eqn:Hm.
  - cbn. destruct w as [m o r l]. cbn in *. subst l.
    rewrite andb_true_r. repeat split.
    unfold others. symmetry. apply forallb_filter_id. apply forallb_forall.
    intros x Hx. apply negb_true_iff.
    destruct (of_client clientID x) eqn:Hc; [| reflexivity].
    assert (Hin : In x (List.filter (of_client clientID) m))
      by (apply filter_In; now split).
    rewrite Hm in Hin. destruct Hin.
  - cbn [Thread.queues Thread.postMessage]. rewrite Ho. unfold closing.
    cbn [Thread.queues Thread.set_queues Thread.outbox Thread.postMessage
         Thread.listening Thread.reporting is_nil negb andb].
    destruct others as [| o others']; cbn.
    + rewrite andb_false_r, <- app_assoc. repeat split.
    + rewrite andb_true_r. repeat split. exact Hl.
Qed.

(** *** Statistics and the heartbeat *)

Lemma heartbeat_updates (now : Z) (qs : list Queue) :
  (forall q, In q qs -> posted q = []) ->
  length (List.filter is_update (flat_map (WorkerSpec.heartbeat now) qs))
  = length (List.filter (fun q => negb (paused q)) qs).
Proof.
  induction qs as [| q qs IH]; intros Hp; [reflexivity |].
  cbn [flat_map List.filter]. rewrite List.filter_app, length_app.
  rewrite IH by (intros x Hx; apply Hp; now right).
  unfold WorkerSpec.heartbeat. rewrite (Hp q (or_introl eq_refl)).
  cbn [List.map app]. destruct (paused q); reflexivity.
Qed.

(** X16.  STATS is answered with the number of queues of the thread as
    [players] and the number of those whose [paused] flag is clear as
    [playingPlayers], which is therefore no larger; and the next firing
    of the heartbeat posts exactly [playingPlayers] playerUpdate
    frames. *)
Theorem stats_counts (E : Env) (w : Thread.t) (threadID : nat) (now : Z) :
  let playing :=
    length
      (List.filter (fun q => negb (paused q)) (JS.values (Thread.queues w))) in
  Thread.listening w = true ->
  Thread.reporting w = true ->
  (forall q, In q (JS.values (Thread.queues w)) -> posted q = []) ->
  Thread.on_packet E (Thread.STATS threadID) w
  = Thread.Done
      (Thread.postMessage
         (Thread.STATS_REPLY playing (JS.size (Thread.queues w)) threadID) w)
  /\ (playing <= JS.size (Thread.queues w))%nat
  /\ exists news,
      Thread.outbox (Thread.on_interval now w)
      = Thread.outbox w ++ List.map Thread.Base news
      /\ length (List.filter is_update news) = playing.
Proof.
  intros playing Hl Hr Hp. split; [| split].
  - unfold Thread.on_packet. rewrite Hl. reflexivity.
  - subst playing. unfold JS.size, JS.values.
    rewrite <- (length_map snd (Thread.queues w)). apply filter_length_le.
  - unfold Thread.on_interval, Thread.lift. rewrite Hr.
    cbn [Thread.outbox]. eexists. split; [reflexivity |].
    unfold reportInterval. cbn [Worker.queues Worker.outbox].
    destruct (Nat.eqb (JS.size (Thread.queues w)) 0) eqn:Hz.
    + cbn. subst playing. apply Nat.eqb_eq in Hz. unfold JS.size in Hz.
      destruct (Thread.queues w); [reflexivity | discriminate].
    + pose proof (WorkerFacts.report_each_outs now (Thread.queues w)) as Ho.
      destruct (report_each now (Thread.queues w)) as [m outs].
      cbn [snd Worker.outbox app] in *. rewrite Ho.
      now apply heartbeat_updates.
Qed.

(** *** A player that does not start *)

(** X17.  When a resource handed to the player has not started playing
    in time and the track is still the one the call saw, the player is
    stopped without a TrackEndEvent and one TrackStuckEvent is posted;
    the queue is left idle without track or resource.  The player being
    stopped has its listener clear the track first: unless the player
    was idle and a track was stored, the event names the track
    [UNKNOWN]. *)
Theorem stuck_names_no_track (q : Queue) :
  let q' := fst (Thread.play_stuck true q) in
  posted q' = posted q
  /\ track q' = None /\ current q' = None /\ player q' = Idle
  /\ stopping q' = false /\ shouldntCallFinish q' = false
  /\ (player q <> Idle \/ track q = None ->
      snd (Thread.play_stuck true q)
      = [Thread.TrackStuckEvent (guildID q) "UNKNOWN"]).
Proof.
  unfold Thread.play_stuck. cbn [negb fst snd].
  unfold stop, player_stop, player_enters, on_player_stateChange, post.
  destruct (player q) eqn:Hp; cbn; rewrite ?Hp; cbn;
    repeat split; rewrite ?Hp; try reflexivity;
    try (intros [H | H]; try congruence; try reflexivity;
         rewrite H; reflexivity).
Qed.

End ThreadFacts.

(** ** Further properties of the gateway *)

Module SessionFacts.
Import Gateway GatewaySpec SessionSpec.

(** Sending touches the wire only. *)
Lemma replay_frame (s : Socket) (evs : list Worker.Data) (g : t) :
  let g' := fold_left (fun a event => send s event a) evs g in
  closed g' = closed g /\ playerMap g' = playerMap g
  /\ connections g' = connections g.
Proof.
  revert g. induction evs as [| e evs IH]; intros g; cbn; [repeat split |].
  destruct (IH (send s e g)) as (Hc & Hp & Hn). rewrite Hc, Hp, Hn.
  repeat split.
Qed.

Lemma on_pool_message_frame (clientID : string) (data : Worker.Data) (g : t) :
  let g' := on_pool_message clientID data g in
  playerMap g' = playerMap g /\ connections g' = connections g
  /\ timers g' = timers g /\ closed g' = closed g.
Proof.
  unfold on_pool_message.
  destruct (playerMap g !! _) as [s|];
    destruct (List.find _ (JS.values (connections g))) as [e|];
    try destruct (List.find _ e) as [c|];
    try destruct (resumeKey c) as [k|];
    try destruct (JS.str_truthy k);
    try destruct (socketDeleteTimeouts g !! k);
    repeat split.
Qed.

Lemma on_upgraded_frame (userID : string) (request : Request) (s : Socket)
    (g : t) :
  playerMap (on_upgraded userID request s g) = playerMap g
  /\ closed (on_upgraded userID request s g) = closed g.
Proof.
  unfold on_upgraded.
  destruct (resume_key request) as [key|]; [| now destruct (JS.get _ _)].
  destruct (JS.str_truthy key); [| now destruct (JS.get _ _)].
  destruct (socketDeleteTimeouts g !! key) as [resume|];
    [| now destruct (JS.get _ _)].
  match goal with
  | |- context [fold_left _ ?evs ?x] =>
      destruct (replay_frame s evs x) as (Hc & Hp & _)
  end.
  rewrite Hc, Hp. split; reflexivity.
Qed.

Lemma on_upgrade_frame (password : option string) (request : Request)
    (s : Socket) (g : t) :
  playerMap (fst (on_upgrade password request s g)) = playerMap g
  /\ closed (fst (on_upgrade password request s g)) = closed g.
Proof.
  unfold on_upgrade.
  destruct (user_id request) as [userID|]; [| split; reflexivity].
  destruct (_ || _); [split; reflexivity |].
  apply on_upgraded_frame.
Qed.

Lemma on_client_close_frame (socket : Socket) (userID : string) (tm : Timer)
    (g : t) :
  playerMap (on_client_close socket userID tm g) = playerMap g
  /\ closed (on_client_close socket userID tm g) = socket :: closed g.
Proof.
  unfold on_client_close. cbn [connections set_closed].
  destruct (JS.get userID (connections g)) as [entry|]; [| split; reflexivity].
  destruct (List.find _ entry) as [found|]; [| split; reflexivity].
  destruct (JS.opt_str_truthy (resumeKey found));
    [destruct (resumeKey found) |]; split; reflexivity.
Qed.

(** X18.  Only PLAY writes [playerMap]: an upgrade (resuming or not), the
    close of a socket, CONFIGURE_RESUMING and the relay of an event leave
    every route as it is.  Hence, after the socket of a route has closed
    and the session has been resumed on a new socket, an event of that
    room is still sent on the socket that closed. *)
Theorem routes_survive :
  (forall password request s g,
      playerMap (fst (on_upgrade password request s g)) = playerMap g)
  /\ (forall s userID tm g,
        playerMap (on_client_close s userID tm g) = playerMap g)
  /\ (forall s userID key tmo g,
        playerMap (on_configureResuming s userID key tmo g) = playerMap g)
  /\ (forall clientID data g,
        playerMap (on_pool_message clientID data g) = playerMap g)
  /\ (forall password request s s' userID tm clientID data g,
        playerMap g !! Worker.key_of clientID (Worker.guildId_of data)
        = Some s ->
        let g2 :=
          fst (on_upgrade password request s'
                 (on_client_close s userID tm g)) in
        wire (on_pool_message clientID data g2) = wire g2 ++ [(s, data)]
        /\ In s (closed g2)).
Proof.
  split; [intros; apply on_upgrade_frame |].
  split; [intros; apply on_client_close_frame |].
  split.
  { intros s userID key tmo g. unfold on_configureResuming.
    destruct (negb _); [reflexivity |].
    destruct key; [| reflexivity]. now destruct (JS.get _ _). }
  split; [intros; apply on_pool_message_frame |].
  intros password request s s' userID tm clientID data g Hp g2.
  assert (Hp2 : playerMap g2 = playerMap g).
  { subst g2. rewrite (proj1 (on_upgrade_frame _ _ _ _)).
    apply on_client_close_frame. }
  assert (Hc2 : closed g2 = s :: closed g).
  { subst g2. rewrite (proj2 (on_upgrade_frame _ _ _ _)).
    apply on_client_close_frame. }
  split; [| rewrite Hc2; now left].
  unfold on_pool_message. rewrite Hp2, Hp.
  destruct (List.find _ (JS.values (connections g2))) as [e|];
    try destruct (List.find _ e) as [c|];
    try destruct (resumeKey c) as [k|];
    try destruct (JS.str_truthy k);
    try destruct (socketDeleteTimeouts g2 !! k);
    reflexivity.
Qed.

(** *** The resume window *)

(** The close of the first connection of a user, which has a resume
    key. *)
Lemma close_with_key (s : Socket) (userID : string) (tm : Timer) (g : t)
    (c : Connection) (rest : list Connection) (k : string) :
  JS.get userID (connections g) = Some (c :: rest) ->
  socket c = s ->
  resumeKey c = Some k ->
  k <> "" ->
  on_client_close s userID tm g
  = set_socketDeleteTimeouts
      (<[k := {| timeout := tm; events := [] |}]> (socketDeleteTimeouts g))
      (setTimeout tm (set_closed (s :: closed g) g)).
Proof.
  intros Hg Hs Hk Hne. unfold on_client_close.
  cbn [connections set_closed]. rewrite Hg. cbn [List.find].
  rewrite Hs, Nat.eqb_refl, Hk. cbn [JS.opt_str_truthy].
  rewrite (GatewayFacts.str_truthy_true k Hne). reflexivity.
Qed.

(** The relay while the window of the key [k] is open. *)
Lemma relay_window (s : Socket) (c : Connection) (rest : list Connection)
    (k : string) (evs : list (string * Worker.Data)) :
  resumeKey c = Some k ->
  k <> "" ->
  forall (g : t) (b : ResumeBuffer),
    List.find (fun i => existsb (socket_is (Some s)) i)
      (JS.values (connections g)) = Some (c :: rest) ->
    (forall e, In e evs ->
       playerMap g !! Worker.key_of (fst e) (Worker.guildId_of (snd e))
       = Some s) ->
    socketDeleteTimeouts g !! k = Some b ->
    let g' := relay evs g in
    wire g' = wire g ++ List.map (pair s) (List.map snd evs)
    /\ socketDeleteTimeouts g'
       = <[k := {| timeout := timeout b;
                   events := events b ++ List.map snd evs |}]>
           (socketDeleteTimeouts g)
    /\ timers g' = timers g /\ closed g' = closed g
    /\ connections g' = connections g.
Proof.
  intros Hk Hne. induction evs as [| [cl d] evs IH]; intros g b Hf Hp Hb.
  - cbn. rewrite !app_nil_r. repeat split.
    symmetry. apply insert_id. rewrite Hb. now destruct b.
  - unfold relay. cbn [fold_left fst snd].
    set (g1 := on_pool_message cl d g).
    assert (H1 : g1 = send s d
                   (set_socketDeleteTimeouts
                      (<[k := {| timeout := timeout b;
                                 events := events b ++ [d] |}]>
                         (socketDeleteTimeouts g)) g)).
    { subst g1. unfold on_pool_message.
      pose proof (Hp (cl, d) (or_introl eq_refl)) as Hpd.
      cbn [fst snd] in Hpd. rewrite Hpd, Hf. cbn [List.find socket_truthy].
      rewrite Hk, (GatewayFacts.str_truthy_true k Hne), Hb. reflexivity. }
    fold (relay evs g1).
    destruct (IH g1 {| timeout := timeout b; events := events b ++ [d] |})
      as (Hw & Hs & Ht & Hc & Hn).
    + rewrite H1. exact Hf.
    + intros e He. rewrite H1. cbn. apply Hp. now right.
    + rewrite H1. cbn. apply lookup_insert_eq.
    + rewrite Hw, Hs, Ht, Hc, Hn, H1. cbn.
      rewrite insert_insert_eq, <- !app_assoc. repeat split.
Qed.

(** X19.  No event is lost in the resume window.  The first connection
    of a user has a resume key and its socket carries the routes of some
    rooms; the socket closes, events of those rooms arrive from the
    workers, and a client is upgraded with the key.  Then the new socket
    is sent exactly those events, in the order they arrived, after they
    were each sent once on the socket that had closed; the buffer is
    gone, its timer is cancelled, and the upgrade answers
    [Session-Resumed: true]. *)
Theorem no_event_lost (password : option string) (request : Request)
    (s s' : Socket) (userID : string) (tm : Timer) (k : string)
    (c : Connection) (rest : list Connection)
    (evs : list (string * Worker.Data)) (g g3 : t) (headers : list string) :
  JS.get userID (connections g) = Some (c :: rest) ->
  List.find (fun i => existsb (socket_is (Some s)) i)
    (JS.values (connections g)) = Some (c :: rest) ->
  socket c = s ->
  resumeKey c = Some k ->
  k <> "" ->
  (forall e, In e evs ->
     playerMap g !! Worker.key_of (fst e) (Worker.guildId_of (snd e))
     = Some s) ->
  resume_key request = Some k ->
  on_upgrade password request s' (relay evs (on_client_close s userID tm g))
  = (g3, Upgraded headers) ->
  wire g3
  = wire g ++ List.map (pair s) (List.map snd evs)
    ++ List.map (pair s') (List.map snd evs)
  /\ socketDeleteTimeouts g3 !! k = None
  /\ ~ In tm (timers g3)
  /\ headers = ["Session-Resumed: true"; "Lavalink-Major-Version: 3";
                "Is-Volcano: true"].
Proof.
  intros Hg Hf Hs Hk Hne Hp Hr Hup.
  rewrite (close_with_key s userID tm g c rest k Hg Hs Hk Hne) in Hup.
  match type of Hup with
  | on_upgrade _ _ _ (relay evs ?x) = _ => set (g1 := x) in *
  end.
  destruct (relay_window s c rest k evs Hk Hne g1
              {| timeout := tm; events := [] |})
    as (Hw & Hb & Ht & Hc & Hn).
  { exact Hf. }
  { exact Hp. }
  { subst g1. cbn. apply lookup_insert_eq. }
  set (g2 := relay evs g1) in *. cbn [timeout events app] in Hb.
  destruct (GatewayFacts.on_upgrade_accepted _ _ _ _ _ _ Hup)
    as (u & _ & -> & ->).
  assert (Hb2 : socketDeleteTimeouts g2 !! k
                = Some {| timeout := tm; events := List.map snd evs |})
    by (rewrite Hb; apply lookup_insert_eq).
  unfold on_upgraded, on_headers, resumable.
  rewrite Hr, (GatewayFacts.str_truthy_true k Hne), Hb2. cbn [andb timeout events].
  match goal with
  | |- context [fold_left _ _ ?x] => set (g3 := x)
  end.
  destruct (GatewayFacts.replay_wire s' (List.map snd evs) g3)
    as (Hw3 & Ht3 & Hs3 & _).
  rewrite Hw3, Ht3, Hs3.
  split; [| split; [| split]].
  - subst g3. cbn. rewrite Hw. subst g1. cbn. now rewrite <- app_assoc.
  - subst g3. cbn. apply lookup_delete_eq.
  - subst g3. cbn. apply (GatewayFacts.cleared tm g2).
  - reflexivity.
Qed.

(** *** Upgrades *)

Lemma rebind_binds (key : string) (s : Socket) (l : list Connection) :
  exists c, In c (rebind key s l) /\ socket c = s.
Proof.
  induction l as [| a l IH]; cbn.
  - eexists. split; [left; reflexivity | reflexivity].
  - destruct (key_is key a).
    + eexists. split; [left; reflexivity | reflexivity].
    + destruct IH as (c & Hc & Hs). exists c. split; [now right | exact Hs].
Qed.

Lemma on_upgraded_connected (userID : string) (request : Request)
    (s : Socket) (g : t) :
  connected userID s (on_upgraded userID request s g).
Proof.
  assert (Hplain :
    connected userID s
      (set_connections
         match JS.get userID (connections g) with
         | Some existing =>
             JS.set userID (existing ++ [fresh_connection s]) (connections g)
         | None => JS.set userID [fresh_connection s] (connections g)
         end g)).
  { destruct (JS.get userID (connections g)) as [existing|];
      eexists; exists (fresh_connection s); cbn;
      (split; [apply WorkerFacts.get_set |]);
      (split; [| reflexivity]);
      [apply in_or_app; right; now left | now left]. }
  unfold on_upgraded.
  destruct (resume_key request) as [key|]; [| exact Hplain].
  destruct (JS.str_truthy key); [| exact Hplain].
  destruct (socketDeleteTimeouts g !! key) as [resume|]; [| exact Hplain].
  match goal with
  | |- context [fold_left _ ?evs ?x] =>
      destruct (replay_frame s evs x) as (_ & _ & Hn)
  end.
  unfold connected. rewrite Hn. cbn.
  destruct (JS.get userID (connections g)) as [exist_|].
  - destruct (rebind_binds key s exist_) as (c & Hc & Hs).
    exists (rebind key s exist_), c.
    split; [apply WorkerFacts.get_set | split; assumption].
  - exists [fresh_connection s], (fresh_connection s).
    split; [apply WorkerFacts.get_set | split; [now left | reflexivity]].
Qed.

Lemma is_numeric_spec (userID : string) :
  is_numeric userID = false <-> userID = "" \/ all_digits userID = false.
Proof.
  unfold is_numeric, JS.str_truthy. split.
  - destruct (String.eqb userID "") eqn:H.
    + apply String.eqb_eq in H. now left.
    + cbn. now right.
  - intros [-> | H]; [reflexivity |]. rewrite H. apply andb_false_r.
Qed.

(** X20.  An upgrade is refused, with [401 Unauthorized] and without any
    change of the gateway, exactly when a password is configured and the
    Authorization header is not that password, or the User-Id header is
    missing, empty or not made of digits only.  Any other upgrade is
    accepted: the handshake carries the three headers and the user holds
    a connection on the new socket. *)
Theorem upgrade_authorization (password : option string) (request : Request)
    (s : Socket) (g : t) :
  (refused password request ->
   on_upgrade password request s g = (g, Unauthorized))
  /\ (~ refused password request ->
      exists userID,
        user_id request = Some userID
        /\ on_upgrade password request s g
           = (on_upgraded userID request s g,
              Upgraded (on_headers request g))
        /\ connected userID s (fst (on_upgrade password request s g))).
Proof.
  unfold refused, on_upgrade. split.
  - intros [(p & -> & Ha) | Hu].
    + destruct (user_id request) as [userID|]; [| reflexivity].
      destruct (authorization request) as [a|]; [| reflexivity].
      destruct (String.eqb a p) eqn:He; [| reflexivity].
      apply String.eqb_eq in He. congruence.
    + destruct (user_id request) as [userID|]; [| reflexivity].
      apply is_numeric_spec in Hu. rewrite Hu. cbn [negb].
      now rewrite orb_true_r.
  - intros Hn. destruct (user_id request) as [userID|]; [| tauto].
    exists userID. split; [reflexivity |].
    assert (Hp : match password with
                 | Some p =>
                     match authorization request with
                     | Some a => negb (String.eqb a p)
                     | None => true
                     end
                 | None => false
                 end = false).
    { destruct password as [p|]; [| reflexivity].
      destruct (authorization request) as [a|] eqn:Ha.
      - destruct (String.eqb a p) eqn:He; [reflexivity |].
        apply String.eqb_neq in He. exfalso. apply Hn. left.
        exists p. split; [reflexivity | congruence].
      - exfalso. apply Hn. left. exists p. split; [reflexivity | discriminate]. }
    assert (Hu : is_numeric userID = true).
    { destruct (is_numeric userID) eqn:H; [reflexivity |].
      apply is_numeric_spec in H. tauto. }
    rewrite Hp, Hu. cbn [negb orb fst].
    split; [reflexivity | apply on_upgraded_connected].
Qed.

(** *** Configuring a session and closing it *)

Lemma find_configured (s : Socket) (k : string) (tmo : float)
    (entry : list Connection) :
  existsb (fun c => Nat.eqb (socket c) s) entry = true ->
  exists found,
    List.find (fun i => Nat.eqb (socket i) s) (configure s k tmo entry)
    = Some found
    /\ resumeKey found = Some k /\ resumeTimeout found = tmo.
Proof.
  induction entry as [| c entry IH]; cbn; [discriminate |].
  destruct (Nat.eqb (socket c) s) eqn:Hc; cbn.
  - intros _. rewrite Hc. eexists. repeat split.
  - intros He. rewrite Hc. now apply IH.
Qed.

Lemma configure_length (s : Socket) (k : string) (tmo : float)
    (entry : list Connection) :
  length (configure s k tmo entry) = length entry
  /\ List.map socket (configure s k tmo entry) = List.map socket entry.
Proof.
  induction entry as [| c entry IH]; cbn; [split; reflexivity |].
  destruct (Nat.eqb (socket c) s); cbn; [split; reflexivity |].
  destruct IH as (-> & ->). split; reflexivity.
Qed.

(** X21.  CONFIGURE_RESUMING with a key, sent on a socket the user holds
    a connection on, followed by the close of that socket, opens the
    resume window: an empty buffer is stored under the key with the new
    timer, the connection stays in the list of the user, which keeps its
    sockets, and an upgrade that presents the key is resumable. *)
Theorem configure_then_close (s : Socket) (userID k : string)
    (tmo : option float) (tm : Timer) (g : t) (entry : list Connection) :
  JS.get userID (connections g) = Some entry ->
  existsb (fun c => Nat.eqb (socket c) s) entry = true ->
  k <> "" ->
  let g1 := on_configureResuming s userID (Some k) tmo g in
  let g2 := on_client_close s userID tm g1 in
  socketDeleteTimeouts g2
  = <[k := {| timeout := tm; events := [] |}]> (socketDeleteTimeouts g)
  /\ timers g2 = timers g ++ [tm]
  /\ connections g2 = connections g1
  /\ (exists entry',
        JS.get userID (connections g2) = Some entry'
        /\ List.map socket entry' = List.map socket entry)
  /\ (forall request,
        resume_key request = Some k -> resumable request g2 = true).
Proof.
  intros Hg He Hne g1 g2.
  assert (Hs : JS.str_truthy k = true)
    by (apply GatewayFacts.str_truthy_true; exact Hne).
  assert (H1 : g1 = set_connections
                      (JS.set userID (configure s k (JS.opt_or tmo 60) entry)
                         (connections g)) g).
  { subst g1. unfold on_configureResuming. cbn [JS.opt_str_truthy].
    rewrite Hs, Hg. reflexivity. }
  destruct (find_configured s k (JS.opt_or tmo 60) entry He)
    as (found & Hf & Hk & _).
  assert (H2 : g2 = set_socketDeleteTimeouts
                      (<[k := {| timeout := tm; events := [] |}]>
                         (socketDeleteTimeouts g1))
                      (setTimeout tm (set_closed (s :: closed g1) g1))).
  { subst g2. unfold on_client_close. cbn [connections set_closed].
    rewrite H1 at 1. cbn [connections set_connections].
    rewrite WorkerFacts.get_set, Hf, Hk. cbn [JS.opt_str_truthy].
    rewrite Hs. reflexivity. }
  rewrite H2. cbn. rewrite H1. cbn.
  split; [reflexivity |]. split; [reflexivity |]. split; [reflexivity |].
  split.
  - eexists. split; [apply WorkerFacts.get_set |].
    apply configure_length.
  - intros request Hr. unfold resumable. rewrite Hr, Hs. cbn.
    now rewrite lookup_insert_eq.
Qed.

Lemma find_first (s : Socket) (pre post : list Connection)
    (found : Connection) :
  (forall c, In c pre -> socket c <> s) ->
  socket found = s ->
  List.find (fun i => Nat.eqb (socket i) s) (pre ++ found :: post)
  = Some found
  /\ JS.indexOf (fun a b => Nat.eqb (socket a) (socket b)) found
       (pre ++ found :: post) = Some (length pre).
Proof.
  intros Hp Hs. subst s. induction pre as [| a pre IH]; cbn.
  - rewrite Nat.eqb_refl. split; reflexivity.
  - assert (Ha : Nat.eqb (socket a) (socket found) = false)
      by (apply Nat.eqb_neq; apply Hp; now left).
    rewrite Ha.
    destruct IH as (-> & ->); [intros c Hc; apply Hp; now right |].
    split; reflexivity.
Qed.

(** X22.  The close of a socket whose connection has no resume key
    removes that connection, the first one of the user on the socket,
    and keeps the others in their order; the user leaves [connections]
    with the last connection.  No buffer is created and no timer set,
    and the other users are not touched. *)
Theorem close_without_key (s : Socket) (userID : string) (tm : Timer)
    (g : t) (pre post : list Connection) (found : Connection) :
  List.NoDup (List.map fst (connections g)) ->
  JS.get userID (connections g) = Some (pre ++ found :: post) ->
  (forall c, In c pre -> socket c <> s) ->
  socket found = s ->
  JS.opt_str_truthy (resumeKey found) = false ->
  let g' := on_client_close s userID tm g in
  JS.get userID (connections g')
  = (if Worker.is_nil (pre ++ post) then None else Some (pre ++ post))
  /\ (forall u, u <> userID ->
        JS.get u (connections g') = JS.get u (connections g))
  /\ socketDeleteTimeouts g' = socketDeleteTimeouts g
  /\ timers g' = timers g
  /\ closed g' = s :: closed g.
Proof.
  intros Hn Hg Hp Hs Hk g'. subst g'. unfold on_client_close.
  cbn [connections set_closed]. rewrite Hg.
  destruct (find_first s pre post found Hp Hs) as (Hf & Hi).
  rewrite Hf, Hk, Hi.
  assert (Hsp : JS.splice (length pre) 1 (pre ++ found :: post) = pre ++ post).
  { unfold JS.splice. rewrite WorkerFacts.firstn_length_app.
    replace (length pre + 1)%nat with (length (pre ++ [found]))
      by (rewrite length_app; reflexivity).
    replace (pre ++ found :: post) with ((pre ++ [found]) ++ post)
      by (now rewrite <- app_assoc).
    now rewrite WorkerFacts.skipn_length_app. }
  rewrite Hsp. cbn.
  destruct (Worker.is_nil (pre ++ post)).
  - split; [now apply ThreadFacts.get_delete_same |].
    split; [intros u Hu; now apply ThreadFacts.get_delete_other |].
    repeat split.
  - split; [apply WorkerFacts.get_set |].
    split; [intros u Hu; now apply PlaybackFacts.get_set_other |].
    repeat split.
Qed.

(** *** Keys *)

Lemma dot_not_digit : is_digit "." = false.
Proof. reflexivity. Qed.

(** X23.  Keys do not collide: the user ids the gateway accepts are made
    of digits, so the key [userID.guildId] determines both the user and
    the room. *)
Theorem key_of_injective (u u' g g' : string) :
  all_digits u = true ->
  all_digits u' = true ->
  Worker.key_of u g = Worker.key_of u' g' ->
  u = u' /\ g = g'.
Proof.
  unfold Worker.key_of. revert u'.
  induction u as [| a u IH]; intros [| a' u'] Hu Hu' He;
    simpl in Hu, Hu', He.
  - injection He as He. now subst.
  - injection He as Ha Hr. subst a'. rewrite dot_not_digit in Hu'.
    discriminate.
  - injection He as Ha Hr. subst a. rewrite dot_not_digit in Hu.
    discriminate.
  - injection He as Ha Hr. subst a'. apply andb_true_iff in Hu, Hu'.
    destruct (IH u' (proj2 Hu) (proj2 Hu') Hr) as (-> & ->).
    split; reflexivity.
Qed.

(** *** Voice states *)

Lemma prefix_key (u u' g : string) :
  all_digits u = true ->
  String.prefix u (Worker.key_of u' g) = String.prefix u u'.
Proof.
  unfold Worker.key_of. revert u'.
  induction u as [| a u IH]; intros u' Hu; [now destruct u' |].
  cbn in Hu. apply andb_true_iff in Hu. destruct Hu as (Ha & Hu).
  destruct u' as [| a' u']; simpl.
  - destruct (Ascii.ascii_dec a "."%char) as [-> |]; [| reflexivity].
    rewrite dot_not_digit in Ha. discriminate.
  - destruct (Ascii.ascii_dec a a'); [now apply IH | reflexivity].
Qed.

(** X24.  When a socket closes, the voice states whose key starts with
    the user id are deleted and no other: those of the user, and those
    of every user whose id starts with the id of the user that left. *)
Theorem forget_by_prefix (V : Type) (userID : string)
    (states : gmap string V) :
  (forall k,
     Voice.forget V userID states !! k
     = if String.prefix userID k then None else states !! k)
  /\ (forall other guildId,
        all_digits userID = true ->
        String.prefix userID other = true ->
        Voice.forget V userID states !! Voice.key other guildId = None)
  /\ (forall other guildId,
        all_digits userID = true ->
        String.prefix userID other = false ->
        Voice.forget V userID states !! Voice.key other guildId
        = states !! Voice.key other guildId).
Proof.
  assert (H : forall k,
             Voice.forget V userID states !! k
             = if String.prefix userID k then None else states !! k).
  { intros k. unfold Voice.forget. rewrite map_lookup_filter.
    destruct (states !! k) as [v|]; cbn;
      [| now destruct (String.prefix userID k)].
    destruct (String.prefix userID k) eqn:Hp.
    - rewrite option_guard_False; [reflexivity | discriminate].
    - rewrite option_guard_True; reflexivity. }
  split; [exact H |]. split.
  - intros other guildId Hd Hp. rewrite H. unfold Voice.key.
    now rewrite (prefix_key userID other _ Hd), Hp.
  - intros other guildId Hd Hp. rewrite H. unfold Voice.key.
    now rewrite (prefix_key userID other _ Hd), Hp.
Qed.

End SessionFacts.

(** ** Properties of the keep-alive *)

Module KeepAliveFacts.
Import KeepAlive.

Lemma sweep_live (clients : list Client) :
  (forall c, In c clients -> is_dead c = false) ->
  sweep clients = (List.map mark clients, probes clients).
Proof.
  induction clients as [| c l IH]; intros H; [reflexivity |].
  cbn [sweep]. rewrite (H c (or_introl eq_refl)).
  rewrite IH by (intros x Hx; apply H; now right). reflexivity.
Qed.

(** X25.  The sweep of the minute timer stops at the first client whose
    last ping was not answered: that client is terminated; the clients
    before it are marked and, when open, pinged and sent the stats; the
    clients after it are neither pinged, nor sent the stats, nor marked.
    So when no client answers between two sweeps, the second sweep
    terminates the first client and does nothing else. *)
Theorem sweep_stops_at_first_dead :
  (forall before dead after,
      (forall c, In c before -> is_dead c = false) ->
      is_dead dead = true ->
      sweep (before ++ dead :: after)
      = (List.map mark before ++ dead :: after,
         probes before ++ [Terminate (socket dead)]))
  /\ (forall c clients,
        (forall x, In x (c :: clients) -> is_dead x = false) ->
        sweep (fst (sweep (c :: clients)))
        = (fst (sweep (c :: clients)), [Terminate (socket c)])).
Proof.
  split.
  - intros before dead after Hb Hd.
    induction before as [| c l IH]; cbn [sweep app List.map].
    + now rewrite Hd.
    + rewrite (Hb c (or_introl eq_refl)).
      rewrite IH by (intros x Hx; apply Hb; now right).
      unfold probes. cbn [flat_map]. now rewrite <- app_assoc.
  - intros c clients H. rewrite (sweep_live _ H). reflexivity.
Qed.

End KeepAliveFacts.

(** ** The further statements on the scenarios *)

Module MoreExamples.
Import Scenario Cases.

Lemma pause_resume_round_trip_witness :
  Worker.player (Worker.resume (Worker.pause playing)) = Worker.Playing
  /\ Worker.paused (Worker.resume (Worker.pause playing)) = false.
Proof.
  destruct (PlaybackFacts.pause_resume_round_trip playing eq_refl eq_refl)
    as (_ & _ & _ & H1 & H2 & _).
  split; [exact H1 | exact H2].
Defined.

(** A resume sent to a queue that is playing marks it paused. *)
Lemma pause_command_flag_witness :
  exists q',
    JS.get "42.100"
      (Worker.queues
         (Worker.on_message env (command_packet (Worker.PAUSE false))
            (thread playing))) = Some q'
    /\ Worker.paused q' = true
    /\ WorkerSpec.heartbeat 0 q' = [].
Proof.
  destruct (PlaybackFacts.pause_command_flag env
              (command_packet (Worker.PAUSE false)) (thread playing) false
              playing eq_refl eq_refl eq_refl) as (q' & Hg & Hp & Hh).
  exists q'. split; [exact Hg |]. split; [exact Hp |].
  rewrite (Hh 0%Z), Hp. reflexivity.
Defined.

Lemma stop_ends_once_witness :
  Worker.posted (Worker.stop false playing)
  = [Worker.TrackEndEvent "100" Worker.STOPPED]
  /\ Worker.track (Worker.stop false playing) = None.
Proof.
  destruct (PlaybackFacts.stop_ends_once false playing)
    as (_ & Hp & _ & _ & Hn).
  split; [exact Hp |]. apply Hn. discriminate.
Defined.

Lemma stop_keeps_pending_witness :
  Worker.player
    (Worker.probe_done 0
       (Worker.stream_ready env 0 (Worker.stop false waiting)))
  = Worker.Buffering
  /\ Worker.track
       (Worker.probe_done 0
          (Worker.stream_ready env 0 (Worker.stop false waiting)))
     = Some http_track.
Proof.
  destruct (PlaybackFacts.stop_keeps_pending env waiting http_track
              (Sample.decode_blob "http") eq_refl eq_refl eq_refl eq_refl
              eq_refl eq_refl) as (_ & _ & H1 & _ & H2 & _).
  split; [exact H1 | exact H2].
Defined.

Lemma queue_replaces_witness :
  Worker.track (Worker.queue env http_track playing) = None
  /\ Worker.building (Worker.queue env http_track playing) = [].
Proof.
  destruct (proj1 (PlaybackFacts.queue_replaces env http_track playing)
              eq_refl) as (H1 & _ & _ & H2 & _).
  split; [exact H1 | exact H2].
Defined.

Lemma seek_restarts_witness :
  PlaybackSpec.transcoder
    (Worker.stream_ready env 0 (Worker.drain (Worker.seek env 5000 playing)))
  = Some ([Some "-ss"; Some "5000ms"] ++ Worker.ffmpeg_base)
  /\ Worker.position_of
       (Worker.stream_ready env 0
          (Worker.drain (Worker.seek env 5000 playing))) = 5000%float.
Proof.
  destruct (PlaybackFacts.seek_restarts env playing http_track 5000
              eq_refl eq_refl eq_refl eq_refl eq_refl eq_refl)
    as (H1 & _ & _ & _ & _ & _ & H2).
  split; [rewrite H1; reflexivity | rewrite H2; reflexivity].
Defined.

Lemma seek_is_silent_witness :
  Worker.posted
    (Worker.player_enters Worker.Playing
       (Worker.stream_ready env 0
          (Worker.drain (Worker.seek env 5000 playing)))) = [].
Proof.
  exact (proj2 (PlaybackFacts.seek_is_silent env playing http_track 5000
                  eq_refl eq_refl eq_refl eq_refl eq_refl eq_refl eq_refl)).
Defined.

Lemma rearm_skips_ahead_witness :
  PlaybackSpec.transcoder
    (Worker.stream_ready env 0
       (Worker.drain (Worker.ffmpeg env ["volume=2"] halfway)))
  = Some ([Some "-ss"; Some "3500ms"; Some "-accurate_seek"]
          ++ Worker.ffmpeg_base ++ [Some "-af"; Some "volume=2"])
  /\ Worker.seekTime
       (Worker.stream_ready env 0
          (Worker.drain (Worker.ffmpeg env ["volume=2"] halfway)))
     = (1500 + 2000)%float.
Proof.
  destruct (PlaybackFacts.rearm_skips_ahead env halfway http_track
              ["volume=2"] eq_refl eq_refl eq_refl eq_refl eq_refl)
    as (H1 & H2 & _);
    [discriminate | reflexivity | reflexivity | reflexivity |].
  split; [rewrite H1; reflexivity | rewrite H2; reflexivity].
Defined.

(** A volume filter sent during a seek is lost together with the
    position of the seek. *)
Lemma filters_after_seek_witness :
  PlaybackSpec.transcoder
    (Worker.stream_ready env 0
       (Worker.drain
          (Worker.completion_queue
             (Worker.filters env (PlaybackSpec.volume_only 2)
                (Worker.drain (Worker.seek env 5000 playing))))))
  = Some ([Some "-ss"; Some "-accurate_seek"] ++ Worker.ffmpeg_base).
Proof.
  destruct (PlaybackFacts.filters_after_seek env playing http_track 5000 2
              eq_refl eq_refl eq_refl eq_refl eq_refl eq_refl eq_refl)
    as (_ & _ & H & _).
  exact H.
Defined.

Lemma play_delivers_witness :
  PlaybackSpec.transcoder
    (Worker.stream_ready env 0
       (Worker.drain (Worker.queue env late_track fresh)))
  = Some ([Some "-ss"; Some "1000ms"; Some "-accurate_seek"]
          ++ Worker.ffmpeg_base)
  /\ Worker.posted
       (Worker.player_enters Worker.Playing
          (Worker.stream_ready env 0
             (Worker.drain (Worker.queue env late_track fresh))))
     = [Worker.TrackStartEvent "100" "http"].
Proof.
  destruct (PlaybackFacts.play_delivers env late_track fresh)
    as (H1 & _ & _ & _ & H2);
    [discriminate | reflexivity | reflexivity | reflexivity | reflexivity
    | reflexivity | reflexivity | left; reflexivity |].
  assert (Ht : JS.truthy (Track.start late_track) = true) by reflexivity.
  rewrite Ht in H1, H2.
  split; [exact H1 | exact H2].
Defined.

(** A seek for a room nobody plays in is ignored. *)
Lemma commands_stay_local_witness :
  Worker.on_message env (seek_packet 5000) idle_thread = idle_thread.
Proof.
  apply (proj1 (proj2 (ThreadFacts.commands_stay_local env (seek_packet 5000)
                         idle_thread)));
    reflexivity.
Defined.

Lemma stored_under_own_key_witness :
  exists q,
    JS.get "42.100" (Thread.queues (Thread.run env tuning Thread.boot))
    = Some q
    /\ "42.100" = Worker.key_of (Worker.clientID q) (Worker.guildID q)
    /\ Worker._destroyed q = false.
Proof.
  eexists. split; [vm_compute; reflexivity |].
  destruct (ThreadFacts.stored_under_own_key env tuning "42.100" _
              ltac:(vm_compute; reflexivity)) as (H1 & H2 & _).
  split; [exact H1 | exact H2].
Defined.

Lemma volume_in_sync_witness :
  exists q r,
    JS.get "42.100" (Thread.queues (Thread.run env tuning Thread.boot))
    = Some q
    /\ Worker.current q = Some r
    /\ Worker.resourceVolume r = Worker._volume q
    /\ Worker._volume q = 0.5%float.
Proof.
  eexists. eexists.
  split; [vm_compute; reflexivity |].
  split; [vm_compute; reflexivity |].
  split; [| vm_compute; reflexivity].
  apply (ThreadFacts.volume_in_sync env tuning "42.100");
    vm_compute; reflexivity.
Defined.

Lemma one_room_queue :
  JS.get "42.100" (Thread.queues one_room)
  = Some (Worker.set_posted [] waiting).
Proof. vm_compute. reflexivity. Qed.

Lemma destroy_removes_witness :
  JS.get "42.100"
    (Thread.queues
       (Thread.thread_of
          (Thread.on_packet env (Thread.DESTROY "100" "42") one_room)))
  = None
  /\ Thread.outbox
       (Thread.thread_of
          (Thread.on_packet env (Thread.DESTROY "100" "42") one_room))
     = Thread.outbox one_room ++ [Thread.CLOSE].
Proof.
  destruct (ThreadFacts.destroy_removes env one_room "100" "42"
              (Worker.set_posted [] waiting)) as (H1 & _ & H2 & _).
  - vm_compute; reflexivity.
  - vm_compute. repeat constructor. intros [].
  - exact one_room_queue.
  - repeat split. discriminate.
  - split; [exact H1 |].
    rewrite H2. vm_compute; reflexivity.
Defined.

Lemma delete_all_removes_witness :
  exists w',
    Thread.on_packet env (Thread.DELETE_ALL "42" 9) two_clients
    = Thread.Done w'
    /\ List.map fst (Thread.queues w') = ["43.200"]
    /\ Thread.outbox w'
       = Thread.outbox two_clients ++ [Thread.DELETED_REPLY 1 9].
Proof.
  destruct (ThreadFacts.delete_all_removes env two_clients "42" 9)
    as (w' & H1 & H2 & H3 & _).
  - vm_compute; reflexivity.
  - vm_compute. repeat constructor; cbn; intuition discriminate.
  - apply (proj1 (List.Forall_forall _ _)). vm_compute.
    repeat constructor. discriminate.
  - exists w'. split; [exact H1 |].
    split; [rewrite H2 | rewrite H3]; vm_compute; reflexivity.
Defined.

Lemma stats_counts_witness :
  Thread.on_packet env (Thread.STATS 3) two_clients
  = Thread.Done
      (Thread.postMessage (Thread.STATS_REPLY 2 2 3) two_clients)
  /\ exists news,
      Thread.outbox (Thread.on_interval 0 two_clients)
      = Thread.outbox two_clients ++ List.map Thread.Base news
      /\ length (List.filter ThreadSpec.is_update news) = 2%nat.
Proof.
  destruct (ThreadFacts.stats_counts env two_clients 3 0)
    as (H1 & _ & H2).
  - vm_compute; reflexivity.
  - vm_compute; reflexivity.
  - apply (proj1 (List.Forall_forall _ _)). vm_compute.
    repeat constructor.
  - split; [exact H1 | exact H2].
Defined.

Lemma stuck_names_no_track_witness :
  snd (Thread.play_stuck true playing)
  = [Thread.TrackStuckEvent "100" "UNKNOWN"].
Proof.
  destruct (ThreadFacts.stuck_names_no_track playing)
    as (_ & _ & _ & _ & _ & _ & H).
  apply H. left. discriminate.
Defined.

(** A wrong password is answered with 401 and changes nothing. *)
Lemma upgrade_authorization_witness :
  Gateway.on_upgrade (Some "secret") intruder 1 nobody
  = (nobody, Gateway.Unauthorized).
Proof.
  apply (proj1 (SessionFacts.upgrade_authorization (Some "secret") intruder
                  1 nobody)).
  left. exists "secret". split; [reflexivity | discriminate].
Defined.

(** After the resumption on socket 3, the events of room 100 still go
    to socket 1, which is closed. *)
Lemma routes_survive_witness :
  let g2 :=
    fst (Gateway.on_upgrade None (hello (Some "k")) 3
           (Gateway.on_client_close 1 "42" 7 alone_open)) in
  Gateway.wire (Gateway.on_pool_message "42" started g2)
  = Gateway.wire g2 ++ [(1%nat, started)]
  /\ In 1%nat (Gateway.closed g2).
Proof.
  destruct SessionFacts.routes_survive as (_ & _ & _ & _ & H).
  apply (H None (hello (Some "k")) 1%nat 3%nat "42" 7%nat "42" started
           alone_open).
  vm_compute. reflexivity.
Defined.

Lemma configure_then_close_witness :
  Gateway.resumable (hello (Some "k"))
    (Gateway.on_client_close 1 "42" 7
       (Gateway.on_configureResuming 1 "42" (Some "k") None one_socket))
  = true.
Proof.
  destruct (SessionFacts.configure_then_close 1 "42" "k" None 7 one_socket
              [Gateway.fresh_connection 1])
    as (_ & _ & _ & _ & H);
    [reflexivity | reflexivity | discriminate |].
  apply H. reflexivity.
Defined.

Lemma close_without_key_witness :
  JS.get "42" (Gateway.connections (Gateway.on_client_close 1 "42" 7 one_socket))
  = None
  /\ Gateway.timers (Gateway.on_client_close 1 "42" 7 one_socket) = [].
Proof.
  destruct (SessionFacts.close_without_key 1 "42" 7 one_socket [] []
              (Gateway.fresh_connection 1))
    as (H1 & _ & _ & H2 & _).
  - repeat constructor. intros [].
  - reflexivity.
  - intros c [].
  - reflexivity.
  - reflexivity.
  - split; [exact H1 | exact H2].
Defined.

Lemma no_event_lost_witness :
  let g3 :=
    fst (Gateway.on_upgrade None (hello (Some "k")) 3
           (SessionSpec.relay [("42", started); ("42", started)]
              (Gateway.on_client_close 1 "42" 7 alone_open))) in
  Gateway.sent_on 3 g3 = [started; started]
  /\ Gateway.socketDeleteTimeouts g3 !! "k" = None.
Proof.
  intros g3.
  destruct (SessionFacts.no_event_lost None (hello (Some "k")) 1 3 "42" 7 "k"
              resumable_connection [] [("42", started); ("42", started)]
              alone_open g3
              ["Session-Resumed: true"; "Lavalink-Major-Version: 3";
               "Is-Volcano: true"])
    as (H1 & H2 & _).
  - vm_compute. reflexivity.
  - vm_compute. reflexivity.
  - reflexivity.
  - reflexivity.
  - discriminate.
  - intros e [<- | [<- | []]]; vm_compute; reflexivity.
  - reflexivity.
  - vm_compute. reflexivity.
  - split; [| exact H2]. unfold Gateway.sent_on. rewrite H1.
    vm_compute. reflexivity.
Defined.

Lemma key_of_injective_witness : "42" = "42" /\ "100" = "100".
Proof.
  exact (SessionFacts.key_of_injective "42" "42" "100" "100" eq_refl eq_refl
           eq_refl).
Defined.

(** When client 1 leaves, the voice state of client 12 is deleted. *)
Lemma forget_by_prefix_witness :
  Voice.forget nat "1" (Voice.on_voiceUpdate nat "12" (Some "100") 5%nat ∅)
    !! Voice.key "12" (Some "100") = None.
Proof.
  destruct (SessionFacts.forget_by_prefix nat "1"
              (Voice.on_voiceUpdate nat "12" (Some "100") 5%nat ∅))
    as (_ & H & _).
  apply H; reflexivity.
Defined.

Lemma sweep_stops_at_first_dead_witness :
  KeepAlive.sweep [alive 1; silent 2; alive 3]
  = ([KeepAlive.mark (alive 1); silent 2; alive 3],
     [KeepAlive.Ping 1; KeepAlive.Send 1; KeepAlive.Terminate 2]).
Proof.
  apply (proj1 KeepAliveFacts.sweep_stops_at_first_dead
           [alive 1] (silent 2) [alive 3]).
  - intros c [<- | []]. reflexivity.
  - reflexivity.
Defined.

End MoreExamples.
